(** * Multivariate B-spline surface: a model of [src/src/bspline.cpp]
      and [src/src/generaldefinitions.cpp]

    The development follows the C++ text of class [BSpline] method by
    method.  Three collaborators of that class are not part of the sources
    at hand and enter as interfaces: the scalar type [double], the tensor
    basis class [BSplineBasis] (header [include/bsplinebasis.h]) and the
    linear solvers ([include/linearsolvers.h]).  Eigen matrices are
    modelled by their dimensions and their coefficient function; a product
    is the sum formula at whatever sizes it is given, the size checks of
    the code being the ones that the C++ text itself writes.  Eigen's own
    debug checks of a size or an index, in [resize] and in
    [coefficients(i, j) = v] as in a product, are not part of the model:
    a write at an index outside the matrix leaves its size and its
    coefficients inside the size as they were.

    Conventions.
    - A C++ call either returns or leaves by an exception or a failed
      [assert]; this is the type [outcome].  The model is the build in
      which [assert] is active (no [NDEBUG]).
    - A member function is a state transformer over the object and a log
      of the calls it makes to [checkControlPoints] and of the lines it
      writes to [std::cout]; the state is kept when an exception leaves
      the function, because the C++ code has no rollback.
    - [unsigned int] and [int] are 32-bit; their wrap-around is written
      with [to_uint] and [to_int]. *)

From Stdlib Require Import ZArith QArith Qcanon Bool Lia Lqa String Ascii List DecimalString.
From Stdlib Require DecimalPos PrimFloat Uint63Axioms.
Import ListNotations.
Local Open Scope Z_scope.

(** ** C++ control flow *)

Inductive cxx_error : Type :=
| Exception (what : string)          (* MultivariateSplines::Exception *)
| invalid_argument (what : string)   (* std::invalid_argument *)
| out_of_range (what : string)       (* std::out_of_range *)
| assert_failed (expr : string).     (* assert(expr) with expr false *)

Inductive outcome (A : Type) : Type :=
| Return (a : A)
| Throw (e : cxx_error).
Arguments Return {A} a.
Arguments Throw {A} e.

Definition obind {A B} (o : outcome A) (k : A -> outcome B) : outcome B :=
  match o with
  | Return a => k a
  | Throw e => Throw e
  end.

Declare Scope outcome_scope.
Delimit Scope outcome_scope with outcome.
Notation "x <- c ;; k" := (obind c (fun x => k))
  (at level 61, c at next level, right associativity) : outcome_scope.
Notation "' p <- c ;; k" := (obind c (fun x => let p := x in k))
  (at level 61, p pattern, c at next level, right associativity) : outcome_scope.

(** [std::vector::at]: range-checked access. *)
Definition vector_at {A} (v : list A) (i : nat) : outcome A :=
  match nth_error v i with
  | Some a => Return a
  | None => Throw (out_of_range "vector::at")
  end.

(** ** Machine integers *)

Definition UINT_MAX : Z := 4294967295.
Definition INT_MAX : Z := 2147483647.
Definition INT_MIN : Z := -2147483648.
Definition LONG_MAX : Z := 9223372036854775807.
Definition LONG_MIN : Z := -9223372036854775808.

(** Conversion of an integer value to [unsigned int]. *)
Definition to_uint (z : Z) : Z := z mod (UINT_MAX + 1).
(** Conversion of an [unsigned int] value to [int]. *)
Definition to_int (z : Z) : Z :=
  let m := to_uint z in if m <=? INT_MAX then m else m - (UINT_MAX + 1).
Definition uadd (a b : Z) : Z := to_uint (a + b).
Definition usub (a b : Z) : Z := to_uint (a - b).

(** The values of an [unsigned int] loop variable running from [lo]
    while it is [<= hi]. *)
Definition uint_range (lo hi : Z) : list Z :=
  map (fun t => lo + Z.of_nat t) (seq 0 (Z.to_nat (hi + 1 - lo))).

(** ** Scalars *)

(** The operations of [double] that the code uses.  No law is built in:
    a theorem that needs one states it. *)
Class Double : Type := {
  double : Type;
  d0 : double;
  d1 : double;
  dadd : double -> double -> double;
  dmul : double -> double -> double;
  ddiv : double -> double -> double;
  dle : double -> double -> bool;
  dlt : double -> double -> bool;
  double_of_Z : Z -> double
}.

Section Eigen.
Context `{Double}.

(** [Eigen::MatrixXd] and [Eigen::SparseMatrix<double>]: sparsity is a
    storage matter, so both are a size and a coefficient function.  A
    vector is a matrix with one column. *)
Record Matrix : Type := mkMatrix {
  rows : nat;
  cols : nat;
  coeff : nat -> nat -> double
}.

Definition vec (v : Matrix) (i : nat) : double := coeff v i 0%nat.

Definition vector_of_list (l : list double) : Matrix :=
  mkMatrix (length l) 1 (fun i _ => nth i l d0).

(** Left-to-right accumulation from zero, as a product kernel does. *)
Definition dsum (n : nat) (f : nat -> double) : double :=
  fold_left (fun acc k => dadd acc (f k)) (seq 0 n) d0.

(** [A * B]; Eigen requires [A.cols() == B.rows()]. *)
Definition mat_mul (A B : Matrix) : Matrix :=
  mkMatrix (rows A) (cols B)
    (fun i j => dsum (cols A) (fun k => dmul (coeff A i k) (coeff B k j))).

Definition transpose (A : Matrix) : Matrix :=
  mkMatrix (cols A) (rows A) (fun i j => coeff A j i).

(** [A.block(i0, j0, r, c)] read as a matrix. *)
Definition block (A : Matrix) (i0 j0 r c : nat) : Matrix :=
  mkMatrix r c (fun i j => coeff A (i0 + i)%nat (j0 + j)%nat).

(** [A.block(i0, j0, r, c) = B]. *)
Definition set_block (A : Matrix) (i0 j0 r c : nat) (B : Matrix) : Matrix :=
  mkMatrix (rows A) (cols A)
    (fun i j =>
       if ((i0 <=? i) && (i <? i0 + r) && (j0 <=? j) && (j <? j0 + c))%nat
       then coeff B (i - i0)%nat (j - j0)%nat
       else coeff A i j).

(** [A(i, j) = v]. *)
Definition set_coeff (A : Matrix) (i j : nat) (v : double) : Matrix :=
  mkMatrix (rows A) (cols A)
    (fun i' j' => if ((i' =? i) && (j' =? j))%nat then v else coeff A i' j').

(** [A.resize(r, c)]: the old coefficients are not kept. *)
Definition resized (r c : nat) : Matrix := mkMatrix r c (fun _ _ => d0).

Definition ones (n : nat) : Matrix := mkMatrix n 1 (fun _ _ => d1).
Definition identity (n : nat) : Matrix :=
  mkMatrix n n (fun i j => if (i =? j)%nat then d1 else d0).

(** [Eigen::kroneckerProduct(A, B)]: block [(i, j)] is [A(i,j) * B]. *)
Definition kroneckerProduct (A B : Matrix) : Matrix :=
  mkMatrix (rows A * rows B) (cols A * cols B)
    (fun i j =>
       dmul (coeff A (i / rows B)%nat (j / cols B)%nat)
            (coeff B (i mod rows B)%nat (j mod cols B)%nat)).
End Eigen.

(** ** Text to number: [generaldefinitions.cpp] *)

(** The result of a C conversion function [strto*(str, &end)]: the value,
    the distance of [end] from [str], and whether it set [errno] to
    [ERANGE].  No conversion leaves [end == str], distance zero. *)
Record conversion (V : Type) : Type := mkConversion {
  conv_value : V;
  conv_end : nat;
  conv_erange : bool
}.
Arguments mkConversion {V}.
Arguments conv_value {V}.
Arguments conv_end {V}.
Arguments conv_erange {V}.

(** The pointer [str + n]. *)
Fixpoint advance (n : nat) (str : string) : string :=
  match n, str with
  | S n', String _ rest => advance n' rest
  | _, _ => str
  end.

(** [isspace] in the C locale. *)
Definition isspace (c : ascii) : bool :=
  let n := nat_of_ascii c in
  ((n =? 32) || ((9 <=? n) && (n <=? 13)))%nat.

Definition digit_value (c : ascii) : option Z :=
  let n := nat_of_ascii c in
  if ((48 <=? n) && (n <=? 57))%nat then Some (Z.of_nat (n - 48)) else None.

Fixpoint skip_space (str : string) : nat :=
  match str with
  | String c rest => if isspace c then S (skip_space rest) else O
  | EmptyString => O
  end.

(** The longest run of decimal digits at the head of [str]: its value on
    top of [acc], and its length. *)
Fixpoint read_digits (str : string) (acc : Z) : Z * nat :=
  match str with
  | String c rest =>
      match digit_value c with
      | Some d => let '(v, n) := read_digits rest (10 * acc + d) in (v, S n)
      | None => (acc, O)
      end
  | EmptyString => (acc, O)
  end.

(** [std::strtol(str, &end, 10)] with a 64-bit [long]: white space, an
    optional sign, decimal digits; the value is clamped to the range of
    [long] with [ERANGE]. *)
Definition strtol (str : string) : conversion Z :=
  let nspace := skip_space str in
  let s1 := advance nspace str in
  let '(negative, nsign) :=
    match s1 with
    | String "-" _ => (true, 1%nat)
    | String "+" _ => (false, 1%nat)
    | _ => (false, 0%nat)
    end in
  let '(magnitude, ndigits) := read_digits (advance nsign s1) 0 in
  if (ndigits =? 0)%nat then mkConversion 0 0 false
  else
    let v := if negative then - magnitude else magnitude in
    let e := (nspace + nsign + ndigits)%nat in
    if v >? LONG_MAX then mkConversion LONG_MAX e true
    else if v <? LONG_MIN then mkConversion LONG_MIN e true
    else mkConversion v e false.

(** generaldefinitions.cpp:49, at the default [_Base = 10], the only one
    the repository uses.  The second component is what the function
    stores to [*_Eptr]. *)
Definition checked_strtol (_Str : string) : outcome (Z * string) :=
  let r := strtol _Str in
  let _Ret := conv_value r in
  if (conv_end r =? 0)%nat then Throw (invalid_argument "strtol")
  else if conv_erange r || ((_Ret <? INT_MIN) || (_Ret >? INT_MAX))
  then Throw (out_of_range "strtol")
  else Return (_Ret, advance (conv_end r) _Str).

(** [std::strtod] and the stream insertion of a [double] at a given
    precision belong to the C and C++ libraries. *)
Class DoubleText `{Double} : Type := {
  strtod : string -> conversion double;
  show_double : nat -> double -> string
}.

(** generaldefinitions.cpp:21 *)
Definition checked_strtod `{DoubleText} (_Str : string) : outcome (double * string) :=
  let r := strtod _Str in
  let _Ret := conv_value r in
  if (conv_end r =? 0)%nat then Throw (invalid_argument "strtod")
  else if conv_erange r then Throw (out_of_range "strtod")
  else Return (_Ret, advance (conv_end r) _Str).

(** ** Numbers in a text *)

(** What stands at the reading position once white space and one sign
    are passed. *)
Definition after_sign (str : string) : string :=
  let s1 := advance (skip_space str) str in
  match s1 with
  | String "-" r => r
  | String "+" r => r
  | _ => s1
  end.

Definition is_negative (str : string) : bool :=
  match advance (skip_space str) str with
  | String "-" _ => true
  | _ => false
  end.

(** The text at the reading position begins with a decimal number. *)
Definition starts_with_number (str : string) : bool :=
  match after_sign str with
  | String c _ => match digit_value c with Some _ => true | None => false end
  | EmptyString => false
  end.

(** The integer that the leading number denotes. *)
Definition number_value (str : string) : Z :=
  let magnitude := fst (read_digits (after_sign str) 0) in
  if is_negative str then - magnitude else magnitude.

(** Every character of [str] is a decimal digit. *)
Fixpoint all_digits (str : string) : bool :=
  match str with
  | EmptyString => true
  | String c rest =>
      match digit_value c with Some _ => all_digits rest | None => false end
  end.

(** A token that is a decimal integer from its first character to its
    last. *)
Definition numeral_token (token : string) : bool :=
  match token with
  | EmptyString => false
  | String "-" rest => negb (String.eqb rest "") && all_digits rest
  | String "+" rest => negb (String.eqb rest "") && all_digits rest
  | _ => all_digits token
  end.

(** ** The tensor basis, as the surface sees it *)

(** The operations of class [BSplineBasis] that [bspline.cpp] calls.  The
    three knot-vector operations return their success flag, the
    transformation matrix they write to their reference argument, and the
    basis they leave behind. *)
Class BasisLayer `{Double} : Type := {
  BSplineBasis : Type;
  BSplineBasis_default : BSplineBasis;
  BSplineBasis_explicit : list (list double) -> list Z -> outcome BSplineBasis;
  BSplineBasis_free : list (list double) -> list Z -> outcome BSplineBasis;
  getKnotVectors : BSplineBasis -> list (list double);
  getKnotVector : BSplineBasis -> nat -> list double;
  getBasisDegree : BSplineBasis -> nat -> Z;
  getKnotMultiplicity : BSplineBasis -> nat -> double -> Z;
  numBasisFunctionsIn : BSplineBasis -> nat -> Z;
  numBasisFunctions : BSplineBasis -> Z;
  getSupportLowerBound : BSplineBasis -> list double;
  getSupportUpperBound : BSplineBasis -> list double;
  basis_eval : BSplineBasis -> Matrix -> Matrix;
  basis_insertKnots : BSplineBasis -> double -> nat -> Z -> bool * Matrix * BSplineBasis;
  basis_refineKnots : BSplineBasis -> bool * Matrix * BSplineBasis;
  basis_reduceSupport :
    BSplineBasis -> list double -> list double -> bool * Matrix * BSplineBasis
}.

(** The solvers of [include/linearsolvers.h]: [s.solve(A, B, X)] returns
    its success flag and leaves a value in [X]. *)
Class LinearSolvers `{Double} : Type := {
  SparseLU_solve : Matrix -> Matrix -> bool * Matrix;
  DenseQR_solve : Matrix -> Matrix -> bool * Matrix
}.

(** Monadic iteration over a list in [outcome]. *)
Fixpoint omap {A B} (f : A -> outcome B) (l : list A) : outcome (list B) :=
  match l with
  | [] => Return []
  | a :: l' =>
      (b <- f a ;; bs <- omap f l' ;; Return (b :: bs))%outcome
  end.

Fixpoint ofold {A B} (f : B -> A -> outcome B) (l : list A) (b : B) : outcome B :=
  match l with
  | [] => Return b
  | a :: l' => (b' <- f b a ;; ofold f l' b')%outcome
  end.

(** [std::string::at] *)
Definition string_at (str : string) (i : nat) : outcome ascii :=
  match String.get i str with
  | Some c => Return c
  | None => Throw (out_of_range "basic_string::at")
  end.

(** Stream insertion of an integer. *)
Definition show_Z (z : Z) : string := NilZero.string_of_int (Z.to_int z).

Section Surface.
Context `{BasisLayer} {DT : DoubleText} {LS : LinearSolvers}.

(** Modelled from the spec: [BSplineBasis::insideSupport] is declared in
    [include/bsplinebasis.h], which is not among the sources.  The spec
    (4.4) gives the support box: every coordinate lies within
    [lowerBound, upperBound] of its dimension's basis. *)
Fixpoint inside_box (i : nat) (lb ub : list double) (x : Matrix) : bool :=
  match lb, ub with
  | l :: lb', u :: ub' =>
      dle l (vec x i) && dle (vec x i) u && inside_box (S i) lb' ub' x
  | _, _ => true
  end.

Definition insideSupport (b : BSplineBasis) (x : Matrix) : bool :=
  inside_box 0 (getSupportLowerBound b) (getSupportUpperBound b) x.

(** The data members of [BSpline]. *)
Record BSpline : Type := mkBSpline {
  basis : BSplineBasis;
  coefficients : Matrix;
  knotaverages : Matrix;
  numVariables : Z
}.

Definition with_basis (s : BSpline) (b : BSplineBasis) : BSpline :=
  mkBSpline b (coefficients s) (knotaverages s) (numVariables s).
Definition with_coefficients (s : BSpline) (c : Matrix) : BSpline :=
  mkBSpline (basis s) c (knotaverages s) (numVariables s).
Definition with_knotaverages (s : BSpline) (k : Matrix) : BSpline :=
  mkBSpline (basis s) (coefficients s) k (numVariables s).
Definition with_numVariables (s : BSpline) (n : Z) : BSpline :=
  mkBSpline (basis s) (coefficients s) (knotaverages s) n.

(** *** Member functions as state transformers *)

(** What a run leaves in the world besides the object: the calls of
    [checkControlPoints] and the lines written to [std::cout]. *)
Inductive event : Type :=
| Called_checkControlPoints
| Cout (line : string).

Record World : Type := mkWorld {
  self : BSpline;
  trace : list event
}.

Definition M (A : Type) : Type := World -> outcome A * World.

Definition ret {A} (a : A) : M A := fun w => (Return a, w).
Definition throw {A} (e : cxx_error) : M A := fun w => (Throw e, w).
Definition bind {A B} (m : M A) (k : A -> M B) : M B :=
  fun w =>
    match m w with
    | (Return a, w') => k a w'
    | (Throw e, w') => (Throw e, w')
    end.
Definition lift {A} (o : outcome A) : M A := fun w => (o, w).
Definition this_object : M BSpline := fun w => (Return (self w), w).
Definition update (f : BSpline -> BSpline) : M unit :=
  fun w => (Return tt, mkWorld (f (self w)) (trace w)).
Definition emit (e : event) : M unit :=
  fun w => (Return tt, mkWorld (self w) (trace w ++ [e])).
Definition assert (c : bool) (expr : string) : M unit :=
  if c then ret tt else throw (assert_failed expr).

Declare Scope cxx_scope.
Delimit Scope cxx_scope with cxx.
Notation "x <- c ;; k" := (bind c (fun x => k))
  (at level 61, c at next level, right associativity) : cxx_scope.
Notation "c ;; k" := (bind c (fun _ => k))
  (at level 61, right associativity) : cxx_scope.
Local Open Scope cxx_scope.

(** [a >= b] and [a > b] on doubles are [b <= a] and [b < a]. *)
Definition dge (a b : double) : bool := dle b a.
Definition dgt (a b : double) : bool := dlt b a.

Definition size {A} (v : list A) : Z := Z.of_nat (length v).

(** [v.at(i) = a] for an index already read through [at]. *)
Fixpoint assign_at {A} (v : list A) (i : nat) (a : A) : list A :=
  match v, i with
  | [], _ => []
  | _ :: v', O => a :: v'
  | x :: v', S i' => x :: assign_at v' i' a
  end.

(** bspline.cpp:199 *)
Definition pointInDomain (s : BSpline) (x : Matrix) : bool :=
  insideSupport (basis s) x.

(** bspline.cpp:91 *)
Definition eval (s : BSpline) (x : Matrix) : outcome double :=
  if negb (pointInDomain s x) then
    Throw (Exception "BSpline::eval: Evaluation at point outside domain.")
  else
    let tensorvalues := basis_eval (basis s) x in
    let y := mat_mul (coefficients s) tensorvalues in
    Return (vec y 0).

(** bspline.cpp:169 *)
Definition getControlPoints (s : BSpline) : Matrix :=
  let nc := cols (coefficients s) in
  let nv := Z.to_nat (numVariables s) in
  let controlPoints := resized (Z.to_nat (uadd (numVariables s) 1)) nc in
  let controlPoints := set_block controlPoints 0 0 nv nc (knotaverages s) in
  set_block controlPoints nv 0 1 nc (coefficients s).

(** bspline.cpp:191 *)
Definition checkControlPoints : M bool :=
  emit Called_checkControlPoints ;;
  s <- this_object ;;
  assert (cols (coefficients s) =? cols (knotaverages s))%nat
         "coefficients.cols() == knotaverages.cols()" ;;
  assert (Z.of_nat (rows (knotaverages s)) =? numVariables s)
         "knotaverages.rows() == numVariables" ;;
  assert (rows (coefficients s) =? 1)%nat "coefficients.rows() == 1" ;;
  ret true.

(** bspline.cpp:180 *)
Definition setControlPoints (controlPoints : Matrix) : M unit :=
  s <- this_object ;;
  assert (Z.of_nat (rows controlPoints) =? uadd (numVariables s) 1)
         "controlPoints.rows() == numVariables + 1" ;;
  let nc := cols controlPoints in
  let nv := Z.to_nat (numVariables s) in
  update (fun s => with_knotaverages s (block controlPoints 0 0 nv nc)) ;;
  update (fun s => with_coefficients s (block controlPoints nv 0 1 nc)) ;;
  _ <- checkControlPoints ;;
  ret tt.

(** bspline.cpp:419.  The types of [getKnotMultiplicity] and
    [getBasisDegree] are [unsigned int], as their uses at lines 462 and
    470 show, so both sides of the test wrap. *)
Definition insertKnots (tau : double) (dim : nat) (multiplicity : Z) : M bool :=
  s <- this_object ;;
  if uadd (getKnotMultiplicity (basis s) dim tau) multiplicity
       >? uadd (getBasisDegree (basis s) dim) 1
  then ret false
  else
    let '(ok, A, b') := basis_insertKnots (basis s) tau dim multiplicity in
    update (fun s => with_basis s b') ;;
    if negb ok then ret false
    else
      s <- this_object ;;
      assert (cols A =? cols (coefficients s))%nat
             "A.cols() == coefficients.cols()" ;;
      update (fun s => with_coefficients s (mat_mul (coefficients s) (transpose A))) ;;
      update (fun s => with_knotaverages s (mat_mul (knotaverages s) (transpose A))) ;;
      ret true.

(** bspline.cpp:438 *)
Definition refineKnotVectors : M bool :=
  s <- this_object ;;
  let '(ok, A, b') := basis_refineKnots (basis s) in
  update (fun s => with_basis s b') ;;
  if negb ok then ret false
  else
    s <- this_object ;;
    assert (cols A =? cols (coefficients s))%nat
           "A.cols() == coefficients.cols()" ;;
    update (fun s => with_coefficients s (mat_mul (coefficients s) (transpose A))) ;;
    update (fun s => with_knotaverages s (mat_mul (knotaverages s) (transpose A))) ;;
    ret true.

(** bspline.cpp:460, the body of the loop over [dim]; [None] stands for
    falling through to the next iteration. *)
Definition regularize_dim (lb ub : list double) (dim : nat) : M (option bool) :=
  s <- this_object ;;
  let multiplicityTarget := uadd (getBasisDegree (basis s) dim) 1 in
  lbd <- lift (vector_at lb dim) ;;
  let numKnotsLB :=
    to_int (usub multiplicityTarget (getKnotMultiplicity (basis s) dim lbd)) in
  r <- (if numKnotsLB >? 0 then
          lbd <- lift (vector_at lb dim) ;;
          ok <- insertKnots lbd dim (to_uint numKnotsLB) ;;
          ret (if negb ok then Some false else None)
        else ret None) ;;
  match r with
  | Some v => ret (Some v)
  | None =>
      s <- this_object ;;
      ubd <- lift (vector_at ub dim) ;;
      let numKnotsUB :=
        to_int (usub multiplicityTarget (getKnotMultiplicity (basis s) dim ubd)) in
      if numKnotsUB >? 0 then
        ubd <- lift (vector_at ub dim) ;;
        ok <- insertKnots ubd dim (to_uint numKnotsUB) ;;
        ret (if negb ok then Some false else None)
      else ret None
  end.

Fixpoint regularize_loop (lb ub : list double) (dims : list nat) : M bool :=
  match dims with
  | [] => ret true
  | dim :: rest =>
      r <- regularize_dim lb ub dim ;;
      match r with
      | Some v => ret v
      | None => regularize_loop lb ub rest
      end
  end.

(** bspline.cpp:454 *)
Definition regularizeKnotVectors (lb ub : list double) : M bool :=
  s <- this_object ;;
  if negb ((size lb =? numVariables s) && (size ub =? numVariables s))
  then ret false
  else regularize_loop lb ub (seq 0 (Z.to_nat (numVariables s))).

(** bspline.cpp:499 *)
Definition removeUnsupportedBasisFunctions (lb ub : list double) : M bool :=
  s <- this_object ;;
  assert (size lb =? numVariables s) "lb.size() == numVariables" ;;
  assert (size ub =? numVariables s) "ub.size() == numVariables" ;;
  let '(ok, A, b') := basis_reduceSupport (basis s) lb ub in
  update (fun s => with_basis s b') ;;
  if negb ok then ret false
  else
    s <- this_object ;;
    if negb (cols (coefficients s) =? rows A)%nat then ret false
    else
      update (fun s => with_coefficients s (mat_mul (coefficients s) A)) ;;
      update (fun s => with_knotaverages s (mat_mul (knotaverages s) A)) ;;
      ret true.

Definition empty_set_error : cxx_error :=
  Exception "BSpline::reduceDomain: Cannot reduce B-spline domain to empty set!".

(** bspline.cpp:214, the body of the loop over [dim], on the locals
    [sl], [su] and [isStrictSubset]. *)
Definition reduceDomain_dim (lb ub : list double)
    (acc : list double * list double * bool) (dim : nat)
  : outcome (list double * list double * bool) :=
  let '(sl, su, isStrictSubset) := acc in
  (ubd <- vector_at ub dim ;;
   lbd <- vector_at lb dim ;;
   if dle ubd lbd then Throw empty_set_error else
   lbd <- vector_at lb dim ;;
   sud <- vector_at su dim ;;
   if dge lbd sud then Throw empty_set_error else
   ubd <- vector_at ub dim ;;
   sld <- vector_at sl dim ;;
   if dle ubd sld then Throw empty_set_error else
   sud <- vector_at su dim ;;
   ubd <- vector_at ub dim ;;
   let '(su, isStrictSubset) :=
     if dgt sud ubd then (assign_at su dim ubd, true) else (su, isStrictSubset) in
   lbd <- vector_at lb dim ;;
   sld <- vector_at sl dim ;;
   let '(sl, isStrictSubset) :=
     if dgt lbd sld then (assign_at sl dim lbd, true) else (sl, isStrictSubset) in
   Return (sl, su, isStrictSubset))%outcome.

Fixpoint reduceDomain_loop (lb ub : list double)
    (acc : list double * list double * bool) (dims : list nat)
  : outcome (list double * list double * bool) :=
  match dims with
  | [] => Return acc
  | dim :: rest =>
      (acc' <- reduceDomain_dim lb ub acc dim ;;
       reduceDomain_loop lb ub acc' rest)%outcome
  end.

(** bspline.cpp:236, what follows the loop. *)
Definition reduceDomain_steps (doRegularizeKnotVectors doRefineKnotVectors : bool)
    (r : list double * list double * bool) : M bool :=
  let '(sl, su, isStrictSubset) := r in
  (if isStrictSubset then
     (if doRegularizeKnotVectors then
        ok <- regularizeKnotVectors sl su ;;
        if negb ok then
          throw (Exception "BSpline::reduceDomain: Failed to regularize knot vectors!")
        else ret tt
      else ret tt) ;;
     ok <- removeUnsupportedBasisFunctions sl su ;;
     (if negb ok then
        throw (Exception "BSpline::reduceDomain: Failed to remove unsupported basis functions!")
      else ret tt) ;;
     (if doRefineKnotVectors then
        ok <- refineKnotVectors ;;
        if negb ok then
          throw (Exception "BSpline::reduceDomain: Failed to refine knot vectors!")
        else ret tt
      else ret tt)
   else ret tt) ;;
  ret true.

(** bspline.cpp:204 *)
Definition reduceDomain (lb ub : list double)
    (doRegularizeKnotVectors doRefineKnotVectors : bool) : M bool :=
  s <- this_object ;;
  if negb (size lb =? numVariables s) || negb (size ub =? numVariables s)
  then ret false
  else
    let sl := getSupportLowerBound (basis s) in
    let su := getSupportUpperBound (basis s) in
    r <- lift (reduceDomain_loop lb ub (sl, su, false)
                 (seq 0 (Z.to_nat (numVariables s)))) ;;
    reduceDomain_steps doRegularizeKnotVectors doRefineKnotVectors r.

(** *** Knot averages *)

(** bspline.cpp:271, the average for basis function [j] of one
    dimension: the knots at indices [j+1 .. j+degree], summed from zero
    and divided by the degree. *)
Definition knot_average (knots : list double) (degree : Z) (j : Z)
  : outcome double :=
  (knotAvg <- ofold (fun acc k =>
                       v <- vector_at knots (Z.to_nat k) ;; Return (dadd acc v))
                    (uint_range (uadd j 1) (uadd j degree)) d0 ;;
   Return (ddiv knotAvg (double_of_Z degree)))%outcome.

(** bspline.cpp:264, the body of the first loop: the vector [mu] of
    dimension [i]. *)
Definition knot_averages_of (b : BSplineBasis) (i : nat) : outcome Matrix :=
  let knots := getKnotVector b i in
  (mu <- omap (fun j => knot_average knots (getBasisDegree b i) (Z.of_nat j))
              (seq 0 (Z.to_nat (numBasisFunctionsIn b i))) ;;
   Return (vector_of_list mu))%outcome.

Definition one_by_one : Matrix := mkMatrix 1 1 (fun _ _ => d1).

(** bspline.cpp:297, the inner loop over [j] that builds [mu_ext] for
    row [i]. *)
Definition mu_ext_of (knotAverages knotOnes : list Matrix) (nv i : nat)
  : outcome Matrix :=
  ofold (fun temp j =>
           if (i =? j)%nat
           then (m <- vector_at knotAverages j ;; Return (kroneckerProduct temp m))%outcome
           else (m <- vector_at knotOnes j ;; Return (kroneckerProduct temp m))%outcome)
        (seq 0 nv) one_by_one.

(** bspline.cpp:295, the loop that fills the matrix row by row. *)
Fixpoint fill_knotaverages (knotAverages knotOnes : list Matrix) (nv : nat)
    (rows_left : list nat) : M unit :=
  match rows_left with
  | [] => ret tt
  | i :: rest =>
      mu_ext <- lift (mu_ext_of knotAverages knotOnes nv i) ;;
      s <- this_object ;;
      let n := numBasisFunctions (basis s) in
      assert (Z.of_nat (rows mu_ext) =? n) "mu_ext.rows() == basis.numBasisFunctions()" ;;
      update (fun s => with_knotaverages s
                (set_block (knotaverages s) i 0 1 (Z.to_nat n) (transpose mu_ext))) ;;
      fill_knotaverages knotAverages knotOnes nv rest
  end.

(** bspline.cpp:260 *)
Definition computeKnotAverages : M unit :=
  s <- this_object ;;
  let nv := Z.to_nat (numVariables s) in
  knotAverages <- lift (omap (knot_averages_of (basis s)) (seq 0 nv)) ;;
  knotOnes <- lift (omap (fun i => (m <- vector_at knotAverages i ;;
                                    Return (ones (rows m)))%outcome)
                         (seq 0 nv)) ;;
  update (fun s => with_knotaverages s
            (resized nv (Z.to_nat (numBasisFunctions (basis s))))) ;;
  fill_knotaverages knotAverages knotOnes nv (seq 0 nv) ;;
  s <- this_object ;;
  assert ((Z.of_nat (rows (knotaverages s)) =? numVariables s)
          && (Z.of_nat (cols (knotaverages s)) =? numBasisFunctions (basis s)))
         "knotaverages.rows() == numVariables && knotaverages.cols() == basis.numBasisFunctions()" ;;
  ret tt.

(** *** Fitting control points to samples *)

(** What the surface reads from a [DataTable]: the completeness flag,
    the two counts, the grid coordinates per variable, and the samples
    in iteration order. *)
Record DataTable : Type := mkDataTable {
  isGridComplete : bool;
  getNumVariables : Z;
  getNumSamples : Z;
  getTableX : list (list double);
  samples_of : list (list double * double)
}.

(** bspline.cpp:366 *)
Definition computeBasisFunctionMatrix (s : BSpline) (samples : DataTable)
  : outcome Matrix :=
  let numVariables := Z.to_nat (getNumVariables samples) in
  let numSamples := Z.to_nat (getNumSamples samples) in
  (basisRows <- omap (fun sample =>
                        xi <- omap (vector_at (fst sample)) (seq 0 numVariables) ;;
                        Return (basis_eval (basis s) (vector_of_list xi)))
                     (samples_of samples) ;;
   Return (mkMatrix numSamples (Z.to_nat (numBasisFunctions (basis s)))
             (fun i k => match nth_error basisRows i with
                         | Some basisValues => vec basisValues k
                         | None => d0
                         end)))%outcome.

(** bspline.cpp:397 *)
Definition controlPointEquationRHS (samples : DataTable) : Matrix * Matrix :=
  let numVariables := Z.to_nat (getNumVariables samples) in
  let numSamples := Z.to_nat (getNumSamples samples) in
  (mkMatrix numSamples numVariables
     (fun i j => match nth_error (samples_of samples) i with
                 | Some sample => nth j (fst sample) d0
                 | None => d0
                 end),
   mkMatrix numSamples 1
     (fun i _ => match nth_error (samples_of samples) i with
                 | Some sample => snd sample
                 | None => d0
                 end)).

Definition solve_error : cxx_error :=
  Exception "BSpline::computeControlPoints: Failed to solve for B-spline coefficients.".

(** [s.solve(A,Bx,Cx) && s.solve(A,By,Cy)]: the second solve runs only
    when the first succeeded. *)
Definition solve_both (solve : Matrix -> Matrix -> bool * Matrix)
    (A Bx By Cx Cy : Matrix) : bool * Matrix * Matrix :=
  let '(okx, Cx') := solve A Bx in
  if okx then
    let '(oky, Cy') := solve A By in (oky, Cx', Cy')
  else (false, Cx', Cy).

(** bspline.cpp:330, from the assembled system on. *)
Definition solveControlPoints (A Bx By : Matrix) : M unit :=
  let Cx := resized 0 0 in
  let Cy := resized 0 0 in
  let numEquations := to_int (Z.of_nat (rows A)) in
  let maxNumEquations := 2 ^ 10 in
  let solveAsDense := numEquations <? maxNumEquations in
  r <- (if negb solveAsDense then
          emit (Cout "Computing B-spline control points using sparse solver.") ;;
          let '(successfulSolve, Cx, Cy) := solve_both SparseLU_solve A Bx By Cx Cy in
          ret (negb successfulSolve, Cx, Cy)
        else ret (solveAsDense, Cx, Cy)) ;;
  let '(solveAsDense, Cx, Cy) := r in
  r <- (if solveAsDense then
          emit (Cout "Computing B-spline control points using dense solver.") ;;
          let Ad := A in
          let '(successfulSolve, Cx, Cy) := solve_both DenseQR_solve Ad Bx By Cx Cy in
          if negb successfulSolve then throw solve_error
          else ret (Cx, Cy)
        else ret (Cx, Cy)) ;;
  let '(Cx, Cy) := r in
  update (fun s => with_coefficients s (transpose Cy)) ;;
  update (fun s => with_knotaverages s (transpose Cx)).

(** bspline.cpp:314 *)
Definition computeControlPoints (samples : DataTable) : M unit :=
  s <- this_object ;;
  A <- lift (computeBasisFunctionMatrix s samples) ;;
  let '(Bx, By) := controlPointEquationRHS samples in
  solveControlPoints A Bx By.

(** bspline.cpp:81 *)
Definition init : M unit :=
  let initialKnotRefinement := false in
  if initialKnotRefinement then
    _ <- refineKnotVectors ;;
    _ <- checkControlPoints ;;
    ret tt
  else ret tt.

(** bspline.cpp:700 *)
Definition loadBasis (knotVectors : list (list double)) (basisDegrees : list Z)
  : M unit :=
  s <- this_object ;;
  assert (rows (coefficients s) =? 1)%nat "coefficients.rows() == 1" ;;
  b <- lift (BSplineBasis_explicit knotVectors basisDegrees) ;;
  update (fun s => with_basis s b) ;;
  computeKnotAverages ;;
  init ;;
  _ <- checkControlPoints ;;
  ret tt.

(** A freshly allocated object, before a constructor body runs. *)
Definition blank : BSpline :=
  mkBSpline BSplineBasis_default (resized 0 0) (resized 0 0) 0.

Definition construct (body : M unit) : outcome unit * World :=
  body (mkWorld blank []).

(** bspline.cpp:25 *)
Definition BSpline_explicit (coefficients : Matrix)
    (knotVectors : list (list double)) (basisDegrees : list Z) : M unit :=
  update (fun s => with_coefficients s coefficients) ;;
  update (fun s => with_numVariables s (to_uint (size knotVectors))) ;;
  loadBasis knotVectors basisDegrees.

Inductive BSplineType : Type :=
| LINEAR | QUADRATIC_FREE | CUBIC_FREE | other_type.

(** bspline.cpp:33 *)
Definition BSpline_samples (samples : DataTable) (type : BSplineType) : M unit :=
  if negb (isGridComplete samples) then
    throw (Exception "BSpline::BSpline: Cannot create B-spline from irregular (incomplete) grid.")
  else
    update (fun s => with_numVariables s (to_uint (getNumVariables samples))) ;;
    let xdata := getTableX samples in
    let n := Z.to_nat (getNumVariables samples) in
    let basisDegrees :=
      match type with
      | LINEAR => repeat 1 n
      | QUADRATIC_FREE => repeat 2 n
      | CUBIC_FREE => repeat 3 n
      | other_type => repeat 3 n
      end in
    b <- lift (BSplineBasis_free xdata basisDegrees) ;;
    update (fun s => with_basis s b) ;;
    computeControlPoints samples ;;
    init ;;
    _ <- checkControlPoints ;;
    ret tt.

(** *** Persistence *)

(** bspline.cpp:518.  The file is the list of its lines.  The stream
    precision is set when a knot value is written and stays set, so
    the coefficients are written at the default precision 6 only when
    no knot value came before them. *)
Definition MS_SAVE_DOUBLE_PRECISION : nat := 17.

Definition save_basis_lines (s : BSpline) (knotVectors : list (list double))
    (i : nat) : outcome (list string) :=
  (kv <- vector_at knotVectors i ;;
   kv' <- vector_at knotVectors i ;;
   Return [ (show_Z (getBasisDegree (basis s) i) ++ " " ++ show_Z (size kv))%string;
            String.concat ""
              (map (fun k => (show_double MS_SAVE_DOUBLE_PRECISION k ++ " ")%string) kv') ]
  )%outcome.

Definition save (s : BSpline) : outcome (list string) :=
  let knotVectors := getKnotVectors (basis s) in
  let nv := Z.to_nat (numVariables s) in
  (basisLines <- omap (save_basis_lines s knotVectors) (seq 0 nv) ;;
   let precision :=
     if existsb (fun kv => negb (length kv =? 0)%nat) (firstn nv knotVectors)
     then MS_SAVE_DOUBLE_PRECISION else 6%nat in
   let numRows := rows (coefficients s) in
   let numCols := cols (coefficients s) in
   Return
     ([ "# Saved BSpline"%string;
        ("# Number of bases: " ++ show_Z (numVariables s))%string;
        show_Z (numVariables s) ]
      ++ List.concat basisLines
      ++ [ "# Coefficient matrix:"%string;
           (show_Z (Z.of_nat numRows) ++ " " ++ show_Z (Z.of_nat numCols))%string ]
      ++ map (fun i =>
                String.concat ""
                  (map (fun j => (show_double precision (coeff (coefficients s) i j) ++ " ")%string)
                       (seq 0 numCols)))
             (seq 0 numRows)))%outcome.

(** The locals of [load], bspline.cpp:602-605. *)
Record load_locals : Type := mkLocals {
  basisDegrees : list Z;
  knotVectors : list (list double);
  cRows : Z;
  cCols : Z;
  cRowIdx : Z;
  basisNum : Z;
  knotVecLength : Z;
  state : Z
}.

Definition load_start : load_locals := mkLocals [] [] 0 0 0 0 0 0.

(** bspline.cpp:642, the loop that reads a knot vector from a line. *)
Fixpoint read_knots (n : nat) (str : string) : outcome (list double) :=
  match n with
  | O => Return []
  | S n' =>
      (r <- checked_strtod str ;;
       let '(v, nextStr) := r in
       vs <- read_knots n' nextStr ;;
       Return (v :: vs))%outcome
  end.

(** [coefficients(i, j) = v], bspline.cpp:674.  The C++ text writes no
    check of the index, and none is modelled. *)
Definition write_coefficient (i : Z) (j : nat) (v : double) : M unit :=
  update (fun s => with_coefficients s (set_coeff (coefficients s) (Z.to_nat i) j v)).

(** bspline.cpp:672, the loop that reads one row of the matrix. *)
Fixpoint read_row (row : Z) (i n : nat) (str : string) : M unit :=
  match n with
  | O => ret tt
  | S n' =>
      r <- lift (checked_strtod str) ;;
      let '(v, nextStr) := r in
      write_coefficient row i v ;;
      read_row row (S i) n' nextStr
  end.

(** bspline.cpp:606, one turn of the [while] loop on a line just read;
    the flag tells that the loop was left by [break]. *)
Definition load_line (l : load_locals) (line : string) : M (load_locals * bool) :=
  c <- lift (string_at line 0) ;;
  if Ascii.eqb c "#" then ret (l, false)
  else if state l =? 0 then
    r <- lift (checked_strtol line) ;;
    update (fun s => with_numVariables s (to_uint (fst r))) ;;
    ret (mkLocals (basisDegrees l) (knotVectors l) (cRows l) (cCols l) (cRowIdx l)
           (basisNum l) (knotVecLength l) 1, false)
  else if state l =? 1 then
    r <- lift (checked_strtol line) ;;
    let '(curDegree, nextStr) := r in
    assert (curDegree >? 0) "curDegree > 0" ;;
    r <- lift (checked_strtol nextStr) ;;
    ret (mkLocals (basisDegrees l ++ [to_uint curDegree]) (knotVectors l) (cRows l)
           (cCols l) (cRowIdx l) (basisNum l) (fst r) 2, false)
  else if state l =? 2 then
    kv <- lift (read_knots (Z.to_nat (knotVecLength l)) line) ;;
    s <- this_object ;;
    let basisNum' := basisNum l + 1 in
    ret (mkLocals (basisDegrees l) (knotVectors l ++ [kv]) (cRows l) (cCols l)
           (cRowIdx l) basisNum' (knotVecLength l)
           (if to_uint basisNum' >=? numVariables s then 3 else 1), false)
  else if state l =? 3 then
    r <- lift (checked_strtol line) ;;
    let '(cRows', nextStr) := r in
    r <- lift (checked_strtol nextStr) ;;
    let cCols' := fst r in
    update (fun s => with_coefficients s (resized (Z.to_nat cRows') (Z.to_nat cCols'))) ;;
    ret (mkLocals (basisDegrees l) (knotVectors l) cRows' cCols' (cRowIdx l)
           (basisNum l) (knotVecLength l) 4, false)
  else if state l =? 4 then
    read_row (cRowIdx l) 0 (Z.to_nat (cCols l)) line ;;
    let cRowIdx' := cRowIdx l + 1 in
    ret (mkLocals (basisDegrees l) (knotVectors l) (cRows l) (cCols l) cRowIdx'
           (basisNum l) (knotVecLength l) (state l), cRowIdx' >? cRows l)
  else ret (l, false).

(** bspline.cpp:606, the [while (std::getline(inFile, line))] loop. *)
Fixpoint load_lines (l : load_locals) (file : list string) : M load_locals :=
  match file with
  | [] => ret l
  | line :: rest =>
      r <- load_line l line ;;
      let '(l', broke) := r in
      if broke then ret l' else load_lines l' rest
  end.

(** bspline.cpp:581 *)
Definition load (file : list string) : M unit :=
  l <- load_lines load_start file ;;
  loadBasis (knotVectors l) (basisDegrees l).


End Surface.

(** * The terms of the statements *)

Section Statements.
Context `{BasisLayer} {DT : DoubleText} {LS : LinearSolvers}.

(** Coordinate [i] of [x] is outside the interval of dimension [i]. *)
Definition outside_support (b : BSplineBasis) (x : Matrix) : Prop :=
  exists i l u,
    nth_error (getSupportLowerBound b) i = Some l /\
    nth_error (getSupportUpperBound b) i = Some u /\
    dle l (vec x i) && dle (vec x i) u = false.

(** What [checkControlPoints] asserts. *)
Definition control_points_ok (s : BSpline) : Prop :=
  rows (coefficients s) = 1%nat /\
  Z.of_nat (rows (knotaverages s)) = numVariables s /\
  cols (coefficients s) = cols (knotaverages s).

(** The last thing the run did to the log was to enter
    [checkControlPoints]. *)
Definition ends_with_check (w : World) : Prop :=
  exists t, trace w = t ++ [Called_checkControlPoints].

(** [m] keeps [P] whatever way it ends. *)
Definition keeps {A} (P : World -> Prop) (m : M A) : Prop :=
  forall w, P w -> P (snd (m w)).

(** Sound state and an untouched log. *)
Definition sound_at (t : list event) (w : World) : Prop :=
  control_points_ok (self w) /\ trace w = t.

Definition sparse_message : event :=
  Cout "Computing B-spline control points using sparse solver.".

Definition dense_message : event :=
  Cout "Computing B-spline control points using dense solver.".

(** Both right-hand sides are solved. *)
Definition solves (solve : Matrix -> Matrix -> bool * Matrix) (A Bx By : Matrix) : bool :=
  fst (solve A Bx) && fst (solve A By).

(** The world after a fit by [solve] that wrote [evs] to the log. *)
Definition fitted (w : World) (solve : Matrix -> Matrix -> bool * Matrix)
    (A Bx By : Matrix) (evs : list event) : World :=
  mkWorld (mkBSpline (basis (self w)) (transpose (snd (solve A By)))
             (transpose (snd (solve A Bx))) (numVariables (self w)))
          (trace w ++ evs).

Definition regularize_error : cxx_error :=
  Exception "BSpline::reduceDomain: Failed to regularize knot vectors!".

Definition remove_error : cxx_error :=
  Exception "BSpline::reduceDomain: Failed to remove unsupported basis functions!".

Definition refine_error : cxx_error :=
  Exception "BSpline::reduceDomain: Failed to refine knot vectors!".

(** The bounds that [reduceDomain] computes before it touches the
    object. *)
Definition reduced_bounds (s : BSpline) (lb ub : list double)
  : outcome (list double * list double * bool) :=
  reduceDomain_loop lb ub
    (getSupportLowerBound (basis s), getSupportUpperBound (basis s), false)
    (seq 0 (Z.to_nat (numVariables s))).

(** The world in which support reduction starts. *)
Definition after_regularize (doRegularize : bool) (sl su : list double) (w : World)
  : World :=
  if doRegularize then snd (regularizeKnotVectors sl su w) else w.

Definition regularize_passed (doRegularize : bool) (sl su : list double) (w : World)
  : Prop :=
  doRegularize = true -> fst (regularizeKnotVectors sl su w) = Return true.

(** The laws of exact arithmetic that the argument uses. *)
Record exact_arithmetic : Prop := {
  add_0_l : forall a, dadd d0 a = a;
  add_comm : forall a b, dadd a b = dadd b a;
  add_assoc : forall a b c, dadd a (dadd b c) = dadd (dadd a b) c;
  mul_0_l : forall a, dmul d0 a = d0;
  mul_0_r : forall a, dmul a d0 = d0;
  mul_assoc : forall a b c, dmul a (dmul b c) = dmul (dmul a b) c;
  distr_l : forall a b c, dmul a (dadd b c) = dadd (dmul a b) (dmul a c);
  distr_r : forall a b c, dmul (dadd a b) c = dadd (dmul a c) (dmul b c)
}.

(** Modelled from the spec: the Knot-Insertion Matrix maps control
    points on a knot vector to control points on the refined knot vector
    that represent the identical function (spec 3 and glossary).  On the
    basis functions this reads: at [x], the old basis function [j] is
    the combination of the new ones with the weights of column [j]. *)
Definition refines_at (A : Matrix) (b b' : BSplineBasis) (x : Matrix) : Prop :=
  forall j, (j < cols A)%nat ->
    vec (basis_eval b x) j
    = dsum (rows A) (fun k => dmul (coeff A k j) (vec (basis_eval b' x) k)).

(** The mean that line 276 computes for position [d]: the [degree]
    knots at indices [d+1 .. d+degree], added up from zero, over the
    degree. *)
Definition knot_mean (knots : list double) (degree : Z) (d : nat) : double :=
  ddiv (fold_left dadd (firstn (Z.to_nat degree) (skipn (S d) knots)) d0)
       (double_of_Z degree).

Definition count_in (b : BSplineBasis) (i : nat) : nat :=
  Z.to_nat (numBasisFunctionsIn b i).

(** The product of the per-dimension counts of dimensions [lo .. hi-1]. *)
Fixpoint counts_product (b : BSplineBasis) (lo hi : nat) : nat :=
  match hi with
  | O => 1
  | S h => if (lo <=? h)%nat then counts_product b lo h * count_in b h else 1
  end%nat.

(** Digit [i] of column [j] in the mixed radix of the per-dimension
    counts, the last dimension running fastest. *)
Definition mixed_radix_digit (b : BSplineBasis) (nv i j : nat) : nat :=
  ((j / counts_product b (S i) nv) mod count_in b i)%nat.

(** Every dimension has the knots that its basis functions reach. *)
Definition knots_cover (b : BSplineBasis) (nv : nat) : Prop :=
  forall i, (i < nv)%nat ->
    0 <= getBasisDegree b i
    /\ (count_in b i + Z.to_nat (getBasisDegree b i) <= length (getKnotVector b i))%nat
    /\ size (getKnotVector b i) <= UINT_MAX.

(** The vector [mu] of dimension [i], and the lists that the first
    two loops of [computeKnotAverages] build. *)
Definition mu_vector (b : BSplineBasis) (i : nat) : Matrix :=
  vector_of_list (map (knot_mean (getKnotVector b i) (getBasisDegree b i))
                      (seq 0 (count_in b i))).

Definition mu_vectors (b : BSplineBasis) (nv : nat) : list Matrix :=
  map (mu_vector b) (seq 0 nv).

Definition one_vectors (b : BSplineBasis) (nv : nat) : list Matrix :=
  map (fun i => ones (rows (mu_vector b i))) (seq 0 nv).

(** The column vector [mu_ext] of row [i]. *)
Definition mu_ext_matrix (b : BSplineBasis) (nv i : nat) : Matrix :=
  match mu_ext_of (mu_vectors b nv) (one_vectors b nv) nv i with
  | Return T => T
  | Throw _ => one_by_one
  end.

(** A line that is neither empty nor a comment. *)
Definition significant (line : string) : Prop :=
  exists c rest, line = String c rest /\ c <> "#"%char.

(** The loop has taken the lines [pre] without exception and without
    [break]. *)
Inductive reaches (l0 : load_locals) (w0 : World)
  : list string -> load_locals -> World -> Prop :=
| reaches_nil : reaches l0 w0 [] l0 w0
| reaches_snoc pre line l w l' w' :
    reaches l0 w0 pre l w ->
    load_line l line w = (Return (l', false), w') ->
    reaches l0 w0 (pre ++ [line]) l' w'.

(** The matrix after the values [vs] were written to row [row] from
    column [i] on. *)
Fixpoint row_written (C : Matrix) (row i : nat) (vs : list double) : Matrix :=
  match vs with
  | [] => C
  | v :: vs' => row_written (set_coeff C row i v) row (S i) vs'
  end.

(** ** The decoder as the claim words it: the numbers of a line are
    read, then stored *)

(** The numbers of one line, by the state in which the line is read. *)
Inductive line_numbers : Type :=
| count_line (variables : Z)
| degree_line (degree length : Z)
| knot_line (knots : list double)
| size_line (matrix_rows matrix_cols : Z)
| row_line (values : list double)
| no_numbers.

(** [n] doubles, each read where the one before it ended: the values
    read, and the error of the first read that failed. *)
Fixpoint read_doubles (n : nat) (str : string) : list double * option cxx_error :=
  match n with
  | O => ([], None)
  | S n' =>
      match checked_strtod str with
      | Throw e => ([], Some e)
      | Return (v, nextStr) =>
          let '(vs, failure) := read_doubles n' nextStr in
          (v :: vs, failure)
      end
  end.

(** The reading of a line: in state 0 one integer; in state 1 the
    degree, which is to be positive, and the length of the knot vector;
    in state 2 as many doubles as that length; in state 3 the two sizes
    of the matrix; in state 4 as many doubles as the matrix has columns.
    The numbers of a row are kept up to the failure, those of any other
    line are not. *)
Definition read_line (l : load_locals) (line : string)
  : line_numbers * option cxx_error :=
  if state l =? 0 then
    match checked_strtol line with
    | Return (n, _) => (count_line n, None)
    | Throw e => (no_numbers, Some e)
    end
  else if state l =? 1 then
    match checked_strtol line with
    | Return (degree, nextStr) =>
        if degree >? 0 then
          match checked_strtol nextStr with
          | Return (len, _) => (degree_line degree len, None)
          | Throw e => (no_numbers, Some e)
          end
        else (no_numbers, Some (assert_failed "curDegree > 0"))
    | Throw e => (no_numbers, Some e)
    end
  else if state l =? 2 then
    match read_doubles (Z.to_nat (knotVecLength l)) line with
    | (knots, None) => (knot_line knots, None)
    | (_, Some e) => (no_numbers, Some e)
    end
  else if state l =? 3 then
    match checked_strtol line with
    | Return (r, nextStr) =>
        match checked_strtol nextStr with
        | Return (c, _) => (size_line r c, None)
        | Throw e => (no_numbers, Some e)
        end
    | Throw e => (no_numbers, Some e)
    end
  else if state l =? 4 then
    let '(values, failure) := read_doubles (Z.to_nat (cCols l)) line in
    (row_line values, failure)
  else (no_numbers, None).

(** What the numbers of a line leave in the locals, with the flag of the
    [break], and in the object. *)
Definition store_line (l : load_locals) (ns : line_numbers) (w : World)
  : (load_locals * bool) * World :=
  match ns with
  | count_line n =>
      ((mkLocals (basisDegrees l) (knotVectors l) (cRows l) (cCols l) (cRowIdx l)
          (basisNum l) (knotVecLength l) 1, false),
       mkWorld (with_numVariables (self w) (to_uint n)) (trace w))
  | degree_line degree len =>
      ((mkLocals (basisDegrees l ++ [to_uint degree]) (knotVectors l) (cRows l)
          (cCols l) (cRowIdx l) (basisNum l) len 2, false), w)
  | knot_line knots =>
      ((mkLocals (basisDegrees l) (knotVectors l ++ [knots]) (cRows l) (cCols l)
          (cRowIdx l) (basisNum l + 1) (knotVecLength l)
          (if to_uint (basisNum l + 1) >=? numVariables (self w) then 3 else 1),
        false), w)
  | size_line r c =>
      ((mkLocals (basisDegrees l) (knotVectors l) r c (cRowIdx l) (basisNum l)
          (knotVecLength l) 4, false),
       mkWorld (with_coefficients (self w) (resized (Z.to_nat r) (Z.to_nat c)))
         (trace w))
  | row_line values =>
      ((mkLocals (basisDegrees l) (knotVectors l) (cRows l) (cCols l)
          (cRowIdx l + 1) (basisNum l) (knotVecLength l) (state l),
        cRowIdx l + 1 >? cRows l),
       mkWorld (with_coefficients (self w)
                  (row_written (coefficients (self w)) (Z.to_nat (cRowIdx l)) 0 values))
         (trace w))
  | no_numbers => ((l, false), w)
  end.

Definition decode_line (l : load_locals) (line : string) (w : World)
  : outcome (load_locals * bool) * World :=
  let '(ns, failure) := read_line l line in
  let '(next, w') := store_line l ns w in
  match failure with
  | None => (Return next, w')
  | Some e => (Throw e, w')
  end.

End Statements.

(** * A reference basis layer over exact rationals

    The statements below are applied to concrete surfaces.  For these the
    scalars are the rationals in lowest terms, on which the arithmetic of
    the scenarios is exact, and the basis layer is written out from the
    spec. *)

Module Reference.

Definition Qc_double : Double := {|
  double := Qc;
  d0 := Q2Qc 0;
  d1 := Q2Qc 1;
  dadd := Qcplus;
  dmul := Qcmult;
  ddiv := Qcdiv;
  dle := fun a b => Qle_bool a b;
  dlt := fun a b => negb (Qle_bool b a);
  double_of_Z := fun z => Q2Qc (inject_Z z)
|}.
#[export] Existing Instance Qc_double.

Definition q (z : Z) : Qc := Q2Qc (inject_Z z).

(** Modelled from the spec: a Univariate Basis is a (knot vector,
    degree) pair and a Tensor Basis the sequence of them, one per
    variable (spec 3); class [BSplineBasis] itself is not among the
    sources. *)
Definition basis1 : Type := (list Qc * nat)%type.
Definition tensor_basis : Type := list basis1.

Definition knot (t : list Qc) (i : nat) : Qc := nth i t (q 0).
Definition qeqb (a b : Qc) : bool := Qeq_bool a b.
Definition qleb (a b : Qc) : bool := Qle_bool a b.
Definition qltb (a b : Qc) : bool := negb (Qle_bool b a).

(** Modelled from the spec: knot-ratio weights with 0/0 defined as 0, so
    that a knot span of zero length yields a zero contribution (spec
    4.1). *)
Definition ratio (num den : Qc) : Qc :=
  if qeqb den (q 0) then q 0 else Qcdiv num den.

Definition lowerBound (b : basis1) : Qc := hd (q 0) (fst b).
Definition upperBound (b : basis1) : Qc := last (fst b) (q 0).

(** Modelled from the spec: degree-0 basis functions are indicator
    functions of half-open knot intervals, closed at the left and open
    at the right, except the last interval, closed at both ends; a
    higher degree blends two lower-degree neighbours with knot-ratio
    weights (spec 4.1). *)
Fixpoint cox_de_boor (t : list Qc) (x : Qc) (p j : nat) : Qc :=
  match p with
  | O =>
      if (qleb (knot t j) x && qltb x (knot t (S j)))
         || (qeqb x (last t (q 0)) && qltb (knot t j) x && qeqb (knot t (S j)) x)
      then q 1 else q 0
  | S p' =>
      Qcplus
        (Qcmult (ratio (Qcminus x (knot t j))
                       (Qcminus (knot t (j + p)) (knot t j)))
                (cox_de_boor t x p' j))
        (Qcmult (ratio (Qcminus (knot t (j + p + 1)) x)
                       (Qcminus (knot t (j + p + 1)) (knot t (S j))))
                (cox_de_boor t x p' (S j)))
  end.

(** Modelled from the spec: number of basis functions
    = len(knots) - degree - 1 (spec 3). *)
Definition count1 (b : basis1) : nat := (length (fst b) - snd b - 1)%nat.

Definition eval1 (b : basis1) (x : Qc) : Matrix :=
  vector_of_list (map (cox_de_boor (fst b) x (snd b)) (seq 0 (count1 b))).

(** Modelled from the spec: the tensor basis value at a point is the
    tensor product of each dimension's basis-value vector (spec 4.3);
    the last dimension varies fastest. *)
Fixpoint eval_from (i : nat) (b : tensor_basis) (x : Matrix) (acc : Matrix) : Matrix :=
  match b with
  | [] => acc
  | b1 :: rest => eval_from (S i) rest x (kroneckerProduct acc (eval1 b1 (vec x i)))
  end.

Definition one : Matrix := mkMatrix 1 1 (fun _ _ => q 1).

(** Modelled from the spec: knot multiplicity is the number of times a
    value repeats in a knot vector (glossary). *)
Definition multiplicity (t : list Qc) (tau : Qc) : nat :=
  length (filter (qeqb tau) t).

(** The span index [k] with [t_k <= tau < t_(k+1)]. *)
Definition find_span (t : list Qc) (tau : Qc) : option nat :=
  find (fun k => qleb (knot t k) tau && qltb tau (knot t (S k)))
       (seq 0 (length t - 1)).

(** Modelled from the spec: the Boehm insertion of one knot.  Row [i] of
    the matrix gives new control point [i] as
    [alpha_i * P_i + (1 - alpha_i) * P_(i-1)]. *)
Definition boehm_matrix (t : list Qc) (p : nat) (tau : Qc) (k : nat) : Matrix :=
  let n := (length t - p - 1)%nat in
  mkMatrix (S n) n
    (fun i j =>
       let alpha :=
         if (i + p <=? k)%nat then q 1
         else if (k <? i)%nat then q 0
         else ratio (Qcminus tau (knot t i)) (Qcminus (knot t (i + p)) (knot t i)) in
       if (j =? i)%nat then alpha
       else if (S j =? i)%nat then Qcminus (q 1) alpha
       else q 0).

Definition insert_after (t : list Qc) (k : nat) (tau : Qc) : list Qc :=
  firstn (S k) t ++ tau :: skipn (S k) t.

(** [m] insertions of [tau], one at a time, with the product of their
    matrices. *)
Fixpoint insert_many (m : nat) (t : list Qc) (p : nat) (tau : Qc) (A : Matrix)
  : option (Matrix * list Qc) :=
  match m with
  | O => Some (A, t)
  | S m' =>
      match find_span t tau with
      | Some k =>
          insert_many m' (insert_after t k tau) p tau
                      (mat_mul (boehm_matrix t p tau k) A)
      | None => None
      end
  end.

Definition product_of (counts : list nat) : nat := fold_left Nat.mul counts 1%nat.

(** Modelled from the spec: a per-dimension matrix extends to the full
    tensor space by tensoring it with identities on the untouched
    dimensions (spec 4.3). *)
Definition extend (b : tensor_basis) (dim : nat) (A : Matrix) : Matrix :=
  kroneckerProduct
    (kroneckerProduct (identity (product_of (map count1 (firstn dim b)))) A)
    (identity (product_of (map count1 (skipn (S dim) b)))).

Fixpoint replace_at {A} (l : list A) (i : nat) (a : A) : list A :=
  match l, i with
  | [], _ => []
  | _ :: l', O => a :: l'
  | x :: l', S i' => x :: replace_at l' i' a
  end.

Definition no_matrix : Matrix := mkMatrix 0 0 (fun _ _ => q 0).

(** Modelled from the spec: insertion is rejected, by a failure result,
    if the resulting multiplicity would exceed degree+1; on success the
    stored knot vector includes the new knots in sorted position (spec
    4.2).  A value outside the support is rejected as well. *)
Definition insert_knots (b : tensor_basis) (tau : Qc) (dim : nat) (m : Z)
  : bool * Matrix * tensor_basis :=
  match nth_error b dim with
  | None => (false, no_matrix, b)
  | Some (t, p) =>
      if negb (qleb (lowerBound (t, p)) tau && qleb tau (upperBound (t, p)))
         || (Z.of_nat (multiplicity t tau) + m >? Z.of_nat p + 1)
      then (false, no_matrix, b)
      else
        match insert_many (Z.to_nat m) t p tau (identity (count1 (t, p))) with
        | Some (A, t') => (true, extend b dim A, replace_at b dim (t', p))
        | None => (false, no_matrix, b)
        end
  end.

(** Modelled from the spec: support reduction keeps the basis functions
    whose support intersects [lb, ub] and fails if none is left or if
    [ub <= lb] (spec 4.2).  A support that only touches the interval at
    an end point is taken not to intersect it.  The functions kept are
    consecutive; the matrix selects their control points. *)
Definition kept (b : basis1) (lb ub : Qc) (j : nat) : bool :=
  qltb (knot (fst b) j) ub && qltb lb (knot (fst b) (j + snd b + 1)).

Definition reduce1 (b : basis1) (lb ub : Qc) : option (Matrix * basis1) :=
  let js := filter (kept b lb ub) (seq 0 (count1 b)) in
  match js with
  | [] => None
  | first :: _ =>
      if qleb ub lb then None
      else
        let n' := length js in
        Some (mkMatrix (count1 b) n'
                (fun i j => if (i =? first + j)%nat then q 1 else q 0),
              (firstn (n' + snd b + 1) (skipn first (fst b)), snd b))
  end.

Fixpoint reduce_from (b : tensor_basis) (lb ub : list Qc) (A : Matrix)
  : option (Matrix * tensor_basis) :=
  match b, lb, ub with
  | [], _, _ => Some (A, [])
  | b1 :: rest, l :: lb', u :: ub' =>
      match reduce1 b1 l u with
      | Some (A1, b1') =>
          match reduce_from rest lb' ub' (kroneckerProduct A A1) with
          | Some (A', rest') => Some (A', b1' :: rest')
          | None => None
          end
      | None => None
      end
  | _, _, _ => None
  end.

Definition reduce_support (b : tensor_basis) (lb ub : list Qc)
  : bool * Matrix * tensor_basis :=
  match reduce_from b lb ub one with
  | Some (A, b') => (true, A, b')
  | None => (false, no_matrix, b)
  end.

(** The refinement step is not described closely enough to be written
    out: the reference layer has one that finds nothing to refine and
    one that reports failure. *)
Definition refine_knots (succeeds : bool) (b : tensor_basis)
  : bool * Matrix * tensor_basis :=
  if succeeds then (true, identity (product_of (map count1 b)), b)
  else (false, no_matrix, b).

Definition explicit_basis (knotVectors : list (list Qc)) (degrees : list Z)
  : outcome tensor_basis :=
  Return (combine knotVectors (map Z.to_nat degrees)).

Definition layer (refine_succeeds : bool) : BasisLayer := {|
  BSplineBasis := tensor_basis;
  BSplineBasis_default := [];
  BSplineBasis_explicit := explicit_basis;
  BSplineBasis_free := explicit_basis;
  getKnotVectors := map fst;
  getKnotVector := fun b i => fst (nth i b ([], 0%nat));
  getBasisDegree := fun b i => Z.of_nat (snd (nth i b ([], 0%nat)));
  getKnotMultiplicity := fun b i tau =>
    Z.of_nat (multiplicity (fst (nth i b ([], 0%nat))) tau);
  numBasisFunctionsIn := fun b i => Z.of_nat (count1 (nth i b ([], 0%nat)));
  numBasisFunctions := fun b => Z.of_nat (product_of (map count1 b));
  getSupportLowerBound := map lowerBound;
  getSupportUpperBound := map upperBound;
  basis_eval := fun b x => eval_from 0 b x one;
  basis_insertKnots := insert_knots;
  basis_refineKnots := refine_knots refine_succeeds;
  basis_reduceSupport := reduce_support
|}.

(** Solvers that succeed or fail as told and report the right-hand side
    as the solution, which it is for an identity system. *)
Definition solvers (sparse_succeeds dense_succeeds : bool) : LinearSolvers := {|
  SparseLU_solve := fun A B => (sparse_succeeds, B);
  DenseQR_solve := fun A B => (dense_succeeds, B)
|}.

(** Text conversion for integral values: they are read like integers
    and written without a fraction, as [operator<<] writes them. *)
Definition text : DoubleText := {|
  strtod := fun str =>
    let r := strtol str in
    mkConversion (q (conv_value r)) (conv_end r) (conv_erange r);
  show_double := fun _ v => show_Z (Qnum v)
|}.

End Reference.

(** * Concrete surfaces *)

Module Scenarios.
Import Reference.

#[local] Existing Instance text.
#[export] Instance basis_layer : BasisLayer := layer true.
#[export] Instance both_solvers : LinearSolvers := solvers true true.

Definition matrix_of_rows (r c : nat) (entries : list (list Z)) : Matrix :=
  mkMatrix r c (fun i j => q (nth j (nth i entries []) 0)).

Definition entries (m : Matrix) : list (list Q) :=
  map (fun i => map (fun j => this (coeff m i j)) (seq 0 (cols m))) (seq 0 (rows m)).

Definition point (x : Qc) : Matrix := vector_of_list [x].

(** The object that the constructor for explicit knot vectors builds,
    on a layer whose refinement succeeds or fails, with an empty log. *)
Definition surface_on (refine_succeeds : bool) (coefficients : Matrix)
    (knotVectors : list (list Qc)) (degrees : list Z)
  : @World _ (layer refine_succeeds) :=
  let w := snd (@construct _ (layer refine_succeeds)
                  (@BSpline_explicit _ (layer refine_succeeds)
                     coefficients knotVectors degrees)) in
  @mkWorld _ (layer refine_succeeds) (@self _ (layer refine_succeeds) w) [].

Definition knots_on (refine_succeeds : bool) (w : @World _ (layer refine_succeeds))
  : list (list Q) :=
  map (map this) (map fst (@basis _ (layer refine_succeeds)
                             (@self _ (layer refine_succeeds) w))).

Definition knots_of (w : World) : list (list Q) := knots_on true w.

(** A linear spline on the knots 0 0 2 4 6 6: four basis functions,
    coefficients 1 3 2 5. *)
Definition linear_knots : list Qc := map q [0; 0; 2; 4; 6; 6].
Definition linear_coefficients : Matrix := matrix_of_rows 1 4 [[1; 3; 2; 5]].
Definition linear_surface : World :=
  surface_on true linear_coefficients [linear_knots] [1].
Definition linear_surface_no_refine : @World _ (layer false) :=
  surface_on false linear_coefficients [linear_knots] [1].

(** A surface in two variables, linear in the first and quadratic in
    the second: 4 x 3 basis functions. *)
Definition quadratic_knots : list Qc := map q [0; 0; 0; 3; 3; 3].
Definition grid_surface : World :=
  surface_on true
    (matrix_of_rows 1 12 [[1; 2; 3; 4; 5; 6; 7; 8; 9; 10; 11; 12]])
    [linear_knots; quadratic_knots] [1; 2].

(** The linear surface after [setControlPoints] with five control
    points, one more than it has basis functions. *)
Definition five_columns : Matrix :=
  matrix_of_rows 2 5 [[0; 2; 4; 6; 8]; [1; 3; 2; 5; 4]].
Definition overfull_surface : World :=
  mkWorld (self (snd (setControlPoints five_columns linear_surface))) [].

(** The linear surface after [setControlPoints] with abscissae of the
    caller's own. *)
Definition custom_points : Matrix :=
  matrix_of_rows 2 4 [[1; 2; 3; 4]; [1; 3; 2; 5]].
Definition custom_surface : World :=
  mkWorld (self (snd (setControlPoints custom_points linear_surface))) [].


Definition linear_file : list string :=
  ["# Saved BSpline"; "# Number of bases: 1"; "1"; "1 6"; "0 0 2 4 6 6 ";
   "# Coefficient matrix:"; "1 4"; "1 3 2 5 "]%string.

(** A file whose variable count carries letters behind its digit. *)
Definition junk_file : list string :=
  ["1junk"; "1 4"; "0 0 2 2 "; "1 2"; "5 7 "]%string.

(** Four samples at the knots of the linear surface, where the basis
    function matrix is the identity; a sparse solver that succeeds and a
    dense one that fails. *)
Definition four_samples : DataTable :=
  mkDataTable true 1 4 [[q 0; q 2; q 4; q 6]]
    [([q 0], q 1); ([q 2], q 3); ([q 4], q 2); ([q 6], q 5)].
Definition dense_fails : LinearSolvers := solvers true false.
Definition unit_system : Matrix := matrix_of_rows 1 1 [[1]].

End Scenarios.

(** * Further member functions and the terms of their statements *)

(** The number that a digit sequence denotes on top of [acc], read from
    the most significant digit. *)
Fixpoint uint_value (d : Decimal.uint) (acc : Z) : Z :=
  match d with
  | Decimal.Nil => acc
  | Decimal.D0 l => uint_value l (10 * acc + 0)
  | Decimal.D1 l => uint_value l (10 * acc + 1)
  | Decimal.D2 l => uint_value l (10 * acc + 2)
  | Decimal.D3 l => uint_value l (10 * acc + 3)
  | Decimal.D4 l => uint_value l (10 * acc + 4)
  | Decimal.D5 l => uint_value l (10 * acc + 5)
  | Decimal.D6 l => uint_value l (10 * acc + 6)
  | Decimal.D7 l => uint_value l (10 * acc + 7)
  | Decimal.D8 l => uint_value l (10 * acc + 8)
  | Decimal.D9 l => uint_value l (10 * acc + 9)
  end.

(** The text does not go on with a digit. *)
Definition no_digit_ahead (rest : string) : Prop :=
  match rest with
  | String c _ => digit_value c = None
  | EmptyString => True
  end.

(** The text behind the digits of the leading number. *)
Definition after_number (str : string) : string :=
  advance (snd (read_digits (after_sign str) 0)) (after_sign str).

Section MoreStatements.
Context `{BasisLayer} {DT : DoubleText} {LS : LinearSolvers}.

(** At dimension [dim] the requested interval is proper and contains the
    support interval: none of the five tests of the loop body fires. *)
Definition covers_support (lb ub sl su : list double) (dim : nat) : Prop :=
  exists l u a b,
    nth_error lb dim = Some l /\ nth_error ub dim = Some u /\
    nth_error sl dim = Some a /\ nth_error su dim = Some b /\
    dle u l = false /\ dge l b = false /\ dle u a = false /\
    dgt b u = false /\ dgt l a = false.

(** At dimension [dim] one of the three emptiness tests of the loop body
    fires. *)
Definition empty_at (lb ub sl su : list double) (dim : nat) : Prop :=
  exists l u a b,
    nth_error lb dim = Some l /\ nth_error ub dim = Some u /\
    nth_error sl dim = Some a /\ nth_error su dim = Some b /\
    (dle u l = true \/ dge l b = true \/ dle u a = true).

(** At dimension [dim] the bounds [sl'] and [su'] are the support
    bounds clipped to the requested interval. *)
Definition clipped_at (lb ub sl su sl' su' : list double) (dim : nat) : Prop :=
  exists l u a b,
    nth_error lb dim = Some l /\ nth_error ub dim = Some u /\
    nth_error sl dim = Some a /\ nth_error su dim = Some b /\
    nth_error sl' dim = Some (if dgt l a then l else a) /\
    nth_error su' dim = Some (if dgt b u then u else b).

(** At dimension [dim] the requested interval cuts into the support. *)
Definition cuts_at (lb ub sl su : list double) (dim : nat) : Prop :=
  exists l u a b,
    nth_error lb dim = Some l /\ nth_error ub dim = Some u /\
    nth_error sl dim = Some a /\ nth_error su dim = Some b /\
    (dgt b u = true \/ dgt l a = true).

(** At dimension [dim] both bounds are knots of multiplicity
    [multiplicityTarget] already. *)
Definition regular_at (b : BSplineBasis) (lb ub : list double) (dim : nat) : Prop :=
  exists l u,
    nth_error lb dim = Some l /\ nth_error ub dim = Some u /\
    getKnotMultiplicity b dim l = uadd (getBasisDegree b dim) 1 /\
    getKnotMultiplicity b dim u = uadd (getBasisDegree b dim) 1.

(** Two matrices of one size with equal coefficients. *)
Definition same_matrix (A B : Matrix) : Prop :=
  rows A = rows B /\ cols A = cols B /\
  forall i j, (i < rows A)%nat -> (j < cols A)%nat -> coeff A i j = coeff B i j.

(** The object that [setControlPoints] leaves when its checks pass. *)
Definition control_points_set (controlPoints : Matrix) (w : World) : World :=
  let nv := Z.to_nat (numVariables (self w)) in
  let nc := cols controlPoints in
  mkWorld (mkBSpline (basis (self w)) (block controlPoints nv 0 1 nc)
             (block controlPoints 0 0 nv nc) (numVariables (self w)))
          (trace w ++ [Called_checkControlPoints]).

(** Everything but the knot averages is as in [w0]. *)
Definition frame_of (w0 w : World) : Prop :=
  basis (self w) = basis (self w0) /\
  coefficients (self w) = coefficients (self w0) /\
  numVariables (self w) = numVariables (self w0) /\
  trace w = trace w0.

(** A solver whose reported solution is one: [X] has the shape of a
    solution and [A * X] is [B], coefficient by coefficient. *)
Definition exact_solver (solve : Matrix -> Matrix -> bool * Matrix) : Prop :=
  forall A B X, solve A B = (true, X) ->
    rows X = cols A /\
    forall i j, (i < rows A)%nat -> (j < cols B)%nat ->
      coeff (mat_mul A X) i j = coeff B i j.

(** A value whose written form [strtod] reads back, at the head of a
    line or behind the blank that ends the value before it, and whose
    written form is not taken for a comment. *)
Definition reads_back (precision : nat) (v : double) : Prop :=
  (exists c tail, show_double precision v = String c tail /\ Ascii.eqb c "#" = false)
  /\ forall rest,
       strtod (show_double precision v ++ String " " rest)
       = mkConversion v (String.length (show_double precision v)) false
       /\ strtod (String " " (show_double precision v ++ String " " rest))
          = mkConversion v (S (String.length (show_double precision v))) false.

(** The line that [save] writes for a sequence of values. *)
Definition written (precision : nat) (vs : list double) : string :=
  fold_right String.append ""%string
    (map (fun v => (show_double precision v ++ " ")%string) vs).

(** Knot vector [i] of the surface. *)
Definition knots_at (s : BSpline) (i : nat) : list double :=
  nth i (getKnotVectors (basis s)) [].

(** The two lines that [save] writes for basis [i]. *)
Definition basis_lines (s : BSpline) (i : nat) : list string :=
  [ (show_Z (getBasisDegree (basis s) i) ++ " " ++ show_Z (size (knots_at s i)))%string;
    written MS_SAVE_DOUBLE_PRECISION (knots_at s i) ].

(** Row [i] of a matrix as a sequence. *)
Definition coefficient_row (C : Matrix) (i : nat) : list double :=
  map (coeff C i) (seq 0 (cols C)).

(** Everything up to the sizes of the coefficient matrix. *)
Definition saved_head (s : BSpline) : list string :=
  [ "# Saved BSpline"%string;
    ("# Number of bases: " ++ show_Z (numVariables s))%string;
    show_Z (numVariables s) ]
  ++ List.concat (map (basis_lines s) (seq 0 (Z.to_nat (numVariables s))))
  ++ [ "# Coefficient matrix:"%string;
       (show_Z 1 ++ " " ++ show_Z (Z.of_nat (cols (coefficients s))))%string ].

(** The line of the coefficients. *)
Definition saved_row (s : BSpline) : string :=
  written MS_SAVE_DOUBLE_PRECISION (coefficient_row (coefficients s) 0).

(** The file that [save] writes for a surface with one row of
    coefficients. *)
Definition saved_file (s : BSpline) : list string := saved_head s ++ [saved_row s].

(** A surface that [load] can take back from its file: counts that fit
    [int], degrees from 1 on, no empty knot vector, one row of at least one
    coefficient, and values that are read back as written. *)
Record saveable (s : BSpline) : Prop := {
  sv_count : 1 <= numVariables s <= INT_MAX;
  sv_knot_vectors :
    length (getKnotVectors (basis s)) = Z.to_nat (numVariables s);
  sv_degrees : forall i, (i < Z.to_nat (numVariables s))%nat ->
    1 <= getBasisDegree (basis s) i <= INT_MAX;
  sv_knots : forall kv, In kv (getKnotVectors (basis s)) ->
    kv <> [] /\ size kv <= INT_MAX /\ Forall (reads_back MS_SAVE_DOUBLE_PRECISION) kv;
  sv_rows : rows (coefficients s) = 1%nat;
  sv_cols : (1 <= cols (coefficients s))%nat
            /\ Z.of_nat (cols (coefficients s)) <= INT_MAX;
  sv_coefficients :
    Forall (reads_back MS_SAVE_DOUBLE_PRECISION) (coefficient_row (coefficients s) 0)
}.

(** The coefficient matrix that the decoder builds from the file. *)
Definition loaded_coefficients (s : BSpline) : Matrix :=
  row_written (resized 1 (cols (coefficients s))) 0 0
    (coefficient_row (coefficients s) 0).

(** The degrees that [save] writes, one for each variable. *)
Definition saved_degrees (s : BSpline) : list Z :=
  map (getBasisDegree (basis s)) (seq 0 (Z.to_nat (numVariables s))).

(** The decoder on the lines [file], as long as no line throws or
    breaks. *)
Fixpoint run_lines (l : load_locals) (w : World) (file : list string)
  : option (load_locals * World) :=
  match file with
  | [] => Some (l, w)
  | line :: rest =>
      match load_line l line w with
      | (Return (l', false), w') => run_lines l' w' rest
      | _ => None
      end
  end.

(** The control points and the log of [w'] are those of [w]. *)
Definition same_control_points (w w' : World) : Prop :=
  coefficients (self w') = coefficients (self w)
  /\ knotaverages (self w') = knotaverages (self w)
  /\ trace w' = trace w.

(** The two evaluators of [BSplineBasis] that the derivative functions
    call. *)
Class BasisDerivatives : Type := {
  evalBasisJacobianOld : BSplineBasis -> Matrix -> Matrix;
  evalBasisHessian : BSplineBasis -> Matrix -> Matrix
}.

Context {BD : BasisDerivatives}.


(** bspline.cpp:137 *)
Definition evalHessian (s : BSpline) (x : Matrix) : outcome Matrix :=
  if negb (pointInDomain s x) then
    Throw (Exception "BSpline::evalHessian: Evaluation at point outside domain.")
  else
    let identity := identity (Z.to_nat (numVariables s)) in
    let caug := kroneckerProduct identity (coefficients s) in
    let DB := evalBasisHessian (basis s) x in
    let H := mat_mul caug DB in
    Return H.

(** bspline.cpp:154, 159, 164 *)
Definition BSpline_getKnotVectors (s : BSpline) : list (list double) :=
  getKnotVectors (basis s).

Definition getDomainUpperBound (s : BSpline) : list double :=
  getSupportUpperBound (basis s).

Definition getDomainLowerBound (s : BSpline) : list double :=
  getSupportLowerBound (basis s).

(** The object of [w] with the coefficient matrix [C]. *)
Definition with_matrix (w : World) (C : Matrix) : World :=
  mkWorld (with_coefficients (self w) C) (trace w).


(** A computation that does not look at the coefficients: on the object
    with another matrix it ends the same way, with that matrix. *)
Definition ignores_matrix {A} (C : Matrix) (m : M A) : Prop :=
  forall w, m (with_matrix w C) = (fst (m w), with_matrix (snd (m w)) C).

End MoreStatements.

(** * Further concrete layers *)

Module MoreScenarios.
Import Reference Scenarios.

(** Whether [A] is a square matrix with ones on the diagonal and zeros
    elsewhere. *)
Definition is_identity (A : Matrix) : bool :=
  (rows A =? cols A)%nat
  && forallb (fun i =>
                forallb (fun j => qeqb (coeff A i j) (if (i =? j)%nat then q 1 else q 0))
                        (seq 0 (cols A)))
             (seq 0 (rows A)).

(** A solver that takes the systems whose matrix is the identity, and
    fails on every other. *)
Definition identity_solve (A B : Matrix) : bool * Matrix :=
  (is_identity A && (rows B =? rows A)%nat, B).

(** Both solvers of [computeControlPoints] taken as that one. *)
Definition identity_solvers : LinearSolvers :=
  {| SparseLU_solve := identity_solve; DenseQR_solve := identity_solve |}.

(** The knot vector of degree 1 on the sample abscissae: both ends
    doubled. *)
Definition clamp (t : list Qc) : list Qc := hd (q 0) t :: t ++ [last t (q 0)].

(** A basis for the constructor from samples.  How [BSplineBasis] places
    the knots for given abscissae is not among the sources; this one
    takes the abscissae themselves as the knots of degree 1, so that the
    collocation matrix of the samples is the identity. *)
Definition linear_free_basis (xdata : list (list Qc)) (degrees : list Z)
  : outcome tensor_basis :=
  Return (combine (map clamp xdata) (map Z.to_nat degrees)).

(** The reference layer with that basis for samples. *)
Definition fit_layer : BasisLayer := {|
  BSplineBasis := tensor_basis;
  BSplineBasis_default := [];
  BSplineBasis_explicit := explicit_basis;
  BSplineBasis_free := linear_free_basis;
  getKnotVectors := @getKnotVectors _ (layer true);
  getKnotVector := @getKnotVector _ (layer true);
  getBasisDegree := @getBasisDegree _ (layer true);
  getKnotMultiplicity := @getKnotMultiplicity _ (layer true);
  numBasisFunctionsIn := @numBasisFunctionsIn _ (layer true);
  numBasisFunctions := @numBasisFunctions _ (layer true);
  getSupportLowerBound := @getSupportLowerBound _ (layer true);
  getSupportUpperBound := @getSupportUpperBound _ (layer true);
  basis_eval := @basis_eval _ (layer true);
  basis_insertKnots := insert_knots;
  basis_refineKnots := refine_knots true;
  basis_reduceSupport := reduce_support
|}.

(** Modelled from the spec: the derivative variants follow the same
    recursion with the standard derivative formula, degree / (knot span)
    times the difference of lower-degree values; a knot span of zero
    length yields a zero contribution (spec 4.1).  [derivative r] is the
    derivative of order [r] of basis function [j] of degree [p]. *)
Fixpoint derivative (r : nat) (t : list Qc) (x : Qc) (p j : nat) : Qc :=
  match r with
  | O => cox_de_boor t x p j
  | S r' =>
      match p with
      | O => q 0
      | S p' =>
          Qcminus
            (Qcmult (ratio (q (Z.of_nat p)) (Qcminus (knot t (j + p)) (knot t j)))
                    (derivative r' t x p' j))
            (Qcmult (ratio (q (Z.of_nat p))
                           (Qcminus (knot t (j + p + 1)) (knot t (S j))))
                    (derivative r' t x p' (S j)))
      end
  end.

Definition eval1_derivative (r : nat) (b : basis1) (x : Qc) : Matrix :=
  vector_of_list (map (derivative r (fst b) x (snd b)) (seq 0 (count1 b))).

(** Modelled from the spec: the tensor product that takes in dimension
    [i] the derivative vector of order [orders i] (spec 4.3); the last
    dimension varies fastest, as in [eval_from]. *)
Fixpoint derivative_from (orders : nat -> nat) (i : nat) (b : tensor_basis)
    (x : Matrix) (acc : Matrix) : Matrix :=
  match b with
  | [] => acc
  | b1 :: rest =>
      derivative_from orders (S i) rest x
        (kroneckerProduct acc (eval1_derivative (orders i) b1 (vec x i)))
  end.

Definition once_in (i : nat) (d : nat) : nat := if (d =? i)%nat then 1%nat else 0%nat.

(** Modelled from the spec: column [i] of the basis Jacobian is the
    tensor product using the derivative vector in dimension [i] and
    plain values elsewhere; the basis Hessian stacks, for each dimension
    [i], the block whose column [j] derives in the dimensions [i] and
    [j] (spec 4.3). *)
Definition derivatives : @BasisDerivatives _ basis_layer := {|
  evalBasisJacobianOld := fun b x =>
    mkMatrix (product_of (map count1 b)) (length b)
      (fun k i => coeff (derivative_from (once_in i) 0 b x one) k 0);
  evalBasisHessian := fun b x =>
    let N := product_of (map count1 b) in
    mkMatrix (length b * N) (length b)
      (fun r j =>
         coeff (derivative_from (fun d => (once_in (r / N) d + once_in j d)%nat) 0 b x one)
               (r mod N) 0)
|}.

(** A surface in two variables, linear in the first and quadratic in
    the second, whose coefficients are not those of a plane. *)
Definition curved_surface : World :=
  surface_on true
    (matrix_of_rows 1 12 [[1; 2; 4; 4; 5; 6; 7; 8; 9; 10; 11; 13]]%Z)
    [linear_knots; quadratic_knots] [1; 2]%Z.

End MoreScenarios.

(** ** Knot insertion on the reference layer *)

(** What the insertion matrix of the reference layer is to do, in the
    words of the glossary: map the control points on a knot vector to
    those on the refined one that represent the identical function. *)
Module Insertion.
Import Reference.
Local Open Scope Qc_scope.

(** The knots do not decrease. *)
Fixpoint nondecreasing (t : list Qc) : bool :=
  match t with
  | a :: (b :: _) as t' => qleb a b && nondecreasing t'
  | _ => true
  end.

(** The knots are in order, index by index. *)
Definition sorted_knots (t : list Qc) : Prop :=
  forall i j, (i <= j < length t)%nat -> knot t i <= knot t j.

(** The weight of the insertion of [tau] into span [k] at index [i]. *)
Definition alpha (t : list Qc) (p : nat) (tau : Qc) (k i : nat) : Qc :=
  if (i + p <=? k)%nat then q 1
  else if (k <? i)%nat then q 0
  else ratio (Qcminus tau (knot t i)) (Qcminus (knot t (i + p)) (knot t i)).

(** Value [i] of the univariate basis at [x]. *)
Definition value1 (t : list Qc) (p : nat) (x : Qc) (i : nat) : Qc :=
  vec (eval1 (t, p) x) i.

(** Column [j] of [A] writes basis function [j] on [t0] with the basis
    functions on [t1]. *)
Definition refines1 (A : Matrix) (t0 t1 : list Qc) (p : nat) (x : Qc) : Prop :=
  forall j, (j < cols A)%nat ->
    value1 t0 p x j = dsum (rows A) (fun i => dmul (coeff A i j) (value1 t1 p x i)).

(** An entry of a matrix, typed as the rational it is. *)
Definition entry (A : Matrix) (i j : nat) : Qc := coeff A i j.

(** Value [r] of the tensor product of the bases of [b], the first of
    which reads coordinate [i] of [x]; the last basis varies fastest. *)
Fixpoint tensor_value (i : nat) (b : tensor_basis) (x : Matrix) (r : nat) : Qc :=
  match b with
  | [] => 1
  | b1 :: rest =>
      vec (eval1 b1 (vec x i)) (r / product_of (map count1 rest))
      * tensor_value (S i) rest x (r mod product_of (map count1 rest))
  end.

End Insertion.

(** ** The reference basis in other arithmetic *)

(** Modelled from the spec, as the reference layer is: its formulas,
    definition by definition, with the arithmetic left open: the numbers
    of a [Double], a subtraction and a test of equality.  Over the
    rationals this is the reference layer; over binary64 it is what the
    same formulas compute in the [double] of the C++ code. *)
Module Textbook.
Section Arithmetic.
Context {D : Double}.
Variable dsub : double -> double -> double.
Variable deqb : double -> double -> bool.

Definition basis1 : Type := (list double * nat)%type.
Definition tensor_basis : Type := list basis1.

Definition knot (t : list double) (i : nat) : double := nth i t d0.

Definition ratio (num den : double) : double :=
  if deqb den d0 then d0 else ddiv num den.

Definition lowerBound (b : basis1) : double := hd d0 (fst b).
Definition upperBound (b : basis1) : double := last (fst b) d0.

Fixpoint cox_de_boor (t : list double) (x : double) (p j : nat) : double :=
  match p with
  | O =>
      if (dle (knot t j) x && dlt x (knot t (S j)))
         || (deqb x (last t d0) && dlt (knot t j) x && deqb (knot t (S j)) x)
      then d1 else d0
  | S p' =>
      dadd
        (dmul (ratio (dsub x (knot t j))
                     (dsub (knot t (j + p)) (knot t j)))
              (cox_de_boor t x p' j))
        (dmul (ratio (dsub (knot t (j + p + 1)) x)
                     (dsub (knot t (j + p + 1)) (knot t (S j))))
              (cox_de_boor t x p' (S j)))
  end.

Definition count1 (b : basis1) : nat := (length (fst b) - snd b - 1)%nat.

Definition eval1 (b : basis1) (x : double) : Matrix :=
  vector_of_list (map (cox_de_boor (fst b) x (snd b)) (seq 0 (count1 b))).

Fixpoint eval_from (i : nat) (b : tensor_basis) (x : Matrix) (acc : Matrix) : Matrix :=
  match b with
  | [] => acc
  | b1 :: rest => eval_from (S i) rest x (kroneckerProduct acc (eval1 b1 (vec x i)))
  end.

Definition one : Matrix := mkMatrix 1 1 (fun _ _ => d1).

Definition multiplicity (t : list double) (tau : double) : nat :=
  length (filter (deqb tau) t).

Definition find_span (t : list double) (tau : double) : option nat :=
  find (fun k => dle (knot t k) tau && dlt tau (knot t (S k)))
       (seq 0 (length t - 1)).

Definition boehm_matrix (t : list double) (p : nat) (tau : double) (k : nat) : Matrix :=
  let n := (length t - p - 1)%nat in
  mkMatrix (S n) n
    (fun i j =>
       let alpha :=
         if (i + p <=? k)%nat then d1
         else if (k <? i)%nat then d0
         else ratio (dsub tau (knot t i)) (dsub (knot t (i + p)) (knot t i)) in
       if (j =? i)%nat then alpha
       else if (S j =? i)%nat then dsub d1 alpha
       else d0).

Definition insert_after (t : list double) (k : nat) (tau : double) : list double :=
  firstn (S k) t ++ tau :: skipn (S k) t.

Fixpoint insert_many (m : nat) (t : list double) (p : nat) (tau : double) (A : Matrix)
  : option (Matrix * list double) :=
  match m with
  | O => Some (A, t)
  | S m' =>
      match find_span t tau with
      | Some k =>
          insert_many m' (insert_after t k tau) p tau
                      (mat_mul (boehm_matrix t p tau k) A)
      | None => None
      end
  end.

Definition extend (b : tensor_basis) (dim : nat) (A : Matrix) : Matrix :=
  kroneckerProduct
    (kroneckerProduct
       (identity (Reference.product_of (map count1 (firstn dim b)))) A)
    (identity (Reference.product_of (map count1 (skipn (S dim) b)))).

Definition no_matrix : Matrix := mkMatrix 0 0 (fun _ _ => d0).

Definition insert_knots (b : tensor_basis) (tau : double) (dim : nat) (m : Z)
  : bool * Matrix * tensor_basis :=
  match nth_error b dim with
  | None => (false, no_matrix, b)
  | Some (t, p) =>
      if negb (dle (lowerBound (t, p)) tau && dle tau (upperBound (t, p)))
         || (Z.of_nat (multiplicity t tau) + m >? Z.of_nat p + 1)%Z
      then (false, no_matrix, b)
      else
        match insert_many (Z.to_nat m) t p tau (identity (count1 (t, p))) with
        | Some (A, t') => (true, extend b dim A, Reference.replace_at b dim (t', p))
        | None => (false, no_matrix, b)
        end
  end.

Definition kept (b : basis1) (lb ub : double) (j : nat) : bool :=
  dlt (knot (fst b) j) ub && dlt lb (knot (fst b) (j + snd b + 1)).

Definition reduce1 (b : basis1) (lb ub : double) : option (Matrix * basis1) :=
  let js := filter (kept b lb ub) (seq 0 (count1 b)) in
  match js with
  | [] => None
  | first :: _ =>
      if dle ub lb then None
      else
        let n' := length js in
        Some (mkMatrix (count1 b) n'
                (fun i j => if (i =? first + j)%nat then d1 else d0),
              (firstn (n' + snd b + 1) (skipn first (fst b)), snd b))
  end.

Fixpoint reduce_from (b : tensor_basis) (lb ub : list double) (A : Matrix)
  : option (Matrix * tensor_basis) :=
  match b, lb, ub with
  | [], _, _ => Some (A, [])
  | b1 :: rest, l :: lb', u :: ub' =>
      match reduce1 b1 l u with
      | Some (A1, b1') =>
          match reduce_from rest lb' ub' (kroneckerProduct A A1) with
          | Some (A', rest') => Some (A', b1' :: rest')
          | None => None
          end
      | None => None
      end
  | _, _, _ => None
  end.

Definition reduce_support (b : tensor_basis) (lb ub : list double)
  : bool * Matrix * tensor_basis :=
  match reduce_from b lb ub one with
  | Some (A, b') => (true, A, b')
  | None => (false, no_matrix, b)
  end.

Definition refine_knots (succeeds : bool) (b : tensor_basis)
  : bool * Matrix * tensor_basis :=
  if succeeds then (true, identity (Reference.product_of (map count1 b)), b)
  else (false, no_matrix, b).

Definition explicit_basis (knotVectors : list (list double)) (degrees : list Z)
  : outcome tensor_basis :=
  Return (combine knotVectors (map Z.to_nat degrees)).

Definition layer (refine_succeeds : bool) : BasisLayer := {|
  BSplineBasis := tensor_basis;
  BSplineBasis_default := [];
  BSplineBasis_explicit := explicit_basis;
  BSplineBasis_free := explicit_basis;
  getKnotVectors := map fst;
  getKnotVector := fun b i => fst (nth i b ([], 0%nat));
  getBasisDegree := fun b i => Z.of_nat (snd (nth i b ([], 0%nat)));
  getKnotMultiplicity := fun b i tau =>
    Z.of_nat (multiplicity (fst (nth i b ([], 0%nat))) tau);
  numBasisFunctionsIn := fun b i => Z.of_nat (count1 (nth i b ([], 0%nat)));
  numBasisFunctions := fun b => Z.of_nat (Reference.product_of (map count1 b));
  getSupportLowerBound := map lowerBound;
  getSupportUpperBound := map upperBound;
  basis_eval := fun b x => eval_from 0 b x one;
  basis_insertKnots := insert_knots;
  basis_refineKnots := refine_knots refine_succeeds;
  basis_reduceSupport := reduce_support
|}.

End Arithmetic.
End Textbook.

(** IEEE 754 binary64, the [double] of the C++ code, round to nearest
    even, as the kernel's primitive numbers have it. *)
Module Binary64.

(** An integer as a binary64 number, through the 63-bit integers: meant
    for small integers, which it gives exactly. *)
Definition of_Z (z : Z) : PrimFloat.float :=
  match z with
  | Zneg p => PrimFloat.opp (PrimFloat.of_uint63 (Uint63Axioms.of_pos p))
  | _ => PrimFloat.of_uint63 (Uint63Axioms.of_Z z)
  end.

Definition binary64 : Double := {|
  double := PrimFloat.float;
  d0 := of_Z 0;
  d1 := of_Z 1;
  dadd := PrimFloat.add;
  dmul := PrimFloat.mul;
  ddiv := PrimFloat.div;
  dle := PrimFloat.leb;
  dlt := PrimFloat.ltb;
  double_of_Z := of_Z
|}.

Definition layer : @BasisLayer binary64 :=
  @Textbook.layer binary64 PrimFloat.sub PrimFloat.eqb true.

(** The line from 1 at 0 to 3 at 1: degree 1 on the knots 0 0 1 1,
    coefficients 1 3. *)
Definition line : @World binary64 layer :=
  let w := snd (@construct binary64 layer
                  (@BSpline_explicit binary64 layer
                     (@mkMatrix binary64 1 2 (fun _ j => of_Z (nth j [1; 3] 0)%Z))
                     [map of_Z [0; 0; 1; 1]%Z] [1%Z])) in
  @mkWorld binary64 layer (@self binary64 layer w) [].

Definition half : @Matrix binary64 :=
  @vector_of_list binary64 [PrimFloat.div (of_Z 1) (of_Z 2)].
Definition three_quarters : PrimFloat.float := PrimFloat.div (of_Z 3) (of_Z 4).

End Binary64.

Ltac run_cxx :=
  unfold bind, ret, throw, lift, this_object, update, emit, assert; simpl.

(** * Properties *)

Section SurfaceFacts.
Context `{BasisLayer} {DT : DoubleText} {LS : LinearSolvers}.

Lemma with_basis_same (s : BSpline) : with_basis s (basis s) = s.
Proof. destruct s; reflexivity. Qed.

(** ** Evaluation *)

Lemma inside_box_false (x : Matrix) (lb ub : list double) (k : nat) :
  inside_box k lb ub x = false <->
  exists i l u, nth_error lb i = Some l /\ nth_error ub i = Some u /\
                dle l (vec x (k + i)) && dle (vec x (k + i)) u = false.
Proof.
  revert ub k.
  induction lb as [|l lb IH]; intros ub k; simpl.
  - split; [discriminate|].
    intros (i & l & u & Hl & _). destruct i; discriminate.
  - destruct ub as [|u ub].
    + split; [discriminate|].
      intros (i & l' & u' & _ & Hu & _). destruct i; discriminate.
    + rewrite andb_false_iff, IH. split.
      * intros [Hhere | (i & l' & u' & Hl & Hu & Hout)].
        -- exists 0%nat, l, u. rewrite Nat.add_0_r. auto.
        -- exists (S i), l', u'. rewrite Nat.add_succ_r. auto.
      * intros (i & l' & u' & Hl & Hu & Hout).
        destruct i as [|i]; simpl in Hl, Hu.
        -- left. injection Hl as <-. injection Hu as <-.
           rewrite Nat.add_0_r in Hout. exact Hout.
        -- right. exists i, l', u'. rewrite Nat.add_succ_r in Hout. auto.
Qed.

Lemma pointInDomain_false (s : BSpline) (x : Matrix) :
  pointInDomain s x = false <-> outside_support (basis s) x.
Proof.
  unfold pointInDomain, insideSupport, outside_support.
  rewrite inside_box_false. reflexivity.
Qed.

(** C1.  [eval] throws the exception "Evaluation at point outside
    domain" when some coordinate of [x] is outside the support interval
    of its dimension, and then yields no value; otherwise it returns
    the product of the coefficient row with the tensor basis values at
    [x]. *)
Theorem eval_domain_or_inner_product (s : BSpline) (x : Matrix) :
  (outside_support (basis s) x ->
     eval s x = Throw (Exception "BSpline::eval: Evaluation at point outside domain.")
     /\ forall y, eval s x <> Return y)
  /\
  (~ outside_support (basis s) x ->
     eval s x =
       Return (dsum (cols (coefficients s))
                 (fun k => dmul (coeff (coefficients s) 0 k)
                                (vec (basis_eval (basis s) x) k)))).
Proof.
  split.
  - intros Hout. apply pointInDomain_false in Hout.
    unfold eval. rewrite Hout. simpl. split; [reflexivity | discriminate].
  - intros Hin. unfold eval.
    destruct (pointInDomain s x) eqn:Hp.
    + reflexivity.
    + exfalso. apply Hin, pointInDomain_false, Hp.
Qed.

(** ** Knot insertion *)

(** C3.  When the multiplicity of [tau] plus the requested one exceeds
    degree + 1, [insertKnots] returns [false] and the object is as it
    was.  The test at line 422 is made in [unsigned int]: it decides
    alone whenever the sum is representable, and beyond that the
    refusal is the one of [BSplineBasis::insertKnots]. *)
Theorem insertKnots_rejects_excess
    (w : World) (tau : double) (dim : nat) (multiplicity : Z) :
  let b := basis (self w) in
  0 <= multiplicity <= UINT_MAX ->
  0 <= getKnotMultiplicity b dim tau <= UINT_MAX ->
  0 <= getBasisDegree b dim <= UINT_MAX ->
  getKnotMultiplicity b dim tau + multiplicity > getBasisDegree b dim + 1 ->
  (getKnotMultiplicity b dim tau + multiplicity <= UINT_MAX
   \/ (fst (fst (basis_insertKnots b tau dim multiplicity)) = false
       /\ snd (basis_insertKnots b tau dim multiplicity) = b)) ->
  insertKnots tau dim multiplicity w = (Return false, w).
Proof.
  intros b Hm Hk Hd Hexc Hcase.
  unfold insertKnots. run_cxx. fold b.
  destruct (uadd (getKnotMultiplicity b dim tau) multiplicity
              >? uadd (getBasisDegree b dim) 1) eqn:Hguard.
  - reflexivity.
  - destruct Hcase as [Hfit | [Hfail Hsame]].
    + exfalso. unfold uadd, to_uint, UINT_MAX in *.
      rewrite (Z.mod_small (_ + multiplicity)) in Hguard by lia.
      rewrite (Z.mod_small (_ + 1)) in Hguard by lia.
      lia.
    + destruct (basis_insertKnots b tau dim multiplicity) as [[ok A] b'].
      simpl in Hfail, Hsame. subst ok b'. simpl.
      unfold b. rewrite with_basis_same. destruct w; reflexivity.
Qed.

(** ** Domain reduction *)

(** C10.  With [lb] or [ub] of a length other than [numVariables],
    [reduceDomain] returns [false]: no exception, and the object is as
    it was. *)
Theorem reduceDomain_size_mismatch
    (w : World) (lb ub : list double) (doRegularize doRefine : bool) :
  size lb <> numVariables (self w) \/ size ub <> numVariables (self w) ->
  reduceDomain lb ub doRegularize doRefine w = (Return false, w).
Proof.
  intros Hsize. unfold reduceDomain. run_cxx.
  destruct (size lb =? numVariables (self w)) eqn:Hl;
    destruct (size ub =? numVariables (self w)) eqn:Hu; simpl;
    try reflexivity.
  apply Z.eqb_eq in Hl, Hu. tauto.
Qed.

(** ** The control-point invariant *)

Lemma keeps_ret {A} P (a : A) : keeps P (ret a).
Proof. intros w Hw; exact Hw. Qed.

Lemma keeps_throw {A} P e : keeps P (throw e : M A).
Proof. intros w Hw; exact Hw. Qed.

Lemma keeps_lift {A} P (o : outcome A) : keeps P (lift o).
Proof. intros w Hw; exact Hw. Qed.

Lemma keeps_this P : keeps P this_object.
Proof. intros w Hw; exact Hw. Qed.

Lemma keeps_assert P c expr : keeps P (assert c expr).
Proof. intros w Hw. unfold assert. destruct c; exact Hw. Qed.

Lemma keeps_bind {A B} P (m : M A) (k : A -> M B) :
  keeps P m -> (forall a, keeps P (k a)) -> keeps P (bind m k).
Proof.
  intros Hm Hk w Hw. unfold bind. specialize (Hm w Hw).
  destruct (m w) as [[a|e] w']; simpl in *; auto.
  apply Hk; exact Hm.
Qed.

Lemma keeps_update P f :
  (forall w, P w -> P (mkWorld (f (self w)) (trace w))) -> keeps P (update f).
Proof. intros Hf w Hw. apply Hf, Hw. Qed.

Lemma keeps_with_basis t b' : keeps (sound_at t) (update (fun s => with_basis s b')).
Proof. apply keeps_update. intros w [Hok Ht]. split; assumption. Qed.

(** The two assignments that follow a transformation [T]: both
    matrices are multiplied by it, so their column counts stay equal. *)
Lemma keeps_transform t (T : Matrix) :
  keeps (sound_at t)
    (bind (update (fun s => with_coefficients s (mat_mul (coefficients s) T)))
       (fun _ => bind (update (fun s => with_knotaverages s (mat_mul (knotaverages s) T)))
          (fun _ => ret true))).
Proof.
  intros w [(Hr & Hn & Hc) Ht]. run_cxx. split; [|exact Ht].
  repeat split; simpl; assumption.
Qed.

Lemma insertKnots_keeps t tau dim m : keeps (sound_at t) (insertKnots tau dim m).
Proof.
  unfold insertKnots. apply keeps_bind; [apply keeps_this|]. intros s.
  destruct (_ >? _); [apply keeps_ret|].
  destruct (basis_insertKnots (basis s) tau dim m) as [[ok A] b'].
  apply keeps_bind; [apply keeps_with_basis|]. intros _.
  destruct ok; simpl; [|apply keeps_ret].
  apply keeps_bind; [apply keeps_this|]. intros s'.
  apply keeps_bind; [apply keeps_assert|]. intros _.
  apply keeps_transform.
Qed.

Lemma refineKnotVectors_keeps t : keeps (sound_at t) refineKnotVectors.
Proof.
  unfold refineKnotVectors. apply keeps_bind; [apply keeps_this|]. intros s.
  destruct (basis_refineKnots (basis s)) as [[ok A] b'].
  apply keeps_bind; [apply keeps_with_basis|]. intros _.
  destruct ok; simpl; [|apply keeps_ret].
  apply keeps_bind; [apply keeps_this|]. intros s'.
  apply keeps_bind; [apply keeps_assert|]. intros _.
  apply keeps_transform.
Qed.

Lemma removeUnsupportedBasisFunctions_keeps t lb ub :
  keeps (sound_at t) (removeUnsupportedBasisFunctions lb ub).
Proof.
  unfold removeUnsupportedBasisFunctions.
  apply keeps_bind; [apply keeps_this|]. intros s.
  apply keeps_bind; [apply keeps_assert|]. intros _.
  apply keeps_bind; [apply keeps_assert|]. intros _.
  destruct (basis_reduceSupport (basis s) lb ub) as [[ok A] b'].
  apply keeps_bind; [apply keeps_with_basis|]. intros _.
  destruct ok; simpl; [|apply keeps_ret].
  apply keeps_bind; [apply keeps_this|]. intros s'.
  destruct (negb _); [apply keeps_ret|].
  apply keeps_transform.
Qed.

Lemma regularize_dim_keeps t lb ub dim : keeps (sound_at t) (regularize_dim lb ub dim).
Proof.
  unfold regularize_dim. apply keeps_bind; [apply keeps_this|]. intros s.
  apply keeps_bind; [apply keeps_lift|]. intros lbd.
  apply keeps_bind.
  - destruct (_ >? 0); [|apply keeps_ret].
    apply keeps_bind; [apply keeps_lift|]. intros lbd'.
    apply keeps_bind; [apply insertKnots_keeps|]. intros ok. apply keeps_ret.
  - intros [v|]; [apply keeps_ret|].
    apply keeps_bind; [apply keeps_this|]. intros s'.
    apply keeps_bind; [apply keeps_lift|]. intros ubd.
    destruct (_ >? 0); [|apply keeps_ret].
    apply keeps_bind; [apply keeps_lift|]. intros ubd'.
    apply keeps_bind; [apply insertKnots_keeps|]. intros ok. apply keeps_ret.
Qed.

Lemma regularize_loop_keeps t lb ub dims : keeps (sound_at t) (regularize_loop lb ub dims).
Proof.
  induction dims as [|dim rest IH]; simpl; [apply keeps_ret|].
  apply keeps_bind; [apply regularize_dim_keeps|].
  intros [v|]; [apply keeps_ret | exact IH].
Qed.

Lemma regularizeKnotVectors_keeps t lb ub :
  keeps (sound_at t) (regularizeKnotVectors lb ub).
Proof.
  unfold regularizeKnotVectors. apply keeps_bind; [apply keeps_this|]. intros s.
  destruct (negb _); [apply keeps_ret | apply regularize_loop_keeps].
Qed.

Lemma reduceDomain_keeps t lb ub rg rf : keeps (sound_at t) (reduceDomain lb ub rg rf).
Proof.
  unfold reduceDomain. apply keeps_bind; [apply keeps_this|]. intros s.
  destruct (_ || _); [apply keeps_ret|].
  apply keeps_bind; [apply keeps_lift|]. intros [[sl su] strict].
  unfold reduceDomain_steps.
  apply keeps_bind; [|intros; apply keeps_ret].
  destruct strict; [|apply keeps_ret].
  apply keeps_bind.
  - destruct rg; [|apply keeps_ret].
    apply keeps_bind; [apply regularizeKnotVectors_keeps|].
    intros ok; destruct (negb ok); [apply keeps_throw | apply keeps_ret].
  - intros _. apply keeps_bind; [apply removeUnsupportedBasisFunctions_keeps|].
    intros ok. apply keeps_bind.
    + destruct (negb ok); [apply keeps_throw | apply keeps_ret].
    + intros _. destruct rf; [|apply keeps_ret].
      apply keeps_bind; [apply refineKnotVectors_keeps|].
      intros ok'; destruct (negb ok'); [apply keeps_throw | apply keeps_ret].
Qed.

(** A run that returns went through each of its parts. *)
Lemma bind_returns {A B} (m : M A) (k : A -> M B) w b w' :
  bind m k w = (Return b, w') ->
  exists a w1, m w = (Return a, w1) /\ k a w1 = (Return b, w').
Proof.
  unfold bind. destruct (m w) as [[a|e] w1]; intros Hk; [|discriminate].
  exists a, w1. split; [reflexivity | exact Hk].
Qed.

Lemma checkControlPoints_returns w b w' :
  checkControlPoints w = (Return b, w') ->
  control_points_ok (self w') /\ ends_with_check w'.
Proof.
  unfold checkControlPoints. run_cxx.
  destruct (cols (coefficients (self w)) =? cols (knotaverages (self w)))%nat eqn:Hc;
    simpl; [|discriminate].
  destruct (Z.of_nat (rows (knotaverages (self w))) =? numVariables (self w)) eqn:Hn;
    simpl; [|discriminate].
  destruct (rows (coefficients (self w)) =? 1)%nat eqn:Hr; simpl; [|discriminate].
  intros Heq. injection Heq as _ <-. simpl.
  apply Nat.eqb_eq in Hc, Hr. apply Z.eqb_eq in Hn.
  split; [repeat split; assumption | exists (trace w); reflexivity].
Qed.

(** A function whose last step is [checkControlPoints]. *)
Lemma checked_at_end {A} (m : M A) w w' :
  bind m (fun _ => bind checkControlPoints (fun _ => ret tt)) w = (Return tt, w') ->
  control_points_ok (self w') /\ ends_with_check w'.
Proof.
  intros Hrun. apply bind_returns in Hrun as (a & w1 & _ & Hrun).
  apply bind_returns in Hrun as (b & w2 & Hcheck & Hret).
  injection Hret as <-. eapply checkControlPoints_returns, Hcheck.
Qed.

Lemma setControlPoints_checked cp w w' :
  setControlPoints cp w = (Return tt, w') ->
  control_points_ok (self w') /\ ends_with_check w'.
Proof.
  unfold setControlPoints. intros Hrun.
  apply bind_returns in Hrun as (s & w1 & _ & Hrun).
  apply bind_returns in Hrun as (? & w2 & _ & Hrun).
  apply bind_returns in Hrun as (? & w3 & _ & Hrun).
  eapply checked_at_end, Hrun.
Qed.

Lemma loadBasis_checked kv deg w w' :
  loadBasis kv deg w = (Return tt, w') ->
  control_points_ok (self w') /\ ends_with_check w'.
Proof.
  unfold loadBasis. intros Hrun.
  apply bind_returns in Hrun as (s & w1 & _ & Hrun).
  apply bind_returns in Hrun as (? & w2 & _ & Hrun).
  apply bind_returns in Hrun as (? & w3 & _ & Hrun).
  apply bind_returns in Hrun as (? & w4 & _ & Hrun).
  apply bind_returns in Hrun as (? & w5 & _ & Hrun).
  eapply checked_at_end, Hrun.
Qed.

Lemma load_checked file w w' :
  load file w = (Return tt, w') ->
  control_points_ok (self w') /\ ends_with_check w'.
Proof.
  unfold load. intros Hrun.
  apply bind_returns in Hrun as (l & w1 & _ & Hrun).
  eapply loadBasis_checked, Hrun.
Qed.

Lemma BSpline_samples_checked samples type w w' :
  BSpline_samples samples type w = (Return tt, w') ->
  control_points_ok (self w') /\ ends_with_check w'.
Proof.
  unfold BSpline_samples. destruct (negb (isGridComplete samples)); [discriminate|].
  intros Hrun.
  apply bind_returns in Hrun as (? & w1 & _ & Hrun).
  apply bind_returns in Hrun as (? & w2 & _ & Hrun).
  apply bind_returns in Hrun as (? & w3 & _ & Hrun).
  apply bind_returns in Hrun as (? & w4 & _ & Hrun).
  eapply checked_at_end, Hrun.
Qed.

(** C6, as the code has it.  Every mutation of the control points keeps
    the invariant: one coefficient row, [numVariables] rows of knot
    averages, equal column counts.  [setControlPoints], the fit from
    samples and [load] end with [checkControlPoints], which asserts it.
    [insertKnots], [refineKnotVectors],
    [removeUnsupportedBasisFunctions] and [reduceDomain] keep it by
    multiplying both matrices by the same transformation, and never call
    [checkControlPoints]: they leave the log as it was. *)
Theorem control_points_invariant_kept :
  (forall cp w w',
      setControlPoints cp w = (Return tt, w') ->
      control_points_ok (self w') /\ ends_with_check w')
  /\ (forall samples type w w',
      BSpline_samples samples type w = (Return tt, w') ->
      control_points_ok (self w') /\ ends_with_check w')
  /\ (forall file w w',
      load file w = (Return tt, w') ->
      control_points_ok (self w') /\ ends_with_check w')
  /\ (forall w, control_points_ok (self w) ->
      (forall tau dim m,
          let w' := snd (insertKnots tau dim m w) in
          control_points_ok (self w') /\ trace w' = trace w)
      /\ (let w' := snd (refineKnotVectors w) in
          control_points_ok (self w') /\ trace w' = trace w)
      /\ (forall lb ub,
          let w' := snd (removeUnsupportedBasisFunctions lb ub w) in
          control_points_ok (self w') /\ trace w' = trace w)
      /\ (forall lb ub rg rf,
          let w' := snd (reduceDomain lb ub rg rf w) in
          control_points_ok (self w') /\ trace w' = trace w)).
Proof.
  split; [exact setControlPoints_checked|].
  split; [exact BSpline_samples_checked|].
  split; [exact load_checked|].
  intros w Hok.
  assert (Hw : sound_at (trace w) w) by (split; [exact Hok | reflexivity]).
  split; [intros tau dim m; apply (insertKnots_keeps (trace w) tau dim m w Hw)|].
  split; [apply (refineKnotVectors_keeps (trace w) w Hw)|].
  split; [intros lb ub; apply (removeUnsupportedBasisFunctions_keeps (trace w) lb ub w Hw)|].
  intros lb ub rg rf. apply (reduceDomain_keeps (trace w) lb ub rg rf w Hw).
Qed.


(** ** Solver selection *)

(** C5, as the code has it.  Below 2^10 equations the dense solver
    alone runs, and the error is raised as soon as it fails.  From 2^10
    on the sparse solver runs first; the dense one runs only if the
    sparse one failed, and the error is raised when it fails too.  So
    the error is raised exactly when the dense solve fails after having
    been reached. *)
Theorem solver_selection (A Bx By : Matrix) (w : World) :
  let numEquations := to_int (Z.of_nat (rows A)) in
  let run := solveControlPoints A Bx By w in
  (numEquations < 2 ^ 10 ->
     trace (snd run) = trace w ++ [dense_message]
     /\ (solves DenseQR_solve A Bx By = true ->
         run = (Return tt, fitted w DenseQR_solve A Bx By [dense_message]))
     /\ (solves DenseQR_solve A Bx By = false -> fst run = Throw solve_error))
  /\ (2 ^ 10 <= numEquations ->
     (solves SparseLU_solve A Bx By = true ->
        run = (Return tt, fitted w SparseLU_solve A Bx By [sparse_message]))
     /\ (solves SparseLU_solve A Bx By = false ->
         trace (snd run) = trace w ++ [sparse_message; dense_message]
         /\ (solves DenseQR_solve A Bx By = true ->
             run = (Return tt,
                    fitted w DenseQR_solve A Bx By [sparse_message; dense_message]))
         /\ (solves DenseQR_solve A Bx By = false -> fst run = Throw solve_error)))
  /\ (fst run = Throw solve_error <->
      solves DenseQR_solve A Bx By = false
      /\ (numEquations < 2 ^ 10 \/ solves SparseLU_solve A Bx By = false)).
Proof.
  intros numEquations run. subst run.
  unfold solveControlPoints, solve_both, solves, fitted. fold numEquations.
  destruct (numEquations <? 2 ^ 10) eqn:Hn;
    [apply Z.ltb_lt in Hn | apply Z.ltb_ge in Hn];
    destruct (SparseLU_solve A Bx) as [sx Sx], (SparseLU_solve A By) as [sy Sy],
             (DenseQR_solve A Bx) as [dx Dx], (DenseQR_solve A By) as [dy Dy];
    destruct sx, sy, dx, dy; run_cxx; rewrite <- ?app_assoc; simpl;
    (split; [intros Hlt | split; [intros Hge | split]]);
    try lia; try tauto;
    repeat split; try reflexivity; try discriminate; try tauto;
    try (intros [? [? | ?]]; try discriminate; lia);
    try (intros [? ?]; discriminate).
Qed.

(** ** Failure inside domain reduction *)

Lemma bind_run_return {A B} (m : M A) (k : A -> M B) w a w1 :
  m w = (Return a, w1) -> bind m k w = k a w1.
Proof. intros Hm. unfold bind. rewrite Hm. reflexivity. Qed.

Lemma bind_run_throw {A B} (m : M A) (k : A -> M B) w e w1 :
  m w = (Throw e, w1) -> bind m k w = (Throw e, w1).
Proof. intros Hm. unfold bind. rewrite Hm. reflexivity. Qed.

Lemma run_fst {A} (m : M A) w (o : outcome A) :
  fst (m w) = o -> m w = (o, snd (m w)).
Proof. intros <-. apply surjective_pairing. Qed.

Lemma regularize_step_passes (doRegularize : bool) sl su w :
  regularize_passed doRegularize sl su w ->
  (if doRegularize
   then bind (regularizeKnotVectors sl su)
          (fun ok => if negb ok then throw regularize_error else ret tt)
   else ret tt) w
  = (Return tt, after_regularize doRegularize sl su w).
Proof.
  unfold regularize_passed, after_regularize. intros Hreg.
  destruct doRegularize; [|reflexivity].
  rewrite (bind_run_return _ _ w true _ (run_fst _ _ _ (Hreg eq_refl))).
  reflexivity.
Qed.

(** C4, as the code has it.  A failing step makes [reduceDomain] leave
    by an exception that names the step.  An empty target set is found
    before anything is changed.  The three steps run one after the
    other on the object itself, and nothing is undone: the exception
    leaves the object as the failing step left it, on top of what the
    steps before it did. *)
Theorem reduceDomain_failure_keeps_changes
    (w : World) (lb ub : list double) (doRegularize doRefine : bool) :
  size lb = numVariables (self w) ->
  size ub = numVariables (self w) ->
  (forall e, reduced_bounds (self w) lb ub = Throw e ->
     reduceDomain lb ub doRegularize doRefine w = (Throw e, w))
  /\
  (forall sl su, reduced_bounds (self w) lb ub = Return (sl, su, true) ->
     (doRegularize = true ->
      fst (regularizeKnotVectors sl su w) = Return false ->
      reduceDomain lb ub doRegularize doRefine w
      = (Throw regularize_error, snd (regularizeKnotVectors sl su w)))
     /\
     (let w1 := after_regularize doRegularize sl su w in
      regularize_passed doRegularize sl su w ->
      fst (removeUnsupportedBasisFunctions sl su w1) = Return false ->
      reduceDomain lb ub doRegularize doRefine w
      = (Throw remove_error, snd (removeUnsupportedBasisFunctions sl su w1)))
     /\
     (let w1 := after_regularize doRegularize sl su w in
      let w2 := snd (removeUnsupportedBasisFunctions sl su w1) in
      regularize_passed doRegularize sl su w ->
      fst (removeUnsupportedBasisFunctions sl su w1) = Return true ->
      doRefine = true ->
      fst (refineKnotVectors w2) = Return false ->
      reduceDomain lb ub doRegularize doRefine w
      = (Throw refine_error, snd (refineKnotVectors w2)))).
Proof.
  intros Hlb Hub.
  assert (Hrun : reduceDomain lb ub doRegularize doRefine w
                 = bind (lift (reduced_bounds (self w) lb ub))
                     (fun r => reduceDomain_steps doRegularize doRefine r) w).
  { unfold reduceDomain, reduced_bounds.
    unfold bind at 1. unfold this_object at 1. simpl.
    rewrite Hlb, Hub, Z.eqb_refl. reflexivity. }
  rewrite Hrun. clear Hrun.
  split.
  - intros e He. rewrite He. reflexivity.
  - intros sl su Hb. rewrite Hb.
    rewrite (bind_run_return _ _ w (sl, su, true) w eq_refl).
    unfold reduceDomain_steps.
    split; [|split].
    + intros -> Hreg.
      apply bind_run_throw, bind_run_throw.
      rewrite (bind_run_return _ _ w false _ (run_fst _ _ _ Hreg)). reflexivity.
    + cbv zeta. intros Hreg Hrem.
      set (w1 := after_regularize doRegularize sl su w) in *.
      apply bind_run_throw.
      rewrite (bind_run_return _ _ w tt w1
                 (regularize_step_passes _ _ _ _ Hreg)).
      rewrite (bind_run_return _ _ w1 false _ (run_fst _ _ _ Hrem)). reflexivity.
    + cbv zeta. intros Hreg Hrem -> Href.
      set (w1 := after_regularize doRegularize sl su w) in *.
      set (w2 := snd (removeUnsupportedBasisFunctions sl su w1)) in *.
      apply bind_run_throw.
      rewrite (bind_run_return _ _ w tt w1
                 (regularize_step_passes _ _ _ _ Hreg)).
      rewrite (bind_run_return _ _ w1 true w2 (run_fst _ _ _ Hrem)).
      rewrite (bind_run_return _ _ w2 tt w2 eq_refl).
      rewrite (bind_run_return _ _ w2 false _ (run_fst _ _ _ Href)). reflexivity.
Qed.

(** ** Knot insertion keeps the function *)

Lemma dsum_S n f : dsum (S n) f = dadd (dsum n f) (f n).
Proof. unfold dsum. rewrite seq_S, fold_left_app. reflexivity. Qed.

Lemma dsum_ext n f g :
  (forall k, (k < n)%nat -> f k = g k) -> dsum n f = dsum n g.
Proof.
  induction n as [|n IH]; intros Hfg; [reflexivity|].
  rewrite !dsum_S, IH, Hfg; auto.
Qed.

Section Sums.
Hypothesis exact : exact_arithmetic.

Lemma dsum_zero n : dsum n (fun _ => d0) = d0.
Proof.
  induction n as [|n IH]; [reflexivity|].
  rewrite dsum_S, IH. apply (add_0_l exact).
Qed.

Lemma dsum_add n f g :
  dsum n (fun k => dadd (f k) (g k)) = dadd (dsum n f) (dsum n g).
Proof.
  induction n as [|n IH]; [symmetry; apply (add_0_l exact)|].
  rewrite !dsum_S, IH.
  rewrite <- !(add_assoc exact). f_equal.
  rewrite !(add_assoc exact). f_equal. apply (add_comm exact).
Qed.

Lemma dsum_scale_l n a f :
  dsum n (fun k => dmul a (f k)) = dmul a (dsum n f).
Proof.
  induction n as [|n IH]; [symmetry; apply (mul_0_r exact)|].
  rewrite !dsum_S, IH. symmetry. apply (distr_l exact).
Qed.

Lemma dsum_scale_r n f b :
  dsum n (fun k => dmul (f k) b) = dmul (dsum n f) b.
Proof.
  induction n as [|n IH]; [symmetry; apply (mul_0_l exact)|].
  rewrite !dsum_S, IH. symmetry. apply (distr_r exact).
Qed.

Lemma dsum_swap n m g :
  dsum n (fun i => dsum m (fun j => g i j))
  = dsum m (fun j => dsum n (fun i => g i j)).
Proof.
  induction n as [|n IH].
  - symmetry. apply dsum_zero.
  - rewrite dsum_S, IH. rewrite <- dsum_add.
    apply dsum_ext. intros j _. rewrite dsum_S. reflexivity.
Qed.

(** [(c * A^T) * v = c * (A^T * v)], row 0. *)
Lemma row_times_transpose (c A v : Matrix) :
  vec (mat_mul (mat_mul c (transpose A)) v) 0
  = dsum (cols c)
      (fun j => dmul (coeff c 0 j)
                     (dsum (rows A) (fun k => dmul (coeff A k j) (vec v k)))).
Proof.
  unfold vec, mat_mul, transpose. simpl.
  rewrite (dsum_ext _ _
             (fun k => dsum (cols c)
                         (fun j => dmul (dmul (coeff c 0 j) (coeff A k j))
                                        (coeff v k 0)))).
  2:{ intros k _. symmetry. apply dsum_scale_r. }
  rewrite dsum_swap. apply dsum_ext. intros j _.
  rewrite <- dsum_scale_l. apply dsum_ext. intros k _.
  symmetry. apply (mul_assoc exact).
Qed.
End Sums.

Lemma insertKnots_success w tau dim m :
  fst (insertKnots tau dim m w) = Return true ->
  let r := basis_insertKnots (basis (self w)) tau dim m in
  let A := snd (fst r) in
  cols A = cols (coefficients (self w))
  /\ snd (insertKnots tau dim m w)
     = mkWorld (mkBSpline (snd r)
                  (mat_mul (coefficients (self w)) (transpose A))
                  (mat_mul (knotaverages (self w)) (transpose A))
                  (numVariables (self w)))
               (trace w).
Proof.
  unfold insertKnots. run_cxx.
  destruct (_ >? _); [discriminate|].
  destruct (basis_insertKnots (basis (self w)) tau dim m) as [[ok A] b'].
  simpl. destruct ok; simpl; [|discriminate].
  destruct (cols A =? cols (coefficients (self w)))%nat eqn:Hc; simpl;
    [|discriminate].
  intros _. apply Nat.eqb_eq in Hc. split; [exact Hc | reflexivity].
Qed.

(** The step from the bases to the surface: where the insertion matrix
    relates the basis before to the basis after, the surface with the
    coefficients times the transpose of the matrix evaluates as before.
    That the matrix of a layer does relate the bases is a matter of the
    layer. *)
Lemma eval_after_refinement
    (w : World) (tau : double) (dim : nat) (m : Z) (x : Matrix) :
  let b := basis (self w) in
  let A := snd (fst (basis_insertKnots b tau dim m)) in
  let b' := snd (basis_insertKnots b tau dim m) in
  let w' := snd (insertKnots tau dim m w) in
  exact_arithmetic ->
  fst (insertKnots tau dim m w) = Return true ->
  insideSupport b x = true ->
  insideSupport b' x = true ->
  refines_at A b b' x ->
  coefficients (self w') = mat_mul (coefficients (self w)) (transpose A)
  /\ eval (self w') x = eval (self w) x.
Proof.
  intros b A b' w' exact Hok Hin Hin' Href.
  destruct (insertKnots_success w tau dim m Hok) as [Hcols Hw'].
  fold b in Hcols, Hw'. fold A in Hcols, Hw'. fold b' in Hw'. fold w' in Hw'.
  rewrite Hw'. split; [reflexivity|].
  unfold eval, pointInDomain. cbn [self basis coefficients]. fold b.
  rewrite Hin, Hin'. cbn [negb]. f_equal.
  rewrite (row_times_transpose exact).
  unfold vec at 2, mat_mul. cbn [coeff cols].
  apply dsum_ext. intros j Hj. f_equal. symmetry. apply Href.
  rewrite Hcols. exact Hj.
Qed.

(** ** Knot averages *)

Lemma omap_return {A B} (f : A -> outcome B) (g : A -> B) (l : list A) :
  (forall a, In a l -> f a = Return (g a)) -> omap f l = Return (map g l).
Proof.
  induction l as [|a l IH]; intros Hf; simpl; [reflexivity|].
  rewrite Hf by (left; reflexivity). simpl.
  rewrite IH by (intros; apply Hf; right; assumption). reflexivity.
Qed.

Lemma ofold_app {A B} (f : B -> A -> outcome B) (l1 l2 : list A) (b : B) :
  ofold f (l1 ++ l2) b = obind (ofold f l1 b) (ofold f l2).
Proof.
  revert b. induction l1 as [|a l1 IH]; intros b; simpl; [reflexivity|].
  destruct (f b a); simpl; [apply IH | reflexivity].
Qed.

Lemma vector_at_map_seq {B} (g : nat -> B) (n i : nat) :
  (i < n)%nat -> vector_at (map g (seq 0 n)) i = Return (g i).
Proof.
  intros Hi. unfold vector_at.
  rewrite nth_error_map, nth_error_seq.
  destruct (Nat.ltb_spec i n); [reflexivity | lia].
Qed.

Lemma nth_map_seq (g : nat -> double) (n k : nat) :
  (k < n)%nat -> nth k (map g (seq 0 n)) d0 = g k.
Proof.
  intros Hk. rewrite (nth_indep _ d0 (g 0%nat)) by (rewrite length_map, length_seq; lia).
  rewrite map_nth, seq_nth by lia. reflexivity.
Qed.

Lemma skipn_cons_nth {A} (l : list A) (n : nat) :
  (n < length l)%nat ->
  exists x, nth_error l n = Some x /\ skipn n l = x :: skipn (S n) l.
Proof.
  revert n. induction l as [|a l IH]; intros n Hn; simpl in Hn; [lia|].
  destruct n as [|n]; [exists a; split; reflexivity|].
  destruct (IH n) as (x & Hx & Hs); [lia|].
  exists x. split; [exact Hx | exact Hs].
Qed.

Lemma sum_of_knots (knots : list double) (n start : nat) (acc : double) :
  (start + n <= length knots)%nat ->
  ofold (fun acc k =>
           obind (vector_at knots (Z.to_nat k)) (fun v => Return (dadd acc v)))
        (map Z.of_nat (seq start n)) acc
  = Return (fold_left dadd (firstn n (skipn start knots)) acc).
Proof.
  revert start acc. induction n as [|n IH]; intros start acc Hlen; [reflexivity|].
  destruct (skipn_cons_nth knots start) as (x & Hx & Hs); [lia|].
  simpl seq. simpl map. simpl ofold.
  rewrite Nat2Z.id. unfold vector_at at 1. rewrite Hx. simpl obind.
  rewrite IH by lia. rewrite Hs. reflexivity.
Qed.

Lemma seq_offset (a n : nat) : seq a n = map (Nat.add a) (seq 0 n).
Proof.
  induction a as [|a IH]; [symmetry; apply map_id|].
  rewrite <- seq_shift, IH, map_map. reflexivity.
Qed.

Lemma uint_range_seq (d : nat) (degree : Z) :
  0 <= degree -> Z.of_nat d + degree < UINT_MAX ->
  uint_range (uadd (Z.of_nat d) 1) (uadd (Z.of_nat d) degree)
  = map Z.of_nat (seq (S d) (Z.to_nat degree)).
Proof.
  intros Hdeg Hmax. unfold uint_range, uadd, to_uint, UINT_MAX in *.
  rewrite !Z.mod_small by lia.
  replace (Z.of_nat d + degree + 1 - (Z.of_nat d + 1)) with degree by lia.
  rewrite (seq_offset (S d)), map_map.
  apply map_ext_in. intros t _. lia.
Qed.

Lemma knot_average_return (knots : list double) (degree : Z) (d : nat) :
  0 <= degree ->
  (d + Z.to_nat degree < length knots)%nat ->
  size knots <= UINT_MAX ->
  knot_average knots degree (Z.of_nat d) = Return (knot_mean knots degree d).
Proof.
  intros Hdeg Hlen Hmax. unfold knot_average, knot_mean, size in *.
  rewrite uint_range_seq by lia.
  rewrite sum_of_knots by lia. reflexivity.
Qed.

Lemma knot_averages_of_return (b : BSplineBasis) (nv i : nat) :
  knots_cover b nv -> (i < nv)%nat ->
  knot_averages_of b i
  = Return (vector_of_list
              (map (knot_mean (getKnotVector b i) (getBasisDegree b i))
                   (seq 0 (count_in b i)))).
Proof.
  intros Hcover Hi. destruct (Hcover i Hi) as (Hdeg & Hlen & Hmax).
  unfold knot_averages_of. fold (count_in b i).
  rewrite (omap_return _ (knot_mean (getKnotVector b i) (getBasisDegree b i))).
  - reflexivity.
  - intros d Hd. apply in_seq in Hd.
    apply knot_average_return; [exact Hdeg | lia | exact Hmax].
Qed.

Lemma bind_this {B} (k : BSpline -> M B) w : bind this_object k w = k (self w) w.
Proof. reflexivity. Qed.

Lemma bind_lift_return {A B} (a : A) (k : A -> M B) w :
  bind (lift (Return a)) k w = k a w.
Proof. reflexivity. Qed.

Lemma bind_assert_true {B} expr (k : unit -> M B) w :
  bind (assert true expr) k w = k tt w.
Proof. reflexivity. Qed.

Lemma bind_update {B} f (k : unit -> M B) w :
  bind (update f) k w = k tt (mkWorld (f (self w)) (trace w)).
Proof. reflexivity. Qed.

Section KnotAverageRows.
Variable b : BSplineBasis.
Variable nv : nat.
Hypothesis mul_1_l : forall x, dmul d1 x = x.
Hypothesis mul_1_r : forall x, dmul x d1 = x.

Lemma rows_mu_vector i : rows (mu_vector b i) = count_in b i.
Proof. unfold mu_vector, vector_of_list. simpl. rewrite length_map, length_seq. reflexivity. Qed.

Lemma coeff_mu_vector i k :
  (k < count_in b i)%nat ->
  coeff (mu_vector b i) k 0 = knot_mean (getKnotVector b i) (getBasisDegree b i) k.
Proof. intros Hk. unfold mu_vector, vector_of_list. simpl. apply nth_map_seq, Hk. Qed.

Lemma counts_product_S_in lo h :
  (lo <= h)%nat ->
  counts_product b lo (S h) = (counts_product b lo h * count_in b h)%nat.
Proof. intros Hle. simpl. rewrite (proj2 (Nat.leb_le lo h) Hle). reflexivity. Qed.

Lemma counts_product_S_out lo h :
  (h < lo)%nat -> counts_product b lo (S h) = 1%nat.
Proof. intros Hlt. simpl. rewrite (proj2 (Nat.leb_gt lo h) Hlt). reflexivity. Qed.

(** The inner loop after [m] of its turns: the Kronecker product so
    far has one entry per index of the first [m] dimensions; it holds
    the mean of row [i]'s dimension once that dimension is in, and
    one before. *)
Lemma mu_ext_prefix (i m : nat) :
  (m <= nv)%nat ->
  exists T,
    ofold (fun temp j =>
             if (i =? j)%nat
             then obind (vector_at (mu_vectors b nv) j)
                    (fun v => Return (kroneckerProduct temp v))
             else obind (vector_at (one_vectors b nv) j)
                    (fun v => Return (kroneckerProduct temp v)))
          (seq 0 m) one_by_one = Return T
    /\ rows T = counts_product b 0 m /\ cols T = 1%nat
    /\ forall r, (r < rows T)%nat ->
         coeff T r 0
         = if (i <? m)%nat
           then knot_mean (getKnotVector b i) (getBasisDegree b i)
                  ((r / counts_product b (S i) m) mod count_in b i)
           else d1.
Proof.
  induction m as [|m IH]; intros Hm.
  - exists one_by_one. repeat split.
  - destruct IH as (T & Hfold & Hrows & Hcols & Hentry); [lia|].
    rewrite seq_S, ofold_app, Hfold. cbn [obind ofold Nat.add].
    assert (Hvm : vector_at (mu_vectors b nv) m = Return (mu_vector b m))
      by (apply vector_at_map_seq; lia).
    assert (Hom : vector_at (one_vectors b nv) m = Return (ones (rows (mu_vector b m))))
      by (unfold one_vectors; rewrite vector_at_map_seq by lia; reflexivity).
    destruct (Nat.eqb_spec i m) as [-> | Hne].
    + rewrite Hvm. cbn [obind]. eexists. split; [reflexivity|].
      assert (Hc1 : cols (mu_vector b m) = 1%nat) by reflexivity.
      unfold kroneckerProduct. cbn [rows cols coeff].
      rewrite Hrows, Hcols, Hc1, rows_mu_vector.
      split; [reflexivity|]. split; [reflexivity|].
      intros r Hr. change (0 / 1)%nat with 0%nat. change (0 mod 1)%nat with 0%nat.
      rewrite Hentry
        by (apply Nat.Div0.div_lt_upper_bound; lia).
      rewrite Nat.ltb_irrefl, mul_1_l.
      rewrite (proj2 (Nat.ltb_lt m (S m))) by lia.
      rewrite counts_product_S_out by lia.
      rewrite Nat.div_1_r.
      apply coeff_mu_vector.
      apply Nat.mod_upper_bound. destruct (count_in b m); lia.
    + rewrite Hom. cbn [obind]. eexists. split; [reflexivity|].
      unfold kroneckerProduct, ones. cbn [rows cols coeff].
      rewrite Hrows, Hcols, rows_mu_vector.
      split; [reflexivity|]. split; [reflexivity|].
      intros r Hr. change (0 / 1)%nat with 0%nat. change (0 mod 1)%nat with 0%nat.
      rewrite Hentry
        by (apply Nat.Div0.div_lt_upper_bound; lia).
      rewrite mul_1_r.
      destruct (Nat.ltb_spec i m) as [Hlt | Hge].
      * rewrite (proj2 (Nat.ltb_lt i (S m))) by lia.
        rewrite counts_product_S_in by lia.
        rewrite Nat.Div0.div_div, (Nat.mul_comm (count_in b m)). reflexivity.
      * rewrite (proj2 (Nat.ltb_ge i (S m))) by lia. reflexivity.
Qed.

Lemma mu_ext_of_return (i : nat) :
  (i < nv)%nat ->
  mu_ext_of (mu_vectors b nv) (one_vectors b nv) nv i = Return (mu_ext_matrix b nv i)
  /\ rows (mu_ext_matrix b nv i) = counts_product b 0 nv
  /\ forall j, (j < counts_product b 0 nv)%nat ->
       coeff (mu_ext_matrix b nv i) j 0
       = knot_mean (getKnotVector b i) (getBasisDegree b i)
           (mixed_radix_digit b nv i j).
Proof.
  intros Hi. destruct (mu_ext_prefix i nv (le_n nv)) as (T & Hfold & Hrows & _ & Hentry).
  unfold mu_ext_matrix, mu_ext_of. rewrite Hfold.
  split; [reflexivity|]. split; [exact Hrows|].
  intros j Hj. rewrite Hentry by lia.
  rewrite (proj2 (Nat.ltb_lt i nv)) by lia. reflexivity.
Qed.

(** The loop that writes the rows: the rows on its list get their
    [mu_ext], the others stay. *)
Lemma fill_knotaverages_return (rows_left : list nat) (w : World) :
  basis (self w) = b ->
  numBasisFunctions b = Z.of_nat (counts_product b 0 nv) ->
  (forall i, In i rows_left -> (i < nv)%nat) ->
  NoDup rows_left ->
  exists K,
    fill_knotaverages (mu_vectors b nv) (one_vectors b nv) nv rows_left w
    = (Return tt, mkWorld (with_knotaverages (self w) K) (trace w))
    /\ rows K = rows (knotaverages (self w))
    /\ cols K = cols (knotaverages (self w))
    /\ (forall i j, In i rows_left -> (j < counts_product b 0 nv)%nat ->
          coeff K i j = coeff (mu_ext_matrix b nv i) j 0)
    /\ (forall i j, ~ In i rows_left ->
          coeff K i j = coeff (knotaverages (self w)) i j).
Proof.
  intros Hb Htotal. revert w Hb.
  induction rows_left as [|i rest IH]; intros w Hb Hin Hnodup.
  - exists (knotaverages (self w)). simpl. unfold ret.
    repeat split; try tauto. destruct w as [[] ?]; reflexivity.
  - destruct (mu_ext_of_return i) as (Hmu & Hrows & _);
      [apply Hin; left; reflexivity|].
    apply NoDup_cons_iff in Hnodup as [Hnotin Hnodup'].
    set (K1 := set_block (knotaverages (self w)) i 0 1
                 (Z.to_nat (Z.of_nat (counts_product b 0 nv)))
                 (transpose (mu_ext_matrix b nv i))).
    set (w1 := mkWorld (with_knotaverages (self w) K1) (trace w)).
    destruct (IH w1) as (K & Hrun & HrK & HcK & Hset & Hkeep);
      [exact Hb | intros; apply Hin; right; assumption | assumption |].
    exists K. cbn [fill_knotaverages].
    rewrite Hmu, bind_lift_return, bind_this, Hb.
    rewrite Htotal, Hrows, Z.eqb_refl, bind_assert_true, bind_update.
    fold K1. fold w1.
    rewrite Hrun. split; [reflexivity|].
    split; [exact HrK|]. split; [exact HcK|]. split.
    + intros i' j [<- | Hi'] Hj.
      * rewrite Hkeep by exact Hnotin. unfold w1, K1. simpl.
        rewrite Nat2Z.id, Nat.leb_refl.
        rewrite (proj2 (Nat.ltb_lt i (i + 1))) by lia.
        rewrite (proj2 (Nat.ltb_lt j _)) by lia. simpl.
        rewrite Nat.sub_diag, Nat.sub_0_r. reflexivity.
      * apply Hset; assumption.
    + intros i' j Hnot. rewrite Hkeep by (intros Hc; apply Hnot; right; exact Hc).
      unfold w1, K1. simpl.
      destruct (Nat.leb_spec i i'); simpl; [|reflexivity].
      destruct (Nat.ltb_spec i' (i + 1)); simpl; [|reflexivity].
      exfalso. apply Hnot. left. lia.
Qed.
End KnotAverageRows.

Lemma computeKnotAverages_return (w : World) :
  let s := self w in
  let b := basis s in
  let nv := Z.to_nat (numVariables s) in
  (forall x, dmul d1 x = x) ->
  (forall x, dmul x d1 = x) ->
  0 <= numVariables s ->
  knots_cover b nv ->
  numBasisFunctions b = Z.of_nat (counts_product b 0 nv) ->
  exists K,
    computeKnotAverages w = (Return tt, mkWorld (with_knotaverages s K) (trace w))
    /\ Z.of_nat (rows K) = numVariables s
    /\ Z.of_nat (cols K) = numBasisFunctions b
    /\ forall i j, (i < nv)%nat -> (j < cols K)%nat ->
         coeff K i j
         = knot_mean (getKnotVector b i) (getBasisDegree b i)
             (mixed_radix_digit b nv i j).
Proof.
  intros s b nv Hl Hr Hnv Hcover Htotal.
  unfold computeKnotAverages. rewrite bind_this. fold s b nv.
  rewrite (omap_return _ (mu_vector b) (seq 0 nv))
    by (intros i Hi; apply in_seq in Hi;
        apply (knot_averages_of_return b nv); [exact Hcover | simpl in Hi; apply Hi]).
  fold (mu_vectors b nv). rewrite bind_lift_return.
  rewrite (omap_return _ (fun i => ones (rows (mu_vector b i))) (seq 0 nv)).
  2:{ intros i Hi. apply in_seq in Hi. unfold mu_vectors.
      rewrite vector_at_map_seq by lia. reflexivity. }
  fold (one_vectors b nv). rewrite bind_lift_return, bind_update.
  set (w0 := mkWorld _ (trace w)).
  destruct (fill_knotaverages_return b nv Hl Hr (seq 0 nv) w0)
    as (K & Hrun & HrK & HcK & Hset & _);
    [reflexivity | exact Htotal | intros i Hi; apply in_seq in Hi; lia
     | apply seq_NoDup |].
  rewrite (bind_run_return _ _ w0 tt _ Hrun), bind_this.
  simpl in HrK, HcK. cbn [self trace with_knotaverages knotaverages numVariables basis].
  fold s b.
  assert (HrowsK : Z.of_nat (rows K) = numVariables s)
    by (rewrite HrK; unfold nv; lia).
  assert (HcolsK : Z.of_nat (cols K) = numBasisFunctions b)
    by (rewrite HcK; change (basis (self w)) with b;
        rewrite Htotal, Nat2Z.id; reflexivity).
  rewrite HrowsK, HcolsK, !Z.eqb_refl. cbn [andb]. rewrite bind_assert_true.
  exists K. split; [reflexivity|]. split; [exact HrowsK|]. split; [exact HcolsK|].
  intros i j Hi Hj.
  assert (Hj' : (j < counts_product b 0 nv)%nat) by lia.
  rewrite Hset by (try apply in_seq; lia).
  destruct (mu_ext_of_return b nv Hl Hr i Hi) as (_ & _ & Hentry).
  apply Hentry, Hj'.
Qed.

(** ** Decoding *)

Lemma read_digits_none (str : string) (acc : Z) :
  snd (read_digits str acc) = 0%nat <->
  match str with
  | String c _ => digit_value c = None
  | EmptyString => True
  end.
Proof.
  destruct str as [|c rest]; cbn [read_digits snd]; [tauto|].
  destruct (digit_value c) as [d|].
  - destruct (read_digits rest (10 * acc + d)) as [v n]. cbn [snd].
    split; intros Hx; discriminate Hx.
  - cbn [snd]. tauto.
Qed.

Lemma strtol_parts (str : string) :
  strtol str =
  let nspace := skip_space str in
  let nsign := match advance nspace str with
               | String "-" _ => 1%nat
               | String "+" _ => 1%nat
               | _ => 0%nat
               end in
  let ndigits := snd (read_digits (after_sign str) 0) in
  if (ndigits =? 0)%nat then mkConversion 0 0 false
  else
    let v := number_value str in
    let e := (nspace + nsign + ndigits)%nat in
    if v >? LONG_MAX then mkConversion LONG_MAX e true
    else if v <? LONG_MIN then mkConversion LONG_MIN e true
    else mkConversion v e false.
Proof.
  unfold strtol, number_value, after_sign, is_negative.
  destruct (advance (skip_space str) str) as [|c rest] eqn:Hs1.
  - simpl. reflexivity.
  - destruct (Ascii.eqb_spec c "-") as [-> | Hminus].
    + simpl. destruct (read_digits rest 0) as [v n]. reflexivity.
    + destruct (Ascii.eqb_spec c "+") as [-> | Hplus].
      * simpl. destruct (read_digits rest 0) as [v n]. reflexivity.
      * assert (Hc : (match String c rest with
                      | String "-" _ => (true, 1%nat)
                      | String "+" _ => (false, 1%nat)
                      | _ => (false, 0%nat)
                      end) = (false, 0%nat)).
        { destruct c as [[] [] [] [] [] [] [] []]; try reflexivity;
            exfalso; auto. }
        assert (Hr : (match String c rest with
                      | String "-" r => r
                      | String "+" r => r
                      | _ => String c rest
                      end) = String c rest).
        { destruct c as [[] [] [] [] [] [] [] []]; try reflexivity;
            exfalso; auto. }
        assert (Hn : (match String c rest with
                      | String "-" _ => true
                      | _ => false
                      end) = false).
        { destruct c as [[] [] [] [] [] [] [] []]; try reflexivity;
            exfalso; auto. }
        assert (Hg : (match String c rest with
                      | String "-" _ => 1%nat
                      | String "+" _ => 1%nat
                      | _ => 0%nat
                      end) = 0%nat).
        { destruct c as [[] [] [] [] [] [] [] []]; try reflexivity;
            exfalso; auto. }
        rewrite Hc, Hr, Hn, Hg. cbn [advance].
        destruct (read_digits (String c rest) 0) as [v n]. reflexivity.
Qed.

Lemma no_number_no_digits (str : string) :
  starts_with_number str = false <-> snd (read_digits (after_sign str) 0) = 0%nat.
Proof.
  rewrite read_digits_none. unfold starts_with_number.
  destruct (after_sign str) as [|c rest]; [tauto|].
  destruct (digit_value c); split; intros; congruence.
Qed.

Lemma checked_strtol_no_number (str : string) :
  starts_with_number str = false ->
  checked_strtol str = Throw (invalid_argument "strtol").
Proof.
  intros Hno. apply no_number_no_digits in Hno.
  unfold checked_strtol. rewrite strtol_parts. cbv zeta. rewrite Hno. reflexivity.
Qed.

Lemma checked_strtol_number (str : string) :
  starts_with_number str = true ->
  (number_value str < INT_MIN \/ INT_MAX < number_value str ->
     checked_strtol str = Throw (out_of_range "strtol"))
  /\ (INT_MIN <= number_value str <= INT_MAX ->
     exists nextStr, checked_strtol str = Return (number_value str, nextStr)).
Proof.
  intros Hnum.
  assert (Hd : snd (read_digits (after_sign str) 0) <> 0%nat).
  { intros Hz. apply no_number_no_digits in Hz. congruence. }
  unfold checked_strtol. rewrite strtol_parts. cbv zeta.
  destruct (Nat.eqb_spec (snd (read_digits (after_sign str) 0)) 0) as [|_];
    [contradiction|].
  set (e := (_ + _ + snd _)%nat).
  assert (He : (e =? 0)%nat = false) by (apply Nat.eqb_neq; unfold e; lia).
  unfold INT_MIN, INT_MAX, LONG_MAX, LONG_MIN in *.
  split.
  - intros Hout.
    destruct (Z.gtb_spec (number_value str) 9223372036854775807);
      [simpl; rewrite He; reflexivity|].
    destruct (Z.ltb_spec (number_value str) (-9223372036854775808));
      [simpl; rewrite He; reflexivity|].
    simpl. rewrite He.
    destruct (Z.ltb_spec (number_value str) (-2147483648));
      destruct (Z.gtb_spec (number_value str) 2147483647);
      simpl; try reflexivity; lia.
  - intros Hin.
    destruct (Z.gtb_spec (number_value str) 9223372036854775807); [lia|].
    destruct (Z.ltb_spec (number_value str) (-9223372036854775808)); [lia|].
    simpl. rewrite He.
    destruct (Z.ltb_spec (number_value str) (-2147483648)); [lia|].
    destruct (Z.gtb_spec (number_value str) 2147483647); [lia|].
    simpl. eexists. reflexivity.
Qed.

Lemma checked_strtod_cases (str : string) :
  (conv_end (strtod str) = 0%nat ->
     checked_strtod str = Throw (invalid_argument "strtod"))
  /\ (conv_end (strtod str) <> 0%nat -> conv_erange (strtod str) = true ->
     checked_strtod str = Throw (out_of_range "strtod"))
  /\ (conv_end (strtod str) <> 0%nat -> conv_erange (strtod str) = false ->
     checked_strtod str
     = Return (conv_value (strtod str), advance (conv_end (strtod str)) str)).
Proof.
  unfold checked_strtod.
  destruct (Nat.eqb_spec (conv_end (strtod str)) 0) as [Hz | Hnz].
  - split; [reflexivity|]. split; intros; contradiction.
  - split; [intros; contradiction|].
    split; intros _ H2; rewrite H2; reflexivity.
Qed.

Lemma load_line_significant l line w :
  significant line ->
  load_line l line w =
  (if state l =? 0 then
    bind (lift (checked_strtol line)) (fun r =>
    bind (update (fun s => with_numVariables s (to_uint (fst r)))) (fun _ =>
    ret (mkLocals (basisDegrees l) (knotVectors l) (cRows l) (cCols l) (cRowIdx l)
           (basisNum l) (knotVecLength l) 1, false)))
  else if state l =? 1 then
    bind (lift (checked_strtol line)) (fun r =>
    let '(curDegree, nextStr) := r in
    bind (assert (curDegree >? 0) "curDegree > 0") (fun _ =>
    bind (lift (checked_strtol nextStr)) (fun r =>
    ret (mkLocals (basisDegrees l ++ [to_uint curDegree]) (knotVectors l) (cRows l)
           (cCols l) (cRowIdx l) (basisNum l) (fst r) 2, false))))
  else if state l =? 2 then
    bind (lift (read_knots (Z.to_nat (knotVecLength l)) line)) (fun kv =>
    bind this_object (fun s =>
    let basisNum' := basisNum l + 1 in
    ret (mkLocals (basisDegrees l) (knotVectors l ++ [kv]) (cRows l) (cCols l)
           (cRowIdx l) basisNum' (knotVecLength l)
           (if to_uint basisNum' >=? numVariables s then 3 else 1), false)))
  else if state l =? 3 then
    bind (lift (checked_strtol line)) (fun r =>
    let '(cRows', nextStr) := r in
    bind (lift (checked_strtol nextStr)) (fun r =>
    let cCols' := fst r in
    bind (update (fun s => with_coefficients s
                             (resized (Z.to_nat cRows') (Z.to_nat cCols')))) (fun _ =>
    ret (mkLocals (basisDegrees l) (knotVectors l) cRows' cCols' (cRowIdx l)
           (basisNum l) (knotVecLength l) 4, false))))
  else if state l =? 4 then
    bind (read_row (cRowIdx l) 0 (Z.to_nat (cCols l)) line) (fun _ =>
    let cRowIdx' := cRowIdx l + 1 in
    ret (mkLocals (basisDegrees l) (knotVectors l) (cRows l) (cCols l) cRowIdx'
           (basisNum l) (knotVecLength l) (state l), cRowIdx' >? cRows l))
  else ret (l, false)) w.
Proof.
  intros (c & rest & -> & Hc). unfold load_line, string_at. cbn [String.get].
  rewrite bind_lift_return.
  destruct (Ascii.eqb_spec c "#"); [contradiction | reflexivity].
Qed.

(** The order of the states: a line that is decoded moves the decoder
    from the variable count to a degree line, from there to the knot
    line, from there to the next degree line or to the matrix size, and
    from there to the matrix rows. *)
Lemma load_line_next_state l line w l' brk w' :
  significant line ->
  load_line l line w = (Return (l', brk), w') ->
  (state l = 0 -> state l' = 1)
  /\ (state l = 1 -> state l' = 2)
  /\ (state l = 2 -> state l' = 1 \/ state l' = 3)
  /\ (state l = 3 -> state l' = 4)
  /\ (state l = 4 -> state l' = 4).
Proof.
  intros Hsig Hrun. rewrite (load_line_significant _ _ _ Hsig) in Hrun.
  destruct (Z.eqb_spec (state l) 0) as [Hs0|Hs0].
  { apply bind_returns in Hrun as (r & w1 & _ & Hrun).
    apply bind_returns in Hrun as (? & w2 & _ & Hrun).
    injection Hrun as <- _ _. simpl. repeat split; intros; try lia. }
  destruct (Z.eqb_spec (state l) 1) as [Hs1|Hs1].
  { apply bind_returns in Hrun as ([d nx] & w1 & _ & Hrun).
    apply bind_returns in Hrun as (? & w2 & _ & Hrun).
    apply bind_returns in Hrun as (? & w3 & _ & Hrun).
    injection Hrun as <- _ _. simpl. repeat split; intros; try lia. }
  destruct (Z.eqb_spec (state l) 2) as [Hs2|Hs2].
  { apply bind_returns in Hrun as (kv & w1 & _ & Hrun).
    apply bind_returns in Hrun as (s & w2 & _ & Hrun).
    injection Hrun as <- _ _. simpl.
    repeat split; intros; try lia.
    destruct (_ >=? _); [right | left]; reflexivity. }
  destruct (Z.eqb_spec (state l) 3) as [Hs3|Hs3].
  { apply bind_returns in Hrun as ([r nx] & w1 & _ & Hrun).
    apply bind_returns in Hrun as (? & w2 & _ & Hrun).
    apply bind_returns in Hrun as (? & w3 & _ & Hrun).
    injection Hrun as <- _ _. simpl. repeat split; intros; try lia. }
  destruct (Z.eqb_spec (state l) 4) as [Hs4|Hs4].
  { apply bind_returns in Hrun as (? & w1 & _ & Hrun).
    injection Hrun as <- _ _. simpl. repeat split; intros; try lia. }
  injection Hrun as <- _ _. repeat split; intros; lia.
Qed.

Lemma load_lines_reaches l0 w0 pre l w post :
  reaches l0 w0 pre l w ->
  load_lines l0 (pre ++ post) w0 = load_lines l post w.
Proof.
  intros Hreach. revert post.
  induction Hreach as [|pre line l w l' w' _ IH Hline]; intros post; [reflexivity|].
  rewrite <- app_assoc. simpl. rewrite IH. simpl.
  unfold bind at 1. rewrite Hline. reflexivity.
Qed.

(** An exception on any line leaves [load] by that exception. *)
Lemma load_stops_at_error w pre line post l w1 e w2 :
  reaches load_start w pre l w1 ->
  load_line l line w1 = (Throw e, w2) ->
  load (pre ++ line :: post) w = (Throw e, w2).
Proof.
  intros Hreach Hline. unfold load.
  apply bind_run_throw. rewrite (load_lines_reaches _ _ _ _ _ _ Hreach).
  simpl. unfold bind at 1. rewrite Hline. reflexivity.
Qed.

Lemma read_knots_read_doubles (n : nat) (str : string) :
  read_knots n str
  = match read_doubles n str with
    | (knots, None) => Return knots
    | (_, Some e) => Throw e
    end.
Proof.
  revert str. induction n as [|n IH]; intros str; [reflexivity|].
  cbn [read_knots read_doubles].
  destruct (checked_strtod str) as [[v nextStr]|e]; [|reflexivity].
  cbn [obind]. rewrite IH.
  destruct (read_doubles n nextStr) as [vs [e|]]; reflexivity.
Qed.

Lemma read_row_read_doubles (row : Z) (n : nat) :
  forall (i : nat) (str : string) (w : World),
    read_row row i n str w
    = (match snd (read_doubles n str) with
       | None => Return tt
       | Some e => Throw e
       end,
       mkWorld (with_coefficients (self w)
                  (row_written (coefficients (self w)) (Z.to_nat row) i
                     (fst (read_doubles n str))))
         (trace w)).
Proof.
  induction n as [|n IH]; intros i str w.
  - cbn [read_row read_doubles fst snd row_written]. unfold ret.
    destruct w as [[b C K nv] t]. reflexivity.
  - cbn [read_row read_doubles].
    destruct (checked_strtod str) as [[v nextStr]|e].
    + rewrite bind_lift_return. unfold write_coefficient. rewrite bind_update.
      rewrite IH.
      destruct (read_doubles n nextStr) as [vs failure].
      cbn [fst snd row_written self trace with_coefficients coefficients].
      destruct w as [[b C K nv] t]. reflexivity.
    + cbn [fst snd row_written]. destruct w as [[b C K nv] t]. reflexivity.
Qed.

Lemma load_line_decodes (l : load_locals) (line : string) (w : World) :
  significant line -> load_line l line w = decode_line l line w.
Proof.
  intros Hsig. rewrite (load_line_significant _ _ _ Hsig).
  unfold decode_line, read_line.
  destruct (state l =? 0).
  { destruct (checked_strtol line) as [[n nextStr]|e]; reflexivity. }
  destruct (state l =? 1).
  { destruct (checked_strtol line) as [[d nextStr]|e]; [|reflexivity].
    rewrite bind_lift_return.
    destruct (d >? 0); [|reflexivity].
    rewrite bind_assert_true.
    destruct (checked_strtol nextStr) as [[k nextStr']|e]; reflexivity. }
  destruct (state l =? 2).
  { unfold bind at 1, lift. rewrite read_knots_read_doubles.
    destruct (read_doubles (Z.to_nat (knotVecLength l)) line) as [vs [e|]];
      reflexivity. }
  destruct (state l =? 3).
  { destruct (checked_strtol line) as [[r nextStr]|e]; [|reflexivity].
    rewrite bind_lift_return.
    destruct (checked_strtol nextStr) as [[c nextStr']|e]; reflexivity. }
  destruct (state l =? 4).
  { unfold bind at 1. rewrite read_row_read_doubles.
    destruct (read_doubles (Z.to_nat (cCols l)) line) as [vs [e|]]; reflexivity. }
  destruct w as [[b C K nv] t]. reflexivity.
Qed.

(** The decoder throws on a line exactly when the reading of its numbers
    fails, and then by the error of that reading. *)
Lemma load_line_throws_as_read (l : load_locals) (line : string) (w : World)
    (e : cxx_error) :
  significant line ->
  (exists w2, load_line l line w = (Throw e, w2)) <-> snd (read_line l line) = Some e.
Proof.
  intros Hsig. rewrite (load_line_decodes l line w Hsig). unfold decode_line.
  destruct (read_line l line) as [ns [e'|]]; cbn [snd];
    destruct (store_line l ns w) as [next w']; split.
  - intros (w2 & Heq). injection Heq as -> _. reflexivity.
  - intros Heq. injection Heq as ->. eexists. reflexivity.
  - intros (w2 & Heq). discriminate Heq.
  - intros Heq. discriminate Heq.
Qed.

(** C8, as the code has it.  Decoding runs through its states in order,
    a significant line at a time, and on each line it is the reading of
    the numbers of the state followed by their storing: every number is
    read where the one before it ended, the degree is checked to be
    positive before the length behind it is read, and the doubles are as
    many as the count read on the line before.  [load_line] throws
    exactly when one of these readings fails, by the error of that
    reading, which ends [load]; a reading fails when the text at its
    position, behind white space and sign, does not begin with a number
    ([invalid_argument]), begins with an integer outside [int], or holds
    a double on which [strtod] reports a range error ([out_of_range]).
    What is stored is what was read.  Text behind the last number read on
    a line is not looked at. *)
Theorem decoding_raises_on_unreadable_number
    (l : load_locals) (line : string) (w : World) :
  significant line ->
  load_line l line w = decode_line l line w
  /\ (forall e, (exists w2, load_line l line w = (Throw e, w2))
                <-> snd (read_line l line) = Some e)
  /\ (forall l' brk w',
      load_line l line w = (Return (l', brk), w') ->
      (state l = 0 -> state l' = 1)
      /\ (state l = 1 -> state l' = 2)
      /\ (state l = 2 -> state l' = 1 \/ state l' = 3)
      /\ (state l = 3 -> state l' = 4)
      /\ (state l = 4 -> state l' = 4))
  /\ (forall str,
      (starts_with_number str = false ->
         checked_strtol str = Throw (invalid_argument "strtol"))
      /\ (starts_with_number str = true ->
          number_value str < INT_MIN \/ INT_MAX < number_value str ->
          checked_strtol str = Throw (out_of_range "strtol"))
      /\ (starts_with_number str = true ->
          INT_MIN <= number_value str <= INT_MAX ->
          exists nextStr, checked_strtol str = Return (number_value str, nextStr)))
  /\ (forall str,
      (conv_end (strtod str) = 0%nat ->
         checked_strtod str = Throw (invalid_argument "strtod"))
      /\ (conv_end (strtod str) <> 0%nat -> conv_erange (strtod str) = true ->
          checked_strtod str = Throw (out_of_range "strtod"))
      /\ (conv_end (strtod str) <> 0%nat -> conv_erange (strtod str) = false ->
          checked_strtod str
          = Return (conv_value (strtod str), advance (conv_end (strtod str)) str)))
  /\ (forall w0 pre post e w2,
      reaches load_start w0 pre l w ->
      load_line l line w = (Throw e, w2) ->
      load (pre ++ line :: post) w0 = (Throw e, w2)).
Proof.
  intros Hsig.
  split; [apply load_line_decodes, Hsig|].
  split; [intros e; apply load_line_throws_as_read, Hsig|].
  split; [intros l' brk w' Hrun; eapply load_line_next_state; eassumption|].
  split.
  { intros str. split; [apply checked_strtol_no_number|].
    split; intros Hnum; apply (checked_strtol_number str Hnum). }
  split; [intros str; apply checked_strtod_cases|].
  intros w0 pre post e w2. apply load_stops_at_error.
Qed.

End SurfaceFacts.

(** * Further properties *)

Lemma read_digits_end (rest : string) (acc : Z) :
  no_digit_ahead rest -> read_digits rest acc = (acc, 0%nat).
Proof.
  destruct rest as [|c r]; [reflexivity|]. cbn [no_digit_ahead read_digits].
  intros ->. reflexivity.
Qed.

Lemma read_digits_uint (d : Decimal.uint) (rest : string) :
  no_digit_ahead rest ->
  forall acc,
    read_digits (NilEmpty.string_of_uint d ++ rest) acc
    = (uint_value d acc, String.length (NilEmpty.string_of_uint d)).
Proof.
  intros Hrest.
  induction d as [|d IH|d IH|d IH|d IH|d IH|d IH|d IH|d IH|d IH|d IH]; intros acc;
    [apply read_digits_end; exact Hrest|..];
    cbn [NilEmpty.string_of_uint String.append String.length uint_value];
    cbn [read_digits];
    match goal with
    | |- context [digit_value ?c] =>
        change (digit_value c) with (Some (Z.of_nat (nat_of_ascii c - 48)))
    end;
    cbv beta iota; rewrite IH; reflexivity.
Qed.

Lemma uint_value_acc (d : Decimal.uint) :
  forall p, uint_value d (Z.pos p) = Z.pos (Pos.of_uint_acc d p).
Proof.
  induction d as [|d IH|d IH|d IH|d IH|d IH|d IH|d IH|d IH|d IH|d IH]; intros p;
    cbn [uint_value Pos.of_uint_acc]; [reflexivity|..];
    rewrite <- IH; f_equal; lia.
Qed.

Lemma uint_value_0 (d : Decimal.uint) : uint_value d 0 = Z.of_N (Pos.of_uint d).
Proof.
  induction d as [|d IH|d IH|d IH|d IH|d IH|d IH|d IH|d IH|d IH|d IH];
    cbn [uint_value Pos.of_uint Z.of_N]; [reflexivity | exact IH |..];
    rewrite <- uint_value_acc; reflexivity.
Qed.

Lemma uint_value_to_uint (p : positive) : uint_value (Pos.to_uint p) 0 = Z.pos p.
Proof. rewrite uint_value_0, DecimalPos.Unsigned.of_to. reflexivity. Qed.

(** ** Integers written and read back *)

Lemma advance_length (s rest : string) : advance (String.length s) (s ++ rest) = rest.
Proof. induction s as [|c s IH]; [destruct rest; reflexivity | exact IH]. Qed.

(** [strtol] on a text that begins with a digit: no white space and no
    sign are passed. *)
Lemma strtol_digit_first (c : ascii) (tail : string) :
  digit_value c <> None ->
  strtol (String c tail)
  = let '(magnitude, ndigits) := read_digits (String c tail) 0 in
    if (ndigits =? 0)%nat then mkConversion 0 0 false
    else if magnitude >? LONG_MAX then mkConversion LONG_MAX ndigits true
    else if magnitude <? LONG_MIN then mkConversion LONG_MIN ndigits true
    else mkConversion magnitude ndigits false.
Proof.
  destruct c as [[] [] [] [] [] [] [] []]; intros Hd;
    try (exfalso; apply Hd; reflexivity); reflexivity.
Qed.

Lemma strtol_minus_first (tail : string) :
  strtol (String "-" tail)
  = let '(magnitude, ndigits) := read_digits tail 0 in
    if (ndigits =? 0)%nat then mkConversion 0 0 false
    else if - magnitude >? LONG_MAX then mkConversion LONG_MAX (S ndigits) true
    else if - magnitude <? LONG_MIN then mkConversion LONG_MIN (S ndigits) true
    else mkConversion (- magnitude) (S ndigits) false.
Proof. reflexivity. Qed.

Lemma string_of_uint_digit_first (d : Decimal.uint) :
  d <> Decimal.Nil ->
  exists c tail, NilEmpty.string_of_uint d = String c tail /\ digit_value c <> None.
Proof.
  destruct d; intros Hd; [contradiction|..];
    cbn [NilEmpty.string_of_uint]; eexists _, _; (split; [reflexivity | discriminate]).
Qed.

Lemma strtol_uint (d : Decimal.uint) (rest : string) :
  d <> Decimal.Nil -> no_digit_ahead rest ->
  LONG_MIN <= uint_value d 0 <= LONG_MAX ->
  strtol (NilEmpty.string_of_uint d ++ rest)
  = mkConversion (uint_value d 0) (String.length (NilEmpty.string_of_uint d)) false.
Proof.
  intros Hd Hrest Hrange.
  destruct (string_of_uint_digit_first d Hd) as (c & tail & Hs & Hc).
  pose proof (read_digits_uint d rest Hrest 0) as Hread.
  rewrite Hs in *. cbn [String.append] in *.
  rewrite (strtol_digit_first c _ Hc), Hread. cbn [String.length Nat.eqb].
  destruct (Z.gtb_spec (uint_value d 0) LONG_MAX); [lia|].
  destruct (Z.ltb_spec (uint_value d 0) LONG_MIN); [lia|]. reflexivity.
Qed.

Lemma show_Z_pos (p : positive) :
  show_Z (Z.pos p) = NilEmpty.string_of_uint (Pos.to_uint p).
Proof.
  unfold show_Z. cbn [Z.to_int NilZero.string_of_int]. unfold NilZero.string_of_uint.
  pose proof (DecimalPos.Unsigned.to_uint_nonnil p) as Hn.
  destruct (Pos.to_uint p); [contradiction|..]; reflexivity.
Qed.

Lemma show_Z_neg (p : positive) :
  show_Z (Z.neg p) = String "-" (NilEmpty.string_of_uint (Pos.to_uint p)).
Proof.
  unfold show_Z. cbn [Z.to_int NilZero.string_of_int]. unfold NilZero.string_of_uint.
  pose proof (DecimalPos.Unsigned.to_uint_nonnil p) as Hn.
  destruct (Pos.to_uint p); [contradiction|..]; reflexivity.
Qed.

(** [strtol] reads back what the stream wrote for an integer in the
    range of [long], and stops behind it. *)
Lemma strtol_show_Z (z : Z) (rest : string) :
  LONG_MIN <= z <= LONG_MAX -> no_digit_ahead rest ->
  strtol (show_Z z ++ rest) = mkConversion z (String.length (show_Z z)) false
  /\ String.length (show_Z z) <> 0%nat.
Proof.
  intros Hrange Hrest. destruct z as [|p|p].
  - split; [|discriminate].
    change (show_Z 0) with "0"%string. cbn [String.append].
    rewrite strtol_digit_first by discriminate.
    cbn [read_digits]. change (digit_value "0") with (Some 0).
    cbv beta iota. rewrite (read_digits_end rest _ Hrest). reflexivity.
  - rewrite show_Z_pos. pose proof (uint_value_to_uint p) as Hv.
    split.
    + rewrite strtol_uint; [rewrite Hv; reflexivity | apply DecimalPos.Unsigned.to_uint_nonnil
                            | exact Hrest | rewrite Hv; exact Hrange].
    + destruct (string_of_uint_digit_first _ (DecimalPos.Unsigned.to_uint_nonnil p))
        as (c & tail & Hs & _). rewrite Hs. discriminate.
  - rewrite show_Z_neg. pose proof (uint_value_to_uint p) as Hv.
    split; [|discriminate].
    cbn [String.append]. rewrite strtol_minus_first.
    rewrite (read_digits_uint _ rest Hrest 0), Hv.
    destruct (string_of_uint_digit_first _ (DecimalPos.Unsigned.to_uint_nonnil p))
      as (c & tail & Hs & _). rewrite Hs. cbn [String.length Nat.eqb].
    change (- Z.pos p) with (Z.neg p).
    destruct (Z.gtb_spec (Z.neg p) LONG_MAX); [lia|].
    destruct (Z.ltb_spec (Z.neg p) LONG_MIN); [lia|]. reflexivity.
Qed.

Lemma checked_strtol_show_Z (n : Z) (rest : string) :
  INT_MIN <= n <= INT_MAX -> no_digit_ahead rest ->
  checked_strtol (show_Z n ++ rest) = Return (n, rest).
Proof.
  intros Hrange Hrest.
  destruct (strtol_show_Z n rest) as (Hconv & Hlen); [|exact Hrest|].
  { unfold INT_MIN, INT_MAX, LONG_MIN, LONG_MAX in *. lia. }
  unfold checked_strtol. rewrite Hconv. cbn [conv_end conv_value conv_erange].
  destruct (Nat.eqb_spec (String.length (show_Z n)) 0); [contradiction|].
  destruct (Z.ltb_spec n INT_MIN); [lia|].
  destruct (Z.gtb_spec n INT_MAX); [lia|].
  cbn [orb]. rewrite advance_length. reflexivity.
Qed.

(** An integer outside [int] that was written is refused when read. *)
Lemma checked_strtol_show_Z_out (n : Z) (rest : string) :
  LONG_MIN <= n <= LONG_MAX -> n < INT_MIN \/ INT_MAX < n -> no_digit_ahead rest ->
  checked_strtol (show_Z n ++ rest) = Throw (out_of_range "strtol").
Proof.
  intros Hlong Hout Hrest.
  destruct (strtol_show_Z n rest Hlong Hrest) as (Hconv & Hlen).
  unfold checked_strtol. rewrite Hconv. cbn [conv_end conv_value conv_erange].
  destruct (Nat.eqb_spec (String.length (show_Z n)) 0); [contradiction|].
  destruct (Z.ltb_spec n INT_MIN); [reflexivity|].
  destruct (Z.gtb_spec n INT_MAX); [reflexivity|]. lia.
Qed.

(** X1.  What the stream writes for an integer, [checked_strtol] reads
    back: in front of a text that does not go on with a digit, the written
    form of [n] gives [n] and the pointer to that text when [n] is an
    [int], and [out_of_range] when [n] is a [long] outside [int]. *)
Theorem checked_strtol_reads_written_int (n : Z) (rest : string) :
  no_digit_ahead rest ->
  (INT_MIN <= n <= INT_MAX ->
     checked_strtol (show_Z n ++ rest) = Return (n, rest))
  /\ (LONG_MIN <= n <= LONG_MAX -> n < INT_MIN \/ INT_MAX < n ->
     checked_strtol (show_Z n ++ rest) = Throw (out_of_range "strtol")).
Proof.
  intros Hrest. split.
  - intros Hrange. apply checked_strtol_show_Z; assumption.
  - intros Hlong Hout. apply checked_strtol_show_Z_out; assumption.
Qed.

(** ** Lines of numbers *)

Lemma append_empty_r (s : string) : (s ++ "")%string = s.
Proof. induction s as [|c s IH]; [reflexivity|]. cbn [String.append]. rewrite IH. reflexivity. Qed.

Lemma append_append (a b c : string) : ((a ++ b) ++ c)%string = (a ++ (b ++ c))%string.
Proof. induction a as [|x a IH]; [reflexivity|]. cbn [String.append]. rewrite IH. reflexivity. Qed.

(** Concatenation with the empty separator. *)
Lemma concat_no_separator (l : list string) :
  String.concat "" l = fold_right String.append ""%string l.
Proof.
  induction l as [|x l IH]; [reflexivity|]. cbn [fold_right].
  destruct l as [|y l]; [cbn [String.concat fold_right]; rewrite append_empty_r; reflexivity|].
  rewrite <- IH. reflexivity.
Qed.

(** [strtol] passes a leading blank. *)
Lemma strtol_space_first (tail : string) :
  strtol (String " " tail)
  = let r := strtol tail in
    if (conv_end r =? 0)%nat then mkConversion 0 0 false
    else mkConversion (conv_value r) (S (conv_end r)) (conv_erange r).
Proof.
  unfold strtol.
  change (skip_space (String " " tail)) with (S (skip_space tail)).
  change (advance (S (skip_space tail)) (String " " tail))
    with (advance (skip_space tail) tail).
  destruct (match advance (skip_space tail) tail with
            | String "-" _ => (true, 1%nat)
            | String "+" _ => (false, 1%nat)
            | _ => (false, 0%nat)
            end) as [negative nsign].
  destruct (read_digits (advance nsign (advance (skip_space tail) tail)) 0)
    as [magnitude ndigits].
  destruct ndigits as [|ndigits]; [reflexivity|].
  cbn [Nat.eqb].
  assert (E : (skip_space tail + nsign + S ndigits =? 0)%nat = false)
    by (apply Nat.eqb_neq; lia).
  destruct (_ >? LONG_MAX);
    [cbn [conv_end conv_value conv_erange]; rewrite E; reflexivity|].
  destruct (_ <? LONG_MIN);
    cbn [conv_end conv_value conv_erange]; rewrite E; reflexivity.
Qed.

Lemma checked_strtol_space_show_Z (n : Z) (rest : string) :
  INT_MIN <= n <= INT_MAX -> no_digit_ahead rest ->
  checked_strtol (String " " (show_Z n ++ rest)) = Return (n, rest).
Proof.
  intros Hrange Hrest.
  destruct (strtol_show_Z n rest) as (Hconv & Hlen); [|exact Hrest|].
  { unfold INT_MIN, INT_MAX, LONG_MIN, LONG_MAX in *. lia. }
  unfold checked_strtol. rewrite strtol_space_first, Hconv.
  cbn [conv_end conv_value conv_erange].
  destruct (Nat.eqb_spec (String.length (show_Z n)) 0); [contradiction|].
  cbn [conv_end conv_value conv_erange Nat.eqb].
  destruct (Z.ltb_spec n INT_MIN); [lia|].
  destruct (Z.gtb_spec n INT_MAX); [lia|].
  cbn [orb advance]. rewrite advance_length. reflexivity.
Qed.

(** The first character of a written integer that is not negative is a
    digit. *)
Lemma show_Z_digit_first (n : Z) :
  0 <= n -> exists c tail, show_Z n = String c tail /\ digit_value c <> None.
Proof.
  intros Hn. destruct n as [|p|p]; [| |lia].
  - exists "0"%char, ""%string. split; [reflexivity | discriminate].
  - rewrite show_Z_pos. apply string_of_uint_digit_first, DecimalPos.Unsigned.to_uint_nonnil.
Qed.

Lemma digit_is_no_comment_sign (c : ascii) :
  digit_value c <> None -> Ascii.eqb c "#" = false.
Proof.
  destruct c as [[] [] [] [] [] [] [] []]; intros Hd;
    try reflexivity; exfalso; apply Hd; reflexivity.
Qed.

(** ** The contract of [checked_strtol] *)

Lemma advance_empty (n : nat) : advance n "" = ""%string.
Proof. destruct n; reflexivity. Qed.

Lemma advance_add (a b : nat) (s : string) :
  advance (a + b) s = advance b (advance a s).
Proof.
  revert s. induction a as [|a IH]; intros s; [reflexivity|].
  destruct s as [|c s]; [cbn [Nat.add advance]; rewrite advance_empty; reflexivity|].
  apply IH.
Qed.

Lemma after_sign_advance (str : string) :
  after_sign str
  = advance (match advance (skip_space str) str with
             | String "-" _ => 1%nat
             | String "+" _ => 1%nat
             | _ => 0%nat
             end) (advance (skip_space str) str).
Proof.
  unfold after_sign. destruct (advance (skip_space str) str) as [|c r]; [reflexivity|].
  destruct c as [[] [] [] [] [] [] [] []]; reflexivity.
Qed.

Lemma read_digits_stops (s : string) :
  forall acc, no_digit_ahead (advance (snd (read_digits s acc)) s).
Proof.
  induction s as [|c s IH]; intros acc; [exact I|].
  cbn [read_digits]. destruct (digit_value c) as [d|] eqn:Hd.
  - specialize (IH (10 * acc + d)).
    destruct (read_digits s (10 * acc + d)) as [v n]. exact IH.
  - cbn [snd advance no_digit_ahead]. exact Hd.
Qed.

(** X2.  [checked_strtol] throws [invalid_argument] when the text,
    behind white space and one sign, does not begin with a digit, and
    [out_of_range] when the leading number is outside [int]; otherwise it
    returns that number and the text behind its digits, which does not go
    on with a digit. *)
Theorem checked_strtol_contract (str : string) :
  (starts_with_number str = false ->
     checked_strtol str = Throw (invalid_argument "strtol"))
  /\ (starts_with_number str = true ->
      number_value str < INT_MIN \/ INT_MAX < number_value str ->
      checked_strtol str = Throw (out_of_range "strtol"))
  /\ (starts_with_number str = true ->
      INT_MIN <= number_value str <= INT_MAX ->
      checked_strtol str = Return (number_value str, after_number str)
      /\ no_digit_ahead (after_number str)).
Proof.
  split; [apply checked_strtol_no_number|].
  split; [intros Hnum; apply (checked_strtol_number str Hnum)|].
  intros Hnum Hrange. split; [|apply read_digits_stops].
  assert (Hd : snd (read_digits (after_sign str) 0) <> 0%nat).
  { intros Hz. apply no_number_no_digits in Hz. congruence. }
  unfold checked_strtol. rewrite strtol_parts. cbv zeta.
  destruct (Nat.eqb_spec (snd (read_digits (after_sign str) 0)) 0) as [|_];
    [contradiction|].
  unfold INT_MIN, INT_MAX, LONG_MAX, LONG_MIN in *.
  destruct (Z.gtb_spec (number_value str) 9223372036854775807); [lia|].
  destruct (Z.ltb_spec (number_value str) (-9223372036854775808)); [lia|].
  cbn [conv_end conv_value conv_erange].
  match goal with
  | |- context [(?e =? 0)%nat] =>
      destruct (Nat.eqb_spec e 0) as [He|_]; [exfalso; lia|]
  end.
  destruct (Z.ltb_spec (number_value str) (-2147483648)); [lia|].
  destruct (Z.gtb_spec (number_value str) 2147483647); [lia|].
  cbn [orb]. f_equal. f_equal.
  unfold after_number. rewrite after_sign_advance at 3.
  rewrite <- !advance_add, Nat.add_assoc. reflexivity.
Qed.

Section MoreFacts.
Context `{BasisLayer} {DT : DoubleText} {LS : LinearSolvers}.

(** ** Domain reduction: the box and the support *)

Lemma reduceDomain_dim_covered lb ub sl su dim :
  covers_support lb ub sl su dim ->
  reduceDomain_dim lb ub (sl, su, false) dim = Return (sl, su, false).
Proof.
  intros (l & u & a & b & Hl & Hu & Ha & Hb & H1 & H2 & H3 & H4 & H5).
  unfold reduceDomain_dim, vector_at.
  rewrite Hl, Hu, Ha, Hb. cbn [obind].
  rewrite H1, H2, H3, H4, H5. reflexivity.
Qed.

Lemma reduceDomain_loop_covered lb ub sl su dims :
  (forall dim, In dim dims -> covers_support lb ub sl su dim) ->
  reduceDomain_loop lb ub (sl, su, false) dims = Return (sl, su, false).
Proof.
  induction dims as [|dim rest IH]; intros Hall; [reflexivity|].
  cbn [reduceDomain_loop].
  rewrite reduceDomain_dim_covered by (apply Hall; left; reflexivity).
  cbn [obind]. apply IH. intros d Hd. apply Hall. right. exact Hd.
Qed.

(** X3.  A proper box that contains the support in every dimension
    leaves the surface as it is: [reduceDomain] returns [true] and runs none
    of its steps, whatever the two flags. *)
Theorem reduceDomain_covering_box_is_identity
    (w : World) (lb ub : list double) (doRegularize doRefine : bool) :
  size lb = numVariables (self w) ->
  size ub = numVariables (self w) ->
  (forall dim, (dim < Z.to_nat (numVariables (self w)))%nat ->
     covers_support lb ub (getSupportLowerBound (basis (self w)))
       (getSupportUpperBound (basis (self w))) dim) ->
  reduceDomain lb ub doRegularize doRefine w = (Return true, w).
Proof.
  intros Hlb Hub Hall.
  unfold reduceDomain. rewrite bind_this.
  rewrite Hlb, Hub, Z.eqb_refl. cbn [negb orb].
  rewrite reduceDomain_loop_covered.
  - rewrite bind_lift_return. reflexivity.
  - intros dim Hd. apply in_seq in Hd. apply Hall. lia.
Qed.

Lemma nth_error_assign_at_other {A} (v : list A) (i j : nat) (a : A) :
  i <> j -> nth_error (assign_at v i a) j = nth_error v j.
Proof.
  revert i j. induction v as [|x v IH]; intros i j Hij; [reflexivity|].
  destruct i as [|i], j as [|j]; cbn [assign_at nth_error];
    try reflexivity; try contradiction.
  apply IH. intros ->. apply Hij. reflexivity.
Qed.

Lemma nth_error_in_range {A} (v : list A) (i : nat) :
  (i < length v)%nat -> exists a, nth_error v i = Some a.
Proof.
  intros Hi. destruct (nth_error v i) as [a|] eqn:Hn; [exists a; reflexivity|].
  apply nth_error_None in Hn. lia.
Qed.

(** One turn of the loop either throws the empty-set exception or
    changes the bounds at index [dim] only. *)
Lemma reduceDomain_dim_cases lb ub sl su flag dim :
  (dim < length lb)%nat -> (dim < length ub)%nat ->
  (dim < length sl)%nat -> (dim < length su)%nat ->
  reduceDomain_dim lb ub (sl, su, flag) dim = Throw empty_set_error
  \/ (~ empty_at lb ub sl su dim
      /\ exists sl' su' flag',
           reduceDomain_dim lb ub (sl, su, flag) dim = Return (sl', su', flag')
           /\ (forall j, dim <> j -> nth_error sl' j = nth_error sl j)
           /\ (forall j, dim <> j -> nth_error su' j = nth_error su j)).
Proof.
  intros H1 H2 H3 H4.
  destruct (nth_error_in_range lb dim H1) as (l & Hl).
  destruct (nth_error_in_range ub dim H2) as (u & Hu).
  destruct (nth_error_in_range sl dim H3) as (a & Ha).
  destruct (nth_error_in_range su dim H4) as (b & Hb).
  unfold reduceDomain_dim, vector_at. rewrite Hl, Hu, Ha, Hb. cbn [obind].
  destruct (dle u l) eqn:T1; [left; reflexivity|].
  destruct (dge l b) eqn:T2; [left; reflexivity|].
  destruct (dle u a) eqn:T3; [left; reflexivity|].
  right. split.
  - intros (l' & u' & a' & b' & Hl' & Hu' & Ha' & Hb' & Hor).
    rewrite Hl in Hl'. rewrite Hu in Hu'. rewrite Ha in Ha'. rewrite Hb in Hb'.
    injection Hl' as <-. injection Hu' as <-. injection Ha' as <-. injection Hb' as <-.
    destruct Hor as [Hor | [Hor | Hor]]; congruence.
  - destruct (dgt b u), (dgt l a); eexists _, _, _;
      (split; [reflexivity|]); split; intros j Hj;
      try reflexivity; apply nth_error_assign_at_other; exact Hj.
Qed.

Lemma reduceDomain_loop_empty lb ub sl su n :
  forall start sl' su' flag,
    (forall j, (start <= j)%nat -> nth_error sl' j = nth_error sl j) ->
    (forall j, (start <= j)%nat -> nth_error su' j = nth_error su j) ->
    (start + n <= length lb)%nat -> (start + n <= length ub)%nat ->
    (start + n <= length sl)%nat -> (start + n <= length su)%nat ->
    (exists dim, (start <= dim < start + n)%nat /\ empty_at lb ub sl su dim) ->
    reduceDomain_loop lb ub (sl', su', flag) (seq start n) = Throw empty_set_error.
Proof.
  induction n as [|n IH]; intros start sl' su' flag Hsl Hsu L1 L2 L3 L4 (dim & Hd & He).
  - lia.
  - cbn [seq reduceDomain_loop].
    assert (Lsl : (start < length sl')%nat).
    { apply nth_error_Some. rewrite Hsl by lia. apply nth_error_Some. lia. }
    assert (Lsu : (start < length su')%nat).
    { apply nth_error_Some. rewrite Hsu by lia. apply nth_error_Some. lia. }
    destruct (reduceDomain_dim_cases lb ub sl' su' flag start) as [Hthrow | Hpass];
      try lia.
    + rewrite Hthrow. reflexivity.
    + destruct Hpass as (Hnot & sl2 & su2 & flag2 & Hrun & Hsl2 & Hsu2).
      rewrite Hrun. cbn [obind].
      apply IH; try lia.
      * intros j Hj. rewrite Hsl2 by lia. apply Hsl. lia.
      * intros j Hj. rewrite Hsu2 by lia. apply Hsu. lia.
      * exists dim. split; [|exact He].
        destruct (Nat.eq_dec dim start) as [-> | Hne]; [|lia].
        exfalso. apply Hnot.
        destruct He as (l & u & a & b & Hl & Hu & Ha & Hb & Hor).
        exists l, u, a, b. rewrite Hsl, Hsu by lia. repeat split; assumption.
Qed.

(** X4.  When in some dimension the requested interval is empty or
    lies on one side of the support, [reduceDomain] throws "Cannot reduce
    B-spline domain to empty set!" before anything is changed. *)
Theorem reduceDomain_empty_target_throws
    (w : World) (lb ub : list double) (doRegularize doRefine : bool) :
  let b := basis (self w) in
  let nv := Z.to_nat (numVariables (self w)) in
  size lb = numVariables (self w) ->
  size ub = numVariables (self w) ->
  (nv <= length (getSupportLowerBound b))%nat ->
  (nv <= length (getSupportUpperBound b))%nat ->
  (exists dim, (dim < nv)%nat
     /\ empty_at lb ub (getSupportLowerBound b) (getSupportUpperBound b) dim) ->
  reduceDomain lb ub doRegularize doRefine w = (Throw empty_set_error, w).
Proof.
  intros b nv Hlb Hub Lsl Lsu (dim & Hdim & He).
  unfold reduceDomain. rewrite bind_this.
  rewrite Hlb, Hub, Z.eqb_refl. cbn [negb orb].
  fold b. fold nv.
  rewrite (reduceDomain_loop_empty lb ub (getSupportLowerBound b) (getSupportUpperBound b)).
  - reflexivity.
  - reflexivity.
  - reflexivity.
  - unfold size in Hlb. subst nv. rewrite <- Hlb. rewrite Nat2Z.id. lia.
  - unfold size in Hub. subst nv. rewrite <- Hub. rewrite Nat2Z.id. lia.
  - lia.
  - lia.
  - exists dim. split; [lia | exact He].
Qed.

(** ** Domain reduction: the bounds that the steps receive *)

Lemma nth_error_assign_at_same {A} (v : list A) (i : nat) (a : A) :
  (i < length v)%nat -> nth_error (assign_at v i a) i = Some a.
Proof.
  revert i. induction v as [|x v IH]; intros i Hi; [cbn [length] in Hi; lia|].
  destruct i as [|i]; cbn [assign_at nth_error]; [reflexivity|].
  apply IH. cbn [length] in Hi. lia.
Qed.

Lemma length_assign_at {A} (v : list A) (i : nat) (a : A) :
  length (assign_at v i a) = length v.
Proof.
  revert i. induction v as [|x v IH]; intros i; [reflexivity|].
  destruct i; cbn [assign_at length]; [reflexivity | rewrite IH; reflexivity].
Qed.

(** One turn of the loop that does not throw clips index [dim]. *)
Lemma reduceDomain_dim_clips lb ub sl su flag dim :
  (dim < length lb)%nat -> (dim < length ub)%nat ->
  (dim < length sl)%nat -> (dim < length su)%nat ->
  ~ empty_at lb ub sl su dim ->
  exists sl' su' flag',
    reduceDomain_dim lb ub (sl, su, flag) dim = Return (sl', su', flag')
    /\ length sl' = length sl /\ length su' = length su
    /\ (forall j, dim <> j -> nth_error sl' j = nth_error sl j)
    /\ (forall j, dim <> j -> nth_error su' j = nth_error su j)
    /\ clipped_at lb ub sl su sl' su' dim
    /\ (flag' = true <-> flag = true \/ cuts_at lb ub sl su dim).
Proof.
  intros H1 H2 H3 H4 Hne.
  destruct (nth_error_in_range lb dim H1) as (l & Hl).
  destruct (nth_error_in_range ub dim H2) as (u & Hu).
  destruct (nth_error_in_range sl dim H3) as (a & Ha).
  destruct (nth_error_in_range su dim H4) as (b & Hb).
  assert (Hcut : forall P : Prop,
             (dgt b u = true \/ dgt l a = true -> P) ->
             cuts_at lb ub sl su dim -> P).
  { intros P HP (l' & u' & a' & b' & Hl' & Hu' & Ha' & Hb' & Hor).
    rewrite Hl in Hl'. rewrite Hu in Hu'. rewrite Ha in Ha'. rewrite Hb in Hb'.
    injection Hl' as <-. injection Hu' as <-. injection Ha' as <-. injection Hb' as <-.
    apply HP, Hor. }
  unfold reduceDomain_dim, vector_at. rewrite Hl, Hu, Ha, Hb. cbn [obind].
  destruct (dle u l) eqn:T1;
    [exfalso; apply Hne; exists l, u, a, b; repeat split; try assumption; left; exact T1|].
  destruct (dge l b) eqn:T2;
    [exfalso; apply Hne; exists l, u, a, b; repeat split; try assumption;
     right; left; exact T2|].
  destruct (dle u a) eqn:T3;
    [exfalso; apply Hne; exists l, u, a, b; repeat split; try assumption;
     right; right; exact T3|].
  destruct (dgt b u) eqn:C1, (dgt l a) eqn:C2; eexists _, _, _;
    (split; [reflexivity|]);
    rewrite ?length_assign_at;
    (split; [reflexivity|]); (split; [reflexivity|]);
    (split; [intros j Hj; try reflexivity; apply nth_error_assign_at_other; exact Hj|]);
    (split; [intros j Hj; try reflexivity; apply nth_error_assign_at_other; exact Hj|]);
    (split;
     [exists l, u, a, b; rewrite C1, C2;
      repeat split; try assumption;
      try (apply nth_error_assign_at_same; assumption)
     |]).
  - split; [intros _; right; exists l, u, a, b; repeat split; try assumption; left; exact C1
           | reflexivity].
  - split; [intros _; right; exists l, u, a, b; repeat split; try assumption; left; exact C1
           | reflexivity].
  - split; [intros _; right; exists l, u, a, b; repeat split; try assumption; right; exact C2
           | reflexivity].
  - split; [intros Hf; left; exact Hf|].
    intros [Hf | Hc]; [exact Hf|].
    apply (Hcut (flag = true)); [|exact Hc]. intros [Hx | Hx]; congruence.
Qed.

Lemma reduceDomain_loop_clips lb ub sl su n :
  forall start sl1 su1 flag,
    length sl1 = length sl -> length su1 = length su ->
    (forall j, (start <= j)%nat -> nth_error sl1 j = nth_error sl j) ->
    (forall j, (start <= j)%nat -> nth_error su1 j = nth_error su j) ->
    (start + n <= length lb)%nat -> (start + n <= length ub)%nat ->
    (start + n <= length sl)%nat -> (start + n <= length su)%nat ->
    (forall dim, (start <= dim < start + n)%nat -> ~ empty_at lb ub sl su dim) ->
    exists sl' su' flag',
      reduceDomain_loop lb ub (sl1, su1, flag) (seq start n) = Return (sl', su', flag')
      /\ length sl' = length sl /\ length su' = length su
      /\ (forall j, (j < start \/ start + n <= j)%nat ->
            nth_error sl' j = nth_error sl1 j /\ nth_error su' j = nth_error su1 j)
      /\ (forall dim, (start <= dim < start + n)%nat ->
            clipped_at lb ub sl su sl' su' dim)
      /\ (flag' = true <->
          flag = true
          \/ exists dim, (start <= dim < start + n)%nat /\ cuts_at lb ub sl su dim).
Proof.
  induction n as [|n IH];
    intros start sl1 su1 flag Ls Lu Hsl Hsu L1 L2 L3 L4 Hne.
  - exists sl1, su1, flag. cbn [seq reduceDomain_loop].
    split; [reflexivity|]. split; [exact Ls|]. split; [exact Lu|].
    split; [intros; split; reflexivity|]. split; [intros dim Hd; lia|].
    split; [intros Hf; left; exact Hf|]. intros [Hf | (dim & Hd & _)]; [exact Hf | lia].
  - cbn [seq reduceDomain_loop].
    assert (Hne1 : ~ empty_at lb ub sl1 su1 start).
    { intros (l & u & a & b & Hl & Hu & Ha & Hb & Hor).
      apply (Hne start); [lia|]. exists l, u, a, b.
      rewrite <- Hsl, <- Hsu by lia. repeat split; assumption. }
    destruct (reduceDomain_dim_clips lb ub sl1 su1 flag start)
      as (sl2 & su2 & flag2 & Hrun & Ls2 & Lu2 & Hsl2 & Hsu2 & Hclip & Hflag);
      try lia; [exact Hne1|].
    rewrite Hrun. cbn [obind].
    destruct (IH (S start) sl2 su2 flag2)
      as (sl' & su' & flag' & Hloop & Ls' & Lu' & Hout & Hin & Hflag');
      try lia.
    + intros j Hj. rewrite Hsl2 by lia. apply Hsl. lia.
    + intros j Hj. rewrite Hsu2 by lia. apply Hsu. lia.
    + intros dim Hd. apply Hne. lia.
    + exists sl', su', flag'. split; [exact Hloop|].
      split; [exact Ls'|]. split; [exact Lu'|].
      split; [|split].
      * intros j Hj. destruct (Hout j) as (E1 & E2); [lia|].
        rewrite E1, E2, Hsl2, Hsu2 by lia. split; reflexivity.
      * intros dim Hd. destruct (Nat.eq_dec dim start) as [-> | Hdne].
        -- destruct Hclip as (l & u & a & b & Hl & Hu & Ha & Hb & Hc1 & Hc2).
           destruct (Hout start) as (E1 & E2); [lia|].
           exists l, u, a, b. rewrite <- Hsl, <- Hsu by lia.
           rewrite E1, E2. repeat split; assumption.
        -- apply Hin. lia.
      * rewrite Hflag', Hflag. split.
        -- intros [[Hf | Hc] | (dim & Hd & Hc)].
           ++ left; exact Hf.
           ++ right. exists start. split; [lia|].
              destruct Hc as (l & u & a & b & Hl & Hu & Ha & Hb & Hor).
              exists l, u, a, b. rewrite <- Hsl, <- Hsu by lia.
              repeat split; assumption.
           ++ right. exists dim. split; [lia | exact Hc].
        -- intros [Hf | (dim & Hd & Hc)]; [left; left; exact Hf|].
           destruct (Nat.eq_dec dim start) as [-> | Hdne].
           ++ left. right.
              destruct Hc as (l & u & a & b & Hl & Hu & Ha & Hb & Hor).
              exists l, u, a, b. rewrite Hsl, Hsu by lia.
              repeat split; assumption.
           ++ right. exists dim. split; [lia | exact Hc].
Qed.

(** X5.  When no dimension is empty, the bounds that [reduceDomain]
    hands to its steps are, in every dimension, the support bounds clipped to
    the requested interval; the steps run exactly when some dimension was
    clipped. *)
Theorem reduceDomain_clips_to_intersection
    (w : World) (lb ub : list double) (doRegularize doRefine : bool) :
  let b := basis (self w) in
  let nv := Z.to_nat (numVariables (self w)) in
  let sl := getSupportLowerBound b in
  let su := getSupportUpperBound b in
  size lb = numVariables (self w) ->
  size ub = numVariables (self w) ->
  (nv <= length sl)%nat -> (nv <= length su)%nat ->
  (forall dim, (dim < nv)%nat -> ~ empty_at lb ub sl su dim) ->
  exists sl' su' isStrictSubset,
    (forall dim, (dim < nv)%nat -> clipped_at lb ub sl su sl' su' dim)
    /\ (forall j, (nv <= j)%nat ->
          nth_error sl' j = nth_error sl j /\ nth_error su' j = nth_error su j)
    /\ (isStrictSubset = true <->
        exists dim, (dim < nv)%nat /\ cuts_at lb ub sl su dim)
    /\ reduceDomain lb ub doRegularize doRefine w
       = reduceDomain_steps doRegularize doRefine (sl', su', isStrictSubset) w.
Proof.
  intros b nv sl su Hlb Hub Lsl Lsu Hne.
  destruct (reduceDomain_loop_clips lb ub sl su nv 0 sl su false)
    as (sl' & su' & flag' & Hloop & _ & _ & Hout & Hin & Hflag);
    try reflexivity; try lia.
  - unfold size in Hlb. subst nv. rewrite <- Hlb, Nat2Z.id. lia.
  - unfold size in Hub. subst nv. rewrite <- Hub, Nat2Z.id. lia.
  - intros dim Hd. apply Hne. lia.
  - exists sl', su', flag'.
    split; [intros dim Hd; apply Hin; lia|].
    split; [intros j Hj; apply Hout; right; lia|].
    split.
    + rewrite Hflag. split.
      * intros [Hf | (dim & Hd & Hc)]; [discriminate|]. exists dim. split; [lia | exact Hc].
      * intros (dim & Hd & Hc). right. exists dim. split; [lia | exact Hc].
    + unfold reduceDomain. rewrite bind_this.
      rewrite Hlb, Hub, Z.eqb_refl. cbn [negb orb].
      fold b. fold sl. fold su. fold nv. rewrite Hloop.
      rewrite bind_lift_return. reflexivity.
Qed.

Lemma usub_same (a : Z) : to_int (usub a a) = 0.
Proof. unfold usub. rewrite Z.sub_diag. reflexivity. Qed.

Lemma regularize_dim_regular lb ub dim w :
  regular_at (basis (self w)) lb ub dim ->
  regularize_dim lb ub dim w = (Return None, w).
Proof.
  intros (l & u & Hl & Hu & Ml & Mu).
  unfold regularize_dim. rewrite bind_this.
  unfold vector_at. rewrite Hl. rewrite bind_lift_return.
  rewrite Ml, usub_same. cbn [Z.gtb Z.compare].
  unfold bind at 1. unfold ret at 1.
  rewrite bind_this. rewrite Hu. rewrite bind_lift_return.
  rewrite Mu, usub_same. reflexivity.
Qed.

Lemma regularize_loop_regular lb ub dims w :
  (forall dim, In dim dims -> regular_at (basis (self w)) lb ub dim) ->
  regularize_loop lb ub dims w = (Return true, w).
Proof.
  induction dims as [|dim rest IH]; intros Hall; [reflexivity|].
  cbn [regularize_loop]. unfold bind.
  rewrite regularize_dim_regular by (apply Hall; left; reflexivity).
  apply IH. intros d Hd. apply Hall. right. exact Hd.
Qed.

(** X6.  When both bounds already are knots of multiplicity degree + 1
    in every dimension, [regularizeKnotVectors] inserts nothing: it returns
    [true] and the object is as it was. *)
Theorem regularizeKnotVectors_regular_is_identity
    (w : World) (lb ub : list double) :
  size lb = numVariables (self w) ->
  size ub = numVariables (self w) ->
  (forall dim, (dim < Z.to_nat (numVariables (self w)))%nat ->
     regular_at (basis (self w)) lb ub dim) ->
  regularizeKnotVectors lb ub w = (Return true, w).
Proof.
  intros Hlb Hub Hall.
  unfold regularizeKnotVectors. rewrite bind_this.
  rewrite Hlb, Hub, Z.eqb_refl. cbn [andb negb].
  apply regularize_loop_regular.
  intros dim Hd. apply in_seq in Hd. apply Hall. lia.
Qed.

(** ** Comment lines *)

Lemma load_line_comment l rest w :
  load_line l (String "#" rest) w = (Return (l, false), w).
Proof. reflexivity. Qed.

Lemma load_lines_skip_comment l rest post w :
  load_lines l (String "#" rest :: post) w = load_lines l post w.
Proof.
  cbn [load_lines]. unfold bind. rewrite load_line_comment. reflexivity.
Qed.

(** X7.  A line that begins with the comment sign is skipped wherever it
    stands in the file: [load] gives the same result with and without it. *)
Theorem load_ignores_comment_lines
    (pre post : list string) (rest : string) (w : World) :
  load (pre ++ String "#" rest :: post) w = load (pre ++ post) w.
Proof.
  assert (Hlines : forall l w0,
             load_lines l (pre ++ String "#" rest :: post) w0
             = load_lines l (pre ++ post) w0).
  { induction pre as [|line pre IH]; intros l w0.
    - apply load_lines_skip_comment.
    - cbn [app load_lines]. unfold bind.
      destruct (load_line l line w0) as [[[l' brk]|e] w1]; [|reflexivity].
      destruct brk; [reflexivity | apply IH]. }
  unfold load, bind. rewrite Hlines. reflexivity.
Qed.

Lemma bind_emit {B} e (k : unit -> M B) w :
  bind (emit e) k w = k tt (mkWorld (self w) (trace w ++ [e])).
Proof. reflexivity. Qed.

Lemma checkControlPoints_run (w : World) :
  control_points_ok (self w) ->
  checkControlPoints w
  = (Return true, mkWorld (self w) (trace w ++ [Called_checkControlPoints])).
Proof.
  intros (Hr & Hk & Hc). unfold checkControlPoints.
  rewrite bind_emit, bind_this. cbn [self].
  rewrite Hc, Nat.eqb_refl, bind_assert_true.
  rewrite Hk, Z.eqb_refl, bind_assert_true.
  rewrite Hr. cbn [Nat.eqb]. rewrite bind_assert_true. reflexivity.
Qed.

Lemma setControlPoints_run (controlPoints : Matrix) (w : World) :
  0 <= numVariables (self w) ->
  Z.of_nat (rows controlPoints) = uadd (numVariables (self w)) 1 ->
  setControlPoints controlPoints w = (Return tt, control_points_set controlPoints w).
Proof.
  intros Hn Hrows.
  unfold setControlPoints.
  rewrite (bind_this _ w). rewrite Hrows, Z.eqb_refl, bind_assert_true.
  rewrite !bind_update. unfold bind at 1.
  rewrite checkControlPoints_run; [reflexivity|].
  cbn [self coefficients knotaverages with_coefficients
    with_knotaverages block rows cols numVariables basis].
  repeat split. apply Z2Nat.id. exact Hn.
Qed.

Lemma setControlPoints_wrong_rows (controlPoints : Matrix) (w : World) :
  Z.of_nat (rows controlPoints) <> uadd (numVariables (self w)) 1 ->
  setControlPoints controlPoints w
  = (Throw (assert_failed "controlPoints.rows() == numVariables + 1"), w).
Proof.
  intros Hrows. unfold setControlPoints. rewrite (bind_this _ w).
  apply Z.eqb_neq in Hrows. rewrite Hrows. reflexivity.
Qed.

(** X8.  [setControlPoints] looks at the number of rows only: a matrix
    of [numVariables + 1] rows is taken, whatever its number of columns,
    and any other fails the assertion on the rows with the object
    untouched. *)
Theorem setControlPoints_accepts_by_row_count (controlPoints : Matrix) (w : World) :
  0 <= numVariables (self w) ->
  (Z.of_nat (rows controlPoints) = uadd (numVariables (self w)) 1 ->
     setControlPoints controlPoints w = (Return tt, control_points_set controlPoints w))
  /\ (Z.of_nat (rows controlPoints) <> uadd (numVariables (self w)) 1 ->
     setControlPoints controlPoints w
     = (Throw (assert_failed "controlPoints.rows() == numVariables + 1"), w)).
Proof.
  intros Hn. split.
  - apply setControlPoints_run. exact Hn.
  - apply setControlPoints_wrong_rows.
Qed.

Lemma getControlPoints_rows (s : BSpline) :
  Z.of_nat (rows (getControlPoints s)) = uadd (numVariables s) 1.
Proof.
  unfold getControlPoints. cbn [rows set_block resized].
  apply Z2Nat.id. unfold uadd, to_uint. apply Z.mod_pos_bound. reflexivity.
Qed.

Lemma block_rows_below (A K C : Matrix) (nv nc : nat) :
  same_matrix (block (set_block (set_block A 0 0 nv nc K) nv 0 1 nc C) 0 0 nv nc)
              (mkMatrix nv nc (coeff K)).
Proof.
  split; [reflexivity|]. split; [reflexivity|].
  cbn [rows cols coeff block set_block]. intros i j Hi Hj.
  rewrite !Nat.add_0_l.
  assert (H1 : (nv <=? i)%nat = false) by (apply Nat.leb_gt; lia).
  assert (H2 : (i <? nv)%nat = true) by (apply Nat.ltb_lt; lia).
  assert (H3 : (j <? nc)%nat = true) by (apply Nat.ltb_lt; lia).
  rewrite H1, H2, H3. cbn [andb Nat.leb]. rewrite !Nat.sub_0_r. reflexivity.
Qed.

Lemma block_last_row (A K C : Matrix) (nv nc : nat) :
  same_matrix (block (set_block (set_block A 0 0 nv nc K) nv 0 1 nc C) nv 0 1 nc)
              (mkMatrix 1 nc (coeff C)).
Proof.
  split; [reflexivity|]. split; [reflexivity|].
  cbn [rows cols coeff block set_block]. intros i j Hi Hj.
  assert (i = 0%nat) as -> by lia.
  rewrite Nat.add_0_r, !Nat.add_0_l.
  assert (H1 : (nv <=? nv)%nat = true) by (apply Nat.leb_le; lia).
  assert (H2 : (nv <? nv + 1)%nat = true) by (apply Nat.ltb_lt; lia).
  assert (H3 : (j <? nc)%nat = true) by (apply Nat.ltb_lt; lia).
  rewrite H1, H2, H3. cbn [andb Nat.leb]. rewrite Nat.sub_diag, Nat.sub_0_r.
  reflexivity.
Qed.

(** X9.  Setting the control points that [getControlPoints] returned
    succeeds and leaves the coefficients and the knot averages as they
    were. *)
Theorem setControlPoints_of_getControlPoints (w : World) :
  let s := self w in
  let w' := snd (setControlPoints (getControlPoints s) w) in
  control_points_ok s ->
  fst (setControlPoints (getControlPoints s) w) = Return tt
  /\ same_matrix (coefficients (self w')) (coefficients s)
  /\ same_matrix (knotaverages (self w')) (knotaverages s)
  /\ basis (self w') = basis s
  /\ numVariables (self w') = numVariables s.
Proof.
  intros s w' (Hr & Hk & Hc). subst w'.
  assert (Hn : 0 <= numVariables s) by lia.
  rewrite (setControlPoints_run (getControlPoints s) w Hn (getControlPoints_rows s)).
  cbn [fst snd]. split; [reflexivity|].
  unfold control_points_set. cbn [self coefficients knotaverages basis numVariables].
  fold s. unfold getControlPoints.
  change (cols (set_block _ _ _ _ _ _)) with (cols (coefficients s)).
  split; [|split; [|split; reflexivity]].
  - destruct (block_last_row
                (resized (Z.to_nat (uadd (numVariables s) 1)) (cols (coefficients s)))
                (knotaverages s) (coefficients s)
                (Z.to_nat (numVariables s)) (cols (coefficients s)))
      as (R1 & R2 & R3).
    split; [rewrite R1; cbn [rows]; lia|]. split; [exact R2|].
    intros i j Hi Hj. rewrite R3 by assumption. reflexivity.
  - destruct (block_rows_below
                (resized (Z.to_nat (uadd (numVariables s) 1)) (cols (coefficients s)))
                (knotaverages s) (coefficients s)
                (Z.to_nat (numVariables s)) (cols (coefficients s)))
      as (R1 & R2 & R3).
    split; [rewrite R1; cbn [rows]; lia|]. split; [rewrite R2; cbn [cols]; lia|].
    intros i j Hi Hj. rewrite R3 by assumption. reflexivity.
Qed.

(** X10.  After a successful [setControlPoints], [getControlPoints]
    returns the matrix that was set. *)
Theorem getControlPoints_of_setControlPoints
    (controlPoints : Matrix) (w w' : World) :
  0 <= numVariables (self w) <= UINT_MAX ->
  setControlPoints controlPoints w = (Return tt, w') ->
  same_matrix (getControlPoints (self w')) controlPoints.
Proof.
  intros Hrange Hrun.
  destruct (Z.eq_dec (Z.of_nat (rows controlPoints)) (uadd (numVariables (self w)) 1))
    as [Hrows | Hrows];
    [|rewrite (setControlPoints_wrong_rows _ _ Hrows) in Hrun; discriminate].
  destruct Hrange as [Hn Hmax].
  rewrite (setControlPoints_run _ _ Hn Hrows) in Hrun. injection Hrun as <-.
  unfold control_points_set, getControlPoints.
  cbn [self coefficients knotaverages basis numVariables block cols].
  split; [cbn [rows set_block resized]; lia|]. split; [reflexivity|].
  cbn [rows cols coeff set_block resized block]. intros i j Hi Hj.
  rewrite !Nat.add_0_l.
  assert (H3 : (j <? cols controlPoints)%nat = true) by (apply Nat.ltb_lt; lia).
  rewrite H3.
  destruct (Z.eq_dec (numVariables (self w)) UINT_MAX) as [Hwrap | Hsmall].
  - exfalso. rewrite Hwrap in Hi. change (Z.to_nat (uadd UINT_MAX 1)) with 0%nat in Hi. lia.
  - assert (Hu : uadd (numVariables (self w)) 1 = numVariables (self w) + 1).
    { unfold uadd, to_uint. apply Z.mod_small. unfold UINT_MAX in *. lia. }
    rewrite Hu in Hi.
    destruct (Nat.leb_spec (Z.to_nat (numVariables (self w))) i) as [Hge | Hlt].
    + assert (i = Z.to_nat (numVariables (self w))) as -> by lia.
      assert (H2 : (Z.to_nat (numVariables (self w))
                    <? Z.to_nat (numVariables (self w)) + 1)%nat = true)
        by (apply Nat.ltb_lt; lia).
      rewrite H2. cbn [andb]. rewrite Nat.sub_diag, Nat.sub_0_r, Nat.add_0_r.
      reflexivity.
    + cbn [andb].
      assert (H2 : (i <? Z.to_nat (numVariables (self w)))%nat = true)
        by (apply Nat.ltb_lt; lia).
      rewrite H2. cbn [andb Nat.leb]. rewrite !Nat.sub_0_r. reflexivity.
Qed.

Lemma frame_of_refl w : frame_of w w.
Proof. repeat split. Qed.

Lemma keeps_frame_knotaverages w0 (f : BSpline -> Matrix) :
  keeps (frame_of w0) (update (fun s => with_knotaverages s (f s))).
Proof. apply keeps_update. intros w (Hb & Hc & Hn & Ht). repeat split; assumption. Qed.

Lemma fill_knotaverages_keeps_frame w0 knotAverages knotOnes nv rows_left :
  keeps (frame_of w0) (fill_knotaverages knotAverages knotOnes nv rows_left).
Proof.
  induction rows_left as [|i rest IH]; cbn [fill_knotaverages].
  - apply keeps_ret.
  - apply keeps_bind; [apply keeps_lift|]. intros mu_ext.
    apply keeps_bind; [apply keeps_this|]. intros s.
    apply keeps_bind; [apply keeps_assert|]. intros _.
    apply keeps_bind; [|intros _; exact IH].
    apply (keeps_frame_knotaverages w0
             (fun s0 => set_block (knotaverages s0) i 0 1
                          (Z.to_nat (numBasisFunctions (basis s))) (transpose mu_ext))).
Qed.

Lemma computeKnotAverages_keeps_frame w0 : keeps (frame_of w0) computeKnotAverages.
Proof.
  unfold computeKnotAverages.
  apply keeps_bind; [apply keeps_this|]. intros s.
  apply keeps_bind; [apply keeps_lift|]. intros knotAverages.
  apply keeps_bind; [apply keeps_lift|]. intros knotOnes.
  apply keeps_bind;
    [apply (keeps_frame_knotaverages w0
              (fun s0 => resized (Z.to_nat (numVariables s))
                           (Z.to_nat (numBasisFunctions (basis s0)))))|].
  intros _.
  apply keeps_bind; [apply fill_knotaverages_keeps_frame|]. intros _.
  apply keeps_bind; [apply keeps_this|]. intros s'.
  apply keeps_bind; [apply keeps_assert|]. intros _. apply keeps_ret.
Qed.

(** What the closing assertion of [computeKnotAverages] has seen. *)
Lemma computeKnotAverages_post w w' :
  computeKnotAverages w = (Return tt, w') ->
  frame_of w w'
  /\ Z.of_nat (rows (knotaverages (self w'))) = numVariables (self w')
  /\ Z.of_nat (cols (knotaverages (self w'))) = numBasisFunctions (basis (self w')).
Proof.
  intros Hrun. split.
  - pose proof (computeKnotAverages_keeps_frame w w (frame_of_refl w)) as Hk.
    rewrite Hrun in Hk. exact Hk.
  - unfold computeKnotAverages in Hrun.
    apply bind_returns in Hrun as (s & w1 & _ & Hrun).
    apply bind_returns in Hrun as (knotAverages & w2 & _ & Hrun).
    apply bind_returns in Hrun as (knotOnes & w3 & _ & Hrun).
    apply bind_returns in Hrun as (? & w4 & _ & Hrun).
    apply bind_returns in Hrun as (? & w5 & _ & Hrun).
    rewrite bind_this in Hrun.
    apply bind_returns in Hrun as (? & w6 & Hassert & Hret).
    injection Hret as <-. unfold assert in Hassert.
    destruct (_ && _) eqn:Hc in Hassert; [|discriminate].
    injection Hassert as _ <-.
    apply andb_prop in Hc as [Hc1 Hc2].
    apply Z.eqb_eq in Hc1, Hc2. split; assumption.
Qed.

Lemma checkControlPoints_self w b w' :
  checkControlPoints w = (Return b, w') -> self w' = self w.
Proof.
  unfold checkControlPoints. run_cxx.
  destruct (cols (coefficients (self w)) =? cols (knotaverages (self w)))%nat;
    simpl; [|discriminate].
  destruct (Z.of_nat (rows (knotaverages (self w))) =? numVariables (self w));
    simpl; [|discriminate].
  destruct (rows (coefficients (self w)) =? 1)%nat; simpl; [|discriminate].
  intros Heq. injection Heq as _ <-. reflexivity.
Qed.

Lemma loadBasis_post kv deg w w' :
  loadBasis kv deg w = (Return tt, w') ->
  BSplineBasis_explicit kv deg = Return (basis (self w'))
  /\ coefficients (self w') = coefficients (self w)
  /\ numVariables (self w') = numVariables (self w)
  /\ rows (coefficients (self w')) = 1%nat
  /\ Z.of_nat (cols (coefficients (self w'))) = numBasisFunctions (basis (self w'))
  /\ Z.of_nat (rows (knotaverages (self w'))) = numVariables (self w')
  /\ Z.of_nat (cols (knotaverages (self w'))) = numBasisFunctions (basis (self w')).
Proof.
  intros Hrun.
  destruct (loadBasis_checked _ _ _ _ Hrun) as ((Hr & Hk & Hc) & _).
  unfold loadBasis in Hrun. rewrite bind_this in Hrun.
  apply bind_returns in Hrun as (? & w1 & Hassert & Hrun).
  unfold assert in Hassert.
  destruct (rows (coefficients (self w)) =? 1)%nat; [|discriminate].
  injection Hassert as _ <-.
  apply bind_returns in Hrun as (b & w2 & Hb & Hrun).
  unfold lift in Hb. injection Hb as Hb <-.
  rewrite bind_update in Hrun.
  apply bind_returns in Hrun as ([] & w3 & Hka & Hrun).
  apply computeKnotAverages_post in Hka as ((Fb & Fc & Fn & Ft) & Krows & Kcols).
  cbn [self basis coefficients numVariables with_basis trace] in Fb, Fc, Fn, Ft.
  unfold init in Hrun. rewrite bind_run_return with (a := tt) (w1 := w3) in Hrun
    by reflexivity.
  apply bind_returns in Hrun as (? & w4 & Hcheck & Hret).
  injection Hret as <-.
  assert (Hself : self w4 = self w3) by (eapply checkControlPoints_self, Hcheck).
  rewrite Hself in *.
  rewrite Fb, Fc, Fn. rewrite Fb in Kcols.
  repeat split; try assumption; try congruence.
Qed.

(** X11.  The constructor for explicit knot vectors returns only with
    one row of coefficients that has exactly as many columns as the basis
    has basis functions, and with knot averages of the same width; the
    number of variables is the number of knot vectors. *)
Theorem explicit_construction_counts
    (c : Matrix) (knotVectors : list (list double)) (degrees : list Z) (w' : World) :
  construct (BSpline_explicit c knotVectors degrees) = (Return tt, w') ->
  BSplineBasis_explicit knotVectors degrees = Return (basis (self w'))
  /\ coefficients (self w') = c
  /\ numVariables (self w') = to_uint (size knotVectors)
  /\ rows c = 1%nat
  /\ Z.of_nat (cols c) = numBasisFunctions (basis (self w'))
  /\ Z.of_nat (rows (knotaverages (self w'))) = to_uint (size knotVectors)
  /\ Z.of_nat (cols (knotaverages (self w'))) = numBasisFunctions (basis (self w')).
Proof.
  unfold construct, BSpline_explicit. rewrite !bind_update.
  intros Hrun. apply loadBasis_post in Hrun.
  cbn [self coefficients numVariables with_coefficients with_numVariables blank]
    in Hrun.
  destruct Hrun as (Hb & Hc & Hn & Hr & Hcols & Hkr & Hkc).
  rewrite Hc in Hr, Hcols. rewrite Hn in Hkr.
  repeat split; assumption.
Qed.

(** X12.  A [load] that returns leaves one row of coefficients with as
    many columns as there are basis functions, and knot averages of
    [numVariables] rows and the same width. *)
Theorem load_counts (file : list string) (w w' : World) :
  load file w = (Return tt, w') ->
  rows (coefficients (self w')) = 1%nat
  /\ Z.of_nat (cols (coefficients (self w'))) = numBasisFunctions (basis (self w'))
  /\ Z.of_nat (rows (knotaverages (self w'))) = numVariables (self w')
  /\ Z.of_nat (cols (knotaverages (self w'))) = numBasisFunctions (basis (self w')).
Proof.
  unfold load. intros Hrun.
  apply bind_returns in Hrun as (l & w1 & _ & Hrun).
  apply loadBasis_post in Hrun.
  destruct Hrun as (_ & _ & _ & Hr & Hcols & Hkr & Hkc).
  repeat split; assumption.
Qed.

(** ** Where the knot averages come from *)

(** [loadBasis] on an object with one row of as many coefficients as the
    new basis has functions: the basis is put in place, the knot averages
    are computed from it, and the check at the end passes. *)
Lemma loadBasis_return (knotVectors : list (list double)) (basisDegrees : list Z)
    (b : BSplineBasis) (w : World) :
  let s := self w in
  let nv := Z.to_nat (numVariables s) in
  (forall x, dmul d1 x = x) ->
  (forall x, dmul x d1 = x) ->
  0 <= numVariables s ->
  rows (coefficients s) = 1%nat ->
  BSplineBasis_explicit knotVectors basisDegrees = Return b ->
  Z.of_nat (cols (coefficients s)) = numBasisFunctions b ->
  knots_cover b nv ->
  numBasisFunctions b = Z.of_nat (counts_product b 0 nv) ->
  exists K,
    loadBasis knotVectors basisDegrees w
    = (Return tt,
       mkWorld (mkBSpline b (coefficients s) K (numVariables s))
         (trace w ++ [Called_checkControlPoints]))
    /\ Z.of_nat (rows K) = numVariables s
    /\ Z.of_nat (cols K) = numBasisFunctions b
    /\ forall i j, (i < nv)%nat -> (j < cols K)%nat ->
         coeff K i j
         = knot_mean (getKnotVector b i) (getBasisDegree b i)
             (mixed_radix_digit b nv i j).
Proof.
  intros s nv Hl Hr Hnv Hrows Hb Hcols Hcover Htotal.
  set (w1 := mkWorld (with_basis s b) (trace w)).
  destruct (computeKnotAverages_return w1 Hl Hr Hnv Hcover Htotal)
    as (K & Hrun & HrK & HcK & Hentry).
  exists K. split; [|split; [exact HrK|split; [exact HcK | exact Hentry]]].
  unfold loadBasis. rewrite bind_this. fold s.
  rewrite Hrows. cbn [Nat.eqb]. rewrite bind_assert_true.
  rewrite Hb, bind_lift_return, bind_update. fold s. fold w1.
  rewrite (bind_run_return _ _ _ _ _ Hrun).
  unfold init. rewrite bind_run_return with (a := tt)
    (w1 := mkWorld (with_knotaverages (self w1) K) (trace w1)) by reflexivity.
  unfold bind at 1. rewrite checkControlPoints_run.
  - unfold ret. destruct w as [[b0 C K0 n] t]. reflexivity.
  - cbn [self w1 with_basis with_knotaverages coefficients knotaverages numVariables].
    fold s. repeat split; [exact Hrows | exact HrK |].
    change (Z.of_nat (cols K) = numBasisFunctions b) in HcK.
    change (cols (coefficients s) = cols K). lia.
Qed.

(** C9, as the code has it.  The knot averages are computed where a
    basis is loaded: [loadBasis], through which the constructor for
    explicit knot vectors and [load] go, leaves a matrix with
    [numVariables] rows and [numBasisFunctions] columns whose entry
    [(i, j)] is the mean of the [degree_i] knots at positions
    [j_i + 1 .. j_i + degree_i] of dimension [i], where [j_i] is digit [i]
    of [j] in the mixed radix of the per-dimension counts.  Nothing
    computes them again: [setControlPoints] puts the caller's rows in
    their place, and a knot insertion multiplies the matrix that it finds
    by the transpose of the insertion matrix. *)
Theorem knot_averages_computed_then_transformed :
  (forall x, dmul d1 x = x) ->
  (forall x, dmul x d1 = x) ->
  (forall (knotVectors : list (list double)) (basisDegrees : list Z)
          (b : BSplineBasis) (w : World),
      let s := self w in
      let nv := Z.to_nat (numVariables s) in
      0 <= numVariables s ->
      rows (coefficients s) = 1%nat ->
      BSplineBasis_explicit knotVectors basisDegrees = Return b ->
      Z.of_nat (cols (coefficients s)) = numBasisFunctions b ->
      knots_cover b nv ->
      numBasisFunctions b = Z.of_nat (counts_product b 0 nv) ->
      exists K,
        loadBasis knotVectors basisDegrees w
        = (Return tt,
           mkWorld (mkBSpline b (coefficients s) K (numVariables s))
             (trace w ++ [Called_checkControlPoints]))
        /\ Z.of_nat (rows K) = numVariables s
        /\ Z.of_nat (cols K) = numBasisFunctions b
        /\ forall i j, (i < nv)%nat -> (j < cols K)%nat ->
             coeff K i j
             = knot_mean (getKnotVector b i) (getBasisDegree b i)
                 (mixed_radix_digit b nv i j))
  /\ (forall (controlPoints : Matrix) (w : World),
      0 <= numVariables (self w) ->
      Z.of_nat (rows controlPoints) = uadd (numVariables (self w)) 1 ->
      fst (setControlPoints controlPoints w) = Return tt
      /\ knotaverages (self (snd (setControlPoints controlPoints w)))
         = block controlPoints 0 0 (Z.to_nat (numVariables (self w)))
             (cols controlPoints))
  /\ (forall (tau : double) (dim : nat) (m : Z) (w : World),
      fst (insertKnots tau dim m w) = Return true ->
      basis (self (snd (insertKnots tau dim m w)))
      = snd (basis_insertKnots (basis (self w)) tau dim m)
      /\ knotaverages (self (snd (insertKnots tau dim m w)))
         = mat_mul (knotaverages (self w))
             (transpose (snd (fst (basis_insertKnots (basis (self w)) tau dim m))))).
Proof.
  intros Hl Hr. split; [|split].
  - intros knotVectors basisDegrees b w s nv Hnv Hrows Hb Hcols Hcover Htotal.
    apply loadBasis_return; assumption.
  - intros controlPoints w Hnv Hrows.
    rewrite (setControlPoints_run controlPoints w Hnv Hrows).
    split; reflexivity.
  - intros tau dim m w Hok.
    destruct (insertKnots_success w tau dim m Hok) as [_ Hw'].
    rewrite Hw'. split; reflexivity.
Qed.

(** A successful solve of the two systems was made by one of the two
    solvers, and its solution for the values is what the coefficients
    are. *)
Lemma solveControlPoints_return A Bx By w w' :
  solveControlPoints A Bx By w = (Return tt, w') ->
  basis (self w') = basis (self w)
  /\ numVariables (self w') = numVariables (self w)
  /\ exists solve Cy,
       (solve = SparseLU_solve \/ solve = DenseQR_solve)
       /\ solve A By = (true, Cy)
       /\ coefficients (self w') = transpose Cy.
Proof.
  unfold solveControlPoints, solve_both.
  destruct (to_int (Z.of_nat (rows A)) <? 2 ^ 10);
    destruct (SparseLU_solve A Bx) as [sx Sx] eqn:E1,
             (SparseLU_solve A By) as [sy Sy] eqn:E2,
             (DenseQR_solve A Bx) as [dx Dx] eqn:E3,
             (DenseQR_solve A By) as [dy Dy] eqn:E4;
    destruct sx, sy, dx, dy; run_cxx; intros Hrun;
    try discriminate; injection Hrun as <-; cbn [self basis numVariables coefficients];
    (split; [reflexivity|]); (split; [reflexivity|]);
    first [ exists DenseQR_solve, Dy; split; [right; reflexivity|];
            split; [exact E4 | reflexivity]
          | exists SparseLU_solve, Sy; split; [left; reflexivity|];
            split; [exact E2 | reflexivity] ].
Qed.

Lemma omap_vector_at_all {A} (x : list A) :
  omap (vector_at x) (seq 0 (length x)) = Return x.
Proof.
  assert (Hgen : forall pre, omap (vector_at (pre ++ x)) (seq (length pre) (length x))
                             = Return x).
  { induction x as [|a x IH]; intros pre; [reflexivity|].
    cbn [length seq omap]. unfold vector_at at 1.
    rewrite nth_error_app2 by lia. rewrite Nat.sub_diag. cbn [nth_error obind].
    specialize (IH (pre ++ [a])). rewrite <- app_assoc in IH. cbn [app] in IH.
    rewrite length_app in IH. cbn [length] in IH. rewrite Nat.add_1_r in IH.
    rewrite IH. reflexivity. }
  apply (Hgen []).
Qed.

Lemma omap_nth_error {A B} (f : A -> outcome B) (l : list A) (bs : list B) i a :
  omap f l = Return bs -> nth_error l i = Some a ->
  exists b, f a = Return b /\ nth_error bs i = Some b.
Proof.
  revert bs i. induction l as [|x l IH]; intros bs i Hmap Hnth.
  - destruct i; discriminate.
  - cbn [omap] in Hmap. destruct (f x) as [b|e] eqn:Hf; [|discriminate].
    cbn [obind] in Hmap. destruct (omap f l) as [bs'|e] eqn:Hl; [|discriminate].
    cbn [obind] in Hmap. injection Hmap as <-.
    destruct i as [|i]; cbn [nth_error] in *.
    + injection Hnth as <-. exists b. split; [exact Hf | reflexivity].
    + apply (IH bs' i eq_refl Hnth).
Qed.

(** Row [i] of the basis function matrix holds the tensor basis values
    at sample [i]. *)
Lemma computeBasisFunctionMatrix_row (s : BSpline) (samples : DataTable) A i x y :
  computeBasisFunctionMatrix s samples = Return A ->
  nth_error (samples_of samples) i = Some (x, y) ->
  length x = Z.to_nat (getNumVariables samples) ->
  rows A = Z.to_nat (getNumSamples samples)
  /\ forall k, coeff A i k = vec (basis_eval (basis s) (vector_of_list x)) k.
Proof.
  unfold computeBasisFunctionMatrix. intros Hrun Hnth Hlen.
  destruct (omap _ (samples_of samples)) as [basisRows|e] eqn:Hrows; [|discriminate].
  cbn [obind] in Hrun. injection Hrun as <-. cbn [rows coeff].
  split; [reflexivity|]. intros k.
  destruct (omap_nth_error _ _ _ _ _ Hrows Hnth) as (row & Hrow & Hi).
  rewrite Hi. cbn [fst] in Hrow. rewrite <- Hlen, omap_vector_at_all in Hrow.
  cbn [obind] in Hrow. injection Hrow as <-. reflexivity.
Qed.

Lemma controlPointEquationRHS_value (samples : DataTable) i x y :
  nth_error (samples_of samples) i = Some (x, y) ->
  cols (snd (controlPointEquationRHS samples)) = 1%nat
  /\ coeff (snd (controlPointEquationRHS samples)) i 0 = y.
Proof.
  intros Hnth. unfold controlPointEquationRHS. cbn [snd cols coeff].
  rewrite Hnth. split; reflexivity.
Qed.

(** X13.  With solvers whose reported solutions are exact, and a
    commutative multiplication, the surface fitted to a table of samples
    takes at every sample point inside its domain the sampled value. *)
Theorem fitted_surface_interpolates
    (samples : DataTable) (type : BSplineType) (w w' : World)
    (i : nat) (x : list double) (y : double) :
  (forall a b, dmul a b = dmul b a) ->
  exact_solver SparseLU_solve ->
  exact_solver DenseQR_solve ->
  BSpline_samples samples type w = (Return tt, w') ->
  nth_error (samples_of samples) i = Some (x, y) ->
  (i < Z.to_nat (getNumSamples samples))%nat ->
  length x = Z.to_nat (getNumVariables samples) ->
  insideSupport (basis (self w')) (vector_of_list x) = true ->
  eval (self w') (vector_of_list x) = Return y.
Proof.
  intros Hcomm Hsparse Hdense Hrun Hnth Hi Hlen Hin.
  unfold BSpline_samples in Hrun.
  destruct (negb (isGridComplete samples)); [discriminate|].
  rewrite bind_update in Hrun.
  apply bind_returns in Hrun as (b & w1 & Hb & Hrun).
  unfold lift in Hb. injection Hb as Hb <-.
  rewrite bind_update in Hrun.
  apply bind_returns in Hrun as ([] & w2 & Hfit & Hrun).
  unfold init in Hrun. rewrite bind_run_return with (a := tt) (w1 := w2) in Hrun
    by reflexivity.
  apply bind_returns in Hrun as (ok & w3 & Hcheck & Hret).
  injection Hret as <-.
  apply checkControlPoints_self in Hcheck.
  unfold computeControlPoints in Hfit. rewrite bind_this in Hfit.
  apply bind_returns in Hfit as (A & w4 & HA & Hfit).
  unfold lift in HA. injection HA as HA <-.
  destruct (controlPointEquationRHS samples) as [Bx By] eqn:HB.
  apply solveControlPoints_return in Hfit
    as (Hbasis & _ & solve & Cy & Hwhich & Hsolve & Hcoef).
  cbn [self basis with_basis] in HA, Hbasis.
  destruct (computeBasisFunctionMatrix_row _ _ _ _ _ _ HA Hnth Hlen) as (HrA & Hrow).
  destruct (controlPointEquationRHS_value samples i x y Hnth) as (Hc1 & Hy).
  rewrite HB in Hc1, Hy. cbn [snd] in Hc1, Hy.
  assert (Hexact : exact_solver solve) by (destruct Hwhich; subst; assumption).
  destruct (Hexact A By Cy Hsolve) as (HrX & Hprod).
  specialize (Hprod i 0%nat). rewrite Hy in Hprod.
  unfold eval, pointInDomain. rewrite Hin. cbn [negb]. f_equal.
  rewrite <- Hprod by lia.
  rewrite Hcheck, Hcoef, Hbasis. cbn [basis with_basis self].
  unfold vec at 1, mat_mul. cbn [coeff cols transpose rows].
  rewrite HrX. apply dsum_ext. intros k Hk.
  rewrite Hrow. cbn [basis]. rewrite Hcomm. reflexivity.
Qed.

(** ** Saving and loading *)

Ltac read_this :=
  match goal with
  | |- context [bind this_object ?k ?w] => rewrite (bind_this k w)
  end.

Lemma written_cons precision v vs :
  written precision (v :: vs)
  = (show_double precision v ++ String " " (written precision vs))%string.
Proof. unfold written. cbn [map fold_right]. rewrite append_append. reflexivity. Qed.

Lemma checked_strtod_written precision v rest :
  reads_back precision v ->
  checked_strtod (show_double precision v ++ String " " rest) = Return (v, String " " rest)
  /\ checked_strtod (String " " (show_double precision v ++ String " " rest))
     = Return (v, String " " rest).
Proof.
  intros ((c & tail & Hs & _) & Hread). destruct (Hread rest) as (H1 & H2).
  unfold checked_strtod. rewrite H1, H2. cbn [conv_end conv_value conv_erange].
  assert (Hlen : (String.length (show_double precision v) =? 0)%nat = false)
    by (rewrite Hs; reflexivity).
  rewrite Hlen. cbn [Nat.eqb advance]. rewrite advance_length. split; reflexivity.
Qed.

Lemma read_knots_written_behind_blank precision vs :
  Forall (reads_back precision) vs ->
  read_knots (length vs) (String " " (written precision vs)) = Return vs.
Proof.
  induction 1 as [|v vs Hv _ IH]; [reflexivity|].
  cbn [length read_knots]. rewrite written_cons.
  destruct (checked_strtod_written precision v (written precision vs) Hv) as (_ & ->).
  cbn [obind]. rewrite IH. reflexivity.
Qed.

Lemma read_knots_written precision vs :
  Forall (reads_back precision) vs ->
  read_knots (length vs) (written precision vs) = Return vs.
Proof.
  intros Hall. destruct Hall as [|v vs Hv Hvs]; [reflexivity|].
  cbn [length read_knots]. rewrite written_cons.
  destruct (checked_strtod_written precision v (written precision vs) Hv) as (-> & _).
  cbn [obind]. rewrite read_knots_written_behind_blank by exact Hvs. reflexivity.
Qed.

Lemma written_first precision v vs :
  reads_back precision v ->
  exists c tail, written precision (v :: vs) = String c tail /\ Ascii.eqb c "#" = false.
Proof.
  intros ((c & tail & Hs & Hc) & _). rewrite written_cons, Hs.
  cbn [String.append]. eexists _, _. split; [reflexivity | exact Hc].
Qed.

Lemma row_written_size C row i vs :
  rows (row_written C row i vs) = rows C /\ cols (row_written C row i vs) = cols C.
Proof.
  revert C i. induction vs as [|v vs IH]; intros C i; [split; reflexivity|].
  cbn [row_written]. destruct (IH (set_coeff C row i v) (S i)) as (-> & ->).
  split; reflexivity.
Qed.

Lemma row_written_before C row i vs r j :
  (j < i)%nat \/ r <> row -> coeff (row_written C row i vs) r j = coeff C r j.
Proof.
  revert C i. induction vs as [|v vs IH]; intros C i Hj; [reflexivity|].
  cbn [row_written]. rewrite IH by (destruct Hj; [left; lia | right; assumption]).
  cbn [set_coeff coeff].
  destruct (Nat.eqb_spec r row) as [->|Hr], (Nat.eqb_spec j i) as [->|Hji];
    cbn [andb]; try reflexivity.
  destruct Hj as [Hj | Hj]; [lia | contradiction].
Qed.

Lemma row_written_at C row i vs j :
  (j < length vs)%nat ->
  coeff (row_written C row i vs) row (i + j) = nth j vs d0.
Proof.
  revert C i j. induction vs as [|v vs IH]; intros C i j Hj; [cbn [length] in Hj; lia|].
  cbn [row_written]. destruct j as [|j].
  - rewrite Nat.add_0_r, row_written_before by (left; lia).
    cbn [set_coeff coeff nth]. rewrite !Nat.eqb_refl. reflexivity.
  - cbn [length] in Hj. replace (i + S j)%nat with (S i + j)%nat by lia.
    rewrite IH by lia. reflexivity.
Qed.

Lemma write_coefficient_run b C K n t (row j : nat) v :
  write_coefficient (Z.of_nat row) j v (mkWorld (mkBSpline b C K n) t)
  = (Return tt, mkWorld (mkBSpline b (set_coeff C row j v) K n) t).
Proof.
  unfold write_coefficient, update.
  cbn [self coefficients with_coefficients basis knotaverages numVariables trace].
  rewrite Nat2Z.id. reflexivity.
Qed.

Lemma read_row_written_behind_blank precision vs :
  Forall (reads_back precision) vs ->
  forall b C K n t (row i : nat),
    read_row (Z.of_nat row) i (length vs) (String " " (written precision vs))
      (mkWorld (mkBSpline b C K n) t)
    = (Return tt, mkWorld (mkBSpline b (row_written C row i vs) K n) t).
Proof.
  induction 1 as [|v vs Hv _ IH]; intros b C K n t row i; [reflexivity|].
  cbn [length read_row]. rewrite written_cons.
  destruct (checked_strtod_written precision v (written precision vs) Hv) as (_ & ->).
  rewrite bind_lift_return.
  rewrite (bind_run_return _ _ _ _ _ (write_coefficient_run b C K n t row i v)).
  rewrite IH. reflexivity.
Qed.

Lemma read_row_written precision vs :
  Forall (reads_back precision) vs ->
  forall b C K n t (row : nat),
    read_row (Z.of_nat row) 0 (length vs) (written precision vs)
      (mkWorld (mkBSpline b C K n) t)
    = (Return tt, mkWorld (mkBSpline b (row_written C row 0 vs) K n) t).
Proof.
  intros Hall b C K n t row.
  destruct Hall as [|v vs Hv Hvs]; [reflexivity|].
  cbn [length read_row]. rewrite written_cons.
  destruct (checked_strtod_written precision v (written precision vs) Hv) as (-> & _).
  rewrite bind_lift_return.
  rewrite (bind_run_return _ _ _ _ _ (write_coefficient_run b C K n t row 0 v)).
  rewrite (read_row_written_behind_blank precision vs Hvs). reflexivity.
Qed.

(** What each kind of line that [save] writes does to the decoder. *)

Lemma string_at_first (line : string) c tail :
  line = String c tail -> string_at line 0 = Return c.
Proof. intros ->. reflexivity. Qed.

Lemma to_uint_small (z : Z) : 0 <= z <= INT_MAX -> to_uint z = z.
Proof.
  intros Hz. unfold to_uint. apply Z.mod_small. unfold INT_MAX, UINT_MAX in *. lia.
Qed.

Lemma load_line_count (l : load_locals) (N : Z) (w : World) :
  state l = 0 -> 0 <= N <= INT_MAX ->
  load_line l (show_Z N) w
  = (Return (mkLocals (basisDegrees l) (knotVectors l) (cRows l) (cCols l) (cRowIdx l)
               (basisNum l) (knotVecLength l) 1, false),
     mkWorld (with_numVariables (self w) N) (trace w)).
Proof.
  intros Hstate HN.
  destruct (show_Z_digit_first N) as (c & tail & Hs & Hc); [lia|].
  unfold load_line.
  rewrite (string_at_first _ _ _ Hs), bind_lift_return.
  rewrite (digit_is_no_comment_sign c Hc), Hstate. cbn [Z.eqb].
  rewrite <- (append_empty_r (show_Z N)) at 1.
  rewrite checked_strtol_show_Z; [|unfold INT_MIN; lia | exact I].
  rewrite bind_lift_return, bind_update. cbn [fst].
  rewrite to_uint_small by exact HN. reflexivity.
Qed.

Lemma load_line_degree (l : load_locals) (degree len : Z) (w : World) :
  state l = 1 -> 1 <= degree <= INT_MAX -> 0 <= len <= INT_MAX ->
  load_line l (show_Z degree ++ " " ++ show_Z len) w
  = (Return (mkLocals (basisDegrees l ++ [degree]) (knotVectors l) (cRows l) (cCols l)
               (cRowIdx l) (basisNum l) len 2, false), w).
Proof.
  intros Hstate Hd Hlen.
  destruct (show_Z_digit_first degree) as (c & tail & Hs & Hc); [lia|].
  unfold load_line.
  rewrite (string_at_first (show_Z degree ++ " " ++ show_Z len) c
             (tail ++ " " ++ show_Z len))
    by (rewrite Hs; reflexivity).
  rewrite bind_lift_return.
  rewrite (digit_is_no_comment_sign c Hc), Hstate. cbn [Z.eqb Pos.eqb].
  change (" " ++ show_Z len)%string with (String " " (show_Z len)).
  rewrite checked_strtol_show_Z; [|unfold INT_MIN; lia | reflexivity].
  rewrite bind_lift_return.
  assert (Hpos : (degree >? 0) = true) by (apply Z.gtb_lt; lia).
  rewrite Hpos, bind_assert_true.
  rewrite <- (append_empty_r (show_Z len)).
  rewrite checked_strtol_space_show_Z; [|unfold INT_MIN; lia | exact I].
  rewrite bind_lift_return. cbn [fst].
  rewrite to_uint_small by lia. reflexivity.
Qed.

Lemma load_line_knots (l : load_locals) (kv : list double) (w : World) :
  state l = 2 -> kv <> [] -> knotVecLength l = size kv ->
  Forall (reads_back MS_SAVE_DOUBLE_PRECISION) kv ->
  load_line l (written MS_SAVE_DOUBLE_PRECISION kv) w
  = (Return (mkLocals (basisDegrees l) (knotVectors l ++ [kv]) (cRows l) (cCols l)
               (cRowIdx l) (basisNum l + 1) (knotVecLength l)
               (if to_uint (basisNum l + 1) >=? numVariables (self w) then 3 else 1),
             false), w).
Proof.
  intros Hstate Hne Hlen Hall.
  destruct kv as [|v kv']; [contradiction|].
  destruct (written_first MS_SAVE_DOUBLE_PRECISION v kv' (Forall_inv Hall))
    as (c & tail & Hs & Hc).
  unfold load_line.
  rewrite (string_at_first _ _ _ Hs), bind_lift_return, Hc, Hstate.
  cbn [Z.eqb Pos.eqb].
  rewrite Hlen. unfold size. rewrite Nat2Z.id.
  rewrite (read_knots_written _ _ Hall), bind_lift_return. read_this.
  reflexivity.
Qed.

Lemma load_line_dims (l : load_locals) (numRows numCols : nat) b C K n t :
  state l = 3 -> Z.of_nat numRows <= INT_MAX -> Z.of_nat numCols <= INT_MAX ->
  load_line l (show_Z (Z.of_nat numRows) ++ " " ++ show_Z (Z.of_nat numCols))
    (mkWorld (mkBSpline b C K n) t)
  = (Return (mkLocals (basisDegrees l) (knotVectors l) (Z.of_nat numRows)
               (Z.of_nat numCols) (cRowIdx l) (basisNum l) (knotVecLength l) 4, false),
     mkWorld (mkBSpline b (resized numRows numCols) K n) t).
Proof.
  intros Hstate Hr Hc.
  destruct (show_Z_digit_first (Z.of_nat numRows)) as (c & tail & Hs & Hd); [lia|].
  unfold load_line.
  rewrite (string_at_first (show_Z (Z.of_nat numRows) ++ " " ++ show_Z (Z.of_nat numCols))
             c (tail ++ " " ++ show_Z (Z.of_nat numCols)))
    by (rewrite Hs; reflexivity).
  rewrite bind_lift_return.
  rewrite (digit_is_no_comment_sign c Hd), Hstate. cbn [Z.eqb Pos.eqb].
  change (" " ++ show_Z (Z.of_nat numCols))%string
    with (String " " (show_Z (Z.of_nat numCols))).
  rewrite checked_strtol_show_Z; [|unfold INT_MIN; lia | reflexivity].
  rewrite bind_lift_return.
  rewrite <- (append_empty_r (show_Z (Z.of_nat numCols))).
  rewrite checked_strtol_space_show_Z; [|unfold INT_MIN; lia | exact I].
  rewrite bind_lift_return. cbn [fst].
  rewrite bind_update.
  cbn [self with_coefficients basis knotaverages numVariables trace].
  rewrite !Nat2Z.id. reflexivity.
Qed.

Lemma load_line_row (l : load_locals) (vs : list double) (row : nat) b C K n t :
  state l = 4 -> vs <> [] -> cCols l = size vs -> cRowIdx l = Z.of_nat row ->
  Forall (reads_back MS_SAVE_DOUBLE_PRECISION) vs ->
  load_line l (written MS_SAVE_DOUBLE_PRECISION vs) (mkWorld (mkBSpline b C K n) t)
  = (Return (mkLocals (basisDegrees l) (knotVectors l) (cRows l) (cCols l)
               (Z.of_nat row + 1) (basisNum l) (knotVecLength l) 4,
             Z.of_nat row + 1 >? cRows l),
     mkWorld (mkBSpline b (row_written C row 0 vs) K n) t).
Proof.
  intros Hstate Hne Hcols Hidx Hall.
  destruct vs as [|v vs']; [contradiction|].
  destruct (written_first MS_SAVE_DOUBLE_PRECISION v vs' (Forall_inv Hall))
    as (c & tail & Hs & Hc).
  unfold load_line.
  rewrite (string_at_first _ _ _ Hs), bind_lift_return, Hc, Hstate.
  cbn [Z.eqb Pos.eqb].
  rewrite Hcols, Hidx. unfold size. rewrite Nat2Z.id.
  rewrite (bind_run_return _ _ _ _ _
             (read_row_written _ _ Hall b C K n t row)).
  reflexivity.
Qed.

Lemma written_concat precision (vs : list double) :
  String.concat "" (map (fun k => (show_double precision k ++ " ")%string) vs)
  = written precision vs.
Proof. apply concat_no_separator. Qed.

Lemma knots_at_In (s : BSpline) (i : nat) :
  (i < length (getKnotVectors (basis s)))%nat ->
  In (knots_at s i) (getKnotVectors (basis s)).
Proof. intros Hi. apply nth_In. exact Hi. Qed.

Lemma save_basis_lines_return (s : BSpline) (i : nat) :
  (i < length (getKnotVectors (basis s)))%nat ->
  save_basis_lines s (getKnotVectors (basis s)) i = Return (basis_lines s i).
Proof.
  intros Hi. unfold save_basis_lines, vector_at, basis_lines, knots_at.
  rewrite (nth_error_nth' _ [] Hi). cbn [obind].
  rewrite written_concat. reflexivity.
Qed.

Lemma save_saveable (s : BSpline) : saveable s -> save s = Return (saved_file s).
Proof.
  intros Hs. unfold save, saved_file, saved_head, saved_row.
  rewrite (omap_return _ (basis_lines s)).
  2: { intros i Hi. apply in_seq in Hi. apply save_basis_lines_return.
       rewrite (sv_knot_vectors s Hs). lia. }
  cbn [obind].
  assert (Hprec : existsb (fun kv => negb (length kv =? 0)%nat)
                    (firstn (Z.to_nat (numVariables s)) (getKnotVectors (basis s)))
                  = true).
  { rewrite <- (sv_knot_vectors s Hs), firstn_all.
    pose proof (sv_count s Hs) as Hc. pose proof (sv_knot_vectors s Hs) as Hl.
    destruct (getKnotVectors (basis s)) as [|kv kvs] eqn:Hk;
      [cbn [length] in Hl; lia|].
    destruct (sv_knots s Hs kv) as (Hne & _); [rewrite Hk; left; reflexivity|].
    cbn [existsb]. destruct kv; [contradiction | reflexivity]. }
  rewrite Hprec, (sv_rows s Hs). cbn [seq map].
  rewrite <- (map_map (coeff (coefficients s) 0)
                (fun v => (show_double MS_SAVE_DOUBLE_PRECISION v ++ " ")%string)).
  rewrite written_concat. cbn [app]. rewrite <- !app_assoc. reflexivity.
Qed.

Lemma load_lines_cons l line rest w l' w' :
  load_line l line w = (Return (l', false), w') ->
  load_lines l (line :: rest) w = load_lines l' rest w'.
Proof. intros Hline. cbn [load_lines]. unfold bind. rewrite Hline. reflexivity. Qed.

Lemma load_lines_last l line w l' brk w' :
  load_line l line w = (Return (l', brk), w') ->
  load_lines l [line] w = (Return l', w').
Proof.
  intros Hline. cbn [load_lines]. unfold bind. rewrite Hline.
  destruct brk; reflexivity.
Qed.

(** The lines of the bases, from basis [start] to the last one. *)
Lemma load_lines_bases (s : BSpline) (Hs : saveable s) (n : nat) :
  forall (start : nat) (l : load_locals) (w : World) (rest : list string),
    (start + S n = Z.to_nat (numVariables s))%nat ->
    state l = 1 -> basisNum l = Z.of_nat start ->
    numVariables (self w) = numVariables s ->
    exists l',
      load_lines l (List.concat (map (basis_lines s) (seq start (S n))) ++ rest) w
      = load_lines l' rest w
      /\ state l' = 3
      /\ basisDegrees l'
         = basisDegrees l ++ map (getBasisDegree (basis s)) (seq start (S n))
      /\ knotVectors l' = knotVectors l ++ map (knots_at s) (seq start (S n))
      /\ cRowIdx l' = cRowIdx l.
Proof.
  pose proof (sv_count s Hs) as Hcount.
  induction n as [|n IH]; intros start l w rest Hnv Hstate Hnum Hw.
  - cbn [seq map List.concat basis_lines app].
    assert (Hin : In (knots_at s start) (getKnotVectors (basis s)))
      by (apply knots_at_In; rewrite (sv_knot_vectors s Hs); lia).
    destruct (sv_knots s Hs _ Hin) as (Hne & Hsize & Hall).
    assert (Hlen : 0 <= size (knots_at s start) <= INT_MAX)
      by (split; [unfold size; lia | exact Hsize]).
    rewrite (load_lines_cons _ _ _ _ _ _
               (load_line_degree l _ _ w Hstate
                  (sv_degrees s Hs start ltac:(lia)) Hlen)).
    eexists. split.
    + apply load_lines_cons. apply load_line_knots;
        [reflexivity | exact Hne | reflexivity | exact Hall].
    + cbn [state basisDegrees knotVectors cRowIdx basisNum].
      rewrite Hnum, Hw, to_uint_small by lia.
      assert (Hlast : (Z.of_nat start + 1 >=? numVariables s) = true)
        by (apply Z.geb_le; lia).
      rewrite Hlast. repeat split.
  - cbn [seq map List.concat basis_lines app].
    assert (Hin : In (knots_at s start) (getKnotVectors (basis s)))
      by (apply knots_at_In; rewrite (sv_knot_vectors s Hs); lia).
    destruct (sv_knots s Hs _ Hin) as (Hne & Hsize & Hall).
    assert (Hlen : 0 <= size (knots_at s start) <= INT_MAX)
      by (split; [unfold size; lia | exact Hsize]).
    rewrite (load_lines_cons _ _ _ _ _ _
               (load_line_degree l _ _ w Hstate
                  (sv_degrees s Hs start ltac:(lia)) Hlen)).
    erewrite load_lines_cons;
      [|apply load_line_knots; [reflexivity | exact Hne | reflexivity | exact Hall]].
    cbn [basisNum]. rewrite Hnum, Hw, to_uint_small by lia.
    assert (Hmore : (Z.of_nat start + 1 >=? numVariables s) = false).
    { destruct (Z.geb_spec (Z.of_nat start + 1) (numVariables s)); [lia | reflexivity]. }
    rewrite Hmore.
    destruct (IH (S start)
                (mkLocals (basisDegrees l ++ [getBasisDegree (basis s) start])
                   (knotVectors l ++ [knots_at s start]) (cRows l) (cCols l)
                   (cRowIdx l) (Z.of_nat start + 1) (size (knots_at s start)) 1)
                w rest)
      as (l' & Hrun & Hst & Hdeg & Hkv & Hidx);
      [lia | reflexivity | cbn [basisNum]; lia | exact Hw |].
    exists l'. split; [exact Hrun|]. split; [exact Hst|].
    cbn [basisDegrees knotVectors cRowIdx] in Hdeg, Hkv, Hidx.
    rewrite Hdeg, Hkv, Hidx, <- !app_assoc. repeat split.
Qed.

Lemma coefficient_row_length (C : Matrix) (i : nat) :
  length (coefficient_row C i) = cols C.
Proof. unfold coefficient_row. rewrite length_map, length_seq. reflexivity. Qed.

Lemma loaded_coefficients_same (s : BSpline) :
  rows (coefficients s) = 1%nat -> same_matrix (loaded_coefficients s) (coefficients s).
Proof.
  intros Hrows. unfold loaded_coefficients.
  destruct (row_written_size (resized 1 (cols (coefficients s))) 0 0
              (coefficient_row (coefficients s) 0)) as (Hr & Hc).
  split; [rewrite Hr, Hrows; reflexivity|]. split; [rewrite Hc; reflexivity|].
  rewrite Hr, Hc. cbn [resized rows cols]. intros i j Hi Hj.
  assert (i = 0%nat) as -> by lia.
  rewrite <- (Nat.add_0_l j) at 1.
  rewrite row_written_at by (rewrite coefficient_row_length; exact Hj).
  unfold coefficient_row. apply nth_map_seq. exact Hj.
Qed.

Lemma map_knots_at (s : BSpline) :
  map (knots_at s) (seq 0 (length (getKnotVectors (basis s))))
  = getKnotVectors (basis s).
Proof.
  unfold knots_at. generalize (getKnotVectors (basis s)). intros kvs.
  apply nth_ext with (d := []) (d' := []).
  - rewrite length_map, length_seq. reflexivity.
  - rewrite length_map, length_seq. intros i Hi.
    rewrite (nth_indep _ [] (nth 0 kvs [])) by (rewrite length_map, length_seq; exact Hi).
    rewrite (map_nth (fun i => nth i kvs [])), seq_nth by exact Hi. reflexivity.
Qed.

(** The decoder on the lines up to the sizes of the matrix. *)
Lemma load_lines_head (s : BSpline) (Hs : saveable s) b C K n t (rest : list string) :
  exists l,
    load_lines load_start (saved_head s ++ rest) (mkWorld (mkBSpline b C K n) t)
    = load_lines l rest
        (mkWorld (mkBSpline b (resized 1 (cols (coefficients s))) K (numVariables s)) t)
    /\ state l = 4 /\ cRows l = 1 /\ cCols l = Z.of_nat (cols (coefficients s))
    /\ cRowIdx l = 0
    /\ knotVectors l = getKnotVectors (basis s)
    /\ basisDegrees l = saved_degrees s.
Proof.
  pose proof (sv_count s Hs) as Hcount.
  destruct (sv_cols s Hs) as (Hc1 & Hc2).
  unfold saved_head. rewrite <- !app_assoc. cbn [app].
  change "# Saved BSpline"%string with (String "#" " Saved BSpline"%string).
  change ("# Number of bases: " ++ show_Z (numVariables s))%string
    with (String "#" (" Number of bases: " ++ show_Z (numVariables s))%string).
  rewrite !load_lines_skip_comment.
  rewrite (load_lines_cons _ _ _ _ _ _
             (load_line_count load_start (numVariables s) _ eq_refl ltac:(lia))).
  cbn [self trace]. unfold load_start.
  cbn [basisDegrees knotVectors cRows cCols cRowIdx basisNum knotVecLength].
  change (with_numVariables (mkBSpline b C K n) (numVariables s))
    with (mkBSpline b C K (numVariables s)).
  destruct (Z.to_nat (numVariables s)) as [|n'] eqn:Hnv; [lia|].
  destruct (load_lines_bases s Hs n' 0
              (mkLocals [] [] 0 0 0 0 0 1)
              (mkWorld (mkBSpline b C K (numVariables s)) t)
              ("# Coefficient matrix:"%string
               :: (show_Z 1 ++ " " ++ show_Z (Z.of_nat (cols (coefficients s))))%string
               :: rest))
    as (l1 & Hrun & Hst & Hdeg & Hkv & Hidx);
    [lia | reflexivity | reflexivity | reflexivity |].
  rewrite Hrun.
  change "# Coefficient matrix:"%string
    with (String "#" " Coefficient matrix:"%string).
  rewrite load_lines_skip_comment.
  rewrite (load_lines_cons _ _ _ _ _ _
             (load_line_dims l1 1 (cols (coefficients s)) b C K (numVariables s) t
                Hst ltac:(unfold INT_MAX; lia) Hc2)).
  eexists. split; [reflexivity|].
  cbn [state cRows cCols cRowIdx knotVectors basisDegrees].
  rewrite Hkv, Hdeg, Hidx. cbn [knotVectors basisDegrees cRowIdx app].
  repeat split.
  - rewrite <- Hnv, <- (sv_knot_vectors s Hs). apply map_knots_at.
  - unfold saved_degrees. rewrite Hnv. reflexivity.
Qed.

(** The decoder on the row of coefficients. *)
Lemma load_line_saved_row (s : BSpline) (Hs : saveable s) (l : load_locals) b K n t :
  state l = 4 -> cCols l = Z.of_nat (cols (coefficients s)) -> cRowIdx l = 0 ->
  load_line l (saved_row s)
    (mkWorld (mkBSpline b (resized 1 (cols (coefficients s))) K n) t)
  = (Return (mkLocals (basisDegrees l) (knotVectors l) (cRows l) (cCols l) 1
               (basisNum l) (knotVecLength l) 4, 1 >? cRows l),
     mkWorld (mkBSpline b (loaded_coefficients s) K n) t).
Proof.
  intros Hstate Hcols Hidx. destruct (sv_cols s Hs) as (Hc1 & Hc2).
  apply (load_line_row l (coefficient_row (coefficients s) 0) 0).
  - exact Hstate.
  - intros Hnil. apply (f_equal (@length _)) in Hnil.
    rewrite coefficient_row_length in Hnil. cbn [length] in Hnil. lia.
  - unfold size. rewrite coefficient_row_length. exact Hcols.
  - exact Hidx.
  - apply (sv_coefficients s Hs).
Qed.

(** The decoder on the whole file. *)
Lemma load_lines_saved (s : BSpline) (Hs : saveable s) b C K n t :
  exists l,
    load_lines load_start (saved_file s) (mkWorld (mkBSpline b C K n) t)
    = (Return l, mkWorld (mkBSpline b (loaded_coefficients s) K (numVariables s)) t)
    /\ knotVectors l = getKnotVectors (basis s)
    /\ basisDegrees l = saved_degrees s.
Proof.
  unfold saved_file.
  destruct (load_lines_head s Hs b C K n t [saved_row s])
    as (l & Hrun & Hst & Hrows & Hcols & Hidx & Hkv & Hdeg).
  rewrite Hrun. eexists. split.
  - eapply load_lines_last. apply (load_line_saved_row s Hs); assumption.
  - cbn [knotVectors basisDegrees]. split; assumption.
Qed.


(** X14.  For a surface of degrees from 1 on whose values are read back
    as written, [load] of the file that [save] writes is the construction
    from the saved knot vectors, degrees and coefficients: on a fresh object
    it is the explicit constructor itself. *)
Theorem load_of_save_is_explicit_construction (s : BSpline) :
  saveable s ->
  same_matrix (loaded_coefficients s) (coefficients s)
  /\ save s = Return (saved_file s)
  /\ (forall w,
        load (saved_file s) w
        = loadBasis (getKnotVectors (basis s)) (saved_degrees s)
            (mkWorld (mkBSpline (basis (self w)) (loaded_coefficients s)
                        (knotaverages (self w)) (numVariables s)) (trace w)))
  /\ load (saved_file s) (mkWorld blank [])
     = construct (BSpline_explicit (loaded_coefficients s)
                    (getKnotVectors (basis s)) (saved_degrees s)).
Proof.
  intros Hs.
  assert (Hload : forall b C K n t,
             load (saved_file s) (mkWorld (mkBSpline b C K n) t)
             = loadBasis (getKnotVectors (basis s)) (saved_degrees s)
                 (mkWorld (mkBSpline b (loaded_coefficients s) K (numVariables s)) t)).
  { intros b C K n t.
    destruct (load_lines_saved s Hs b C K n t) as (l & Hrun & Hkv & Hdeg).
    unfold load. rewrite (bind_run_return _ _ _ _ _ Hrun), Hkv, Hdeg. reflexivity. }
  split; [apply loaded_coefficients_same, (sv_rows s Hs)|].
  split; [apply save_saveable, Hs|].
  split.
  - intros [[b C K n] t]. apply Hload.
  - unfold blank. rewrite Hload.
    unfold construct, BSpline_explicit, blank. rewrite !bind_update.
    cbn [self trace with_coefficients with_numVariables basis coefficients
           knotaverages numVariables].
    unfold size. rewrite (sv_knot_vectors s Hs).
    pose proof (sv_count s Hs) as Hcount.
    rewrite Z2Nat.id, to_uint_small by lia. reflexivity.
Qed.

(** X16.  A file that ends before its row of coefficients is decoded
    without complaint: [load] goes on to build the basis with the matrix as
    [resize] left it. *)
Theorem load_accepts_missing_row (s : BSpline) (w : World) :
  saveable s ->
  load (saved_head s) w
  = loadBasis (getKnotVectors (basis s)) (saved_degrees s)
      (mkWorld (mkBSpline (basis (self w)) (resized 1 (cols (coefficients s)))
                  (knotaverages (self w)) (numVariables s)) (trace w)).
Proof.
  intros Hs. destruct w as [[b C K n] t].
  destruct (load_lines_head s Hs b C K n t [])
    as (l & Hrun & Hst & Hrows & Hcols & Hidx & Hkv & Hdeg).
  rewrite app_nil_r in Hrun.
  unfold load. unfold bind at 1. rewrite Hrun. cbn [load_lines].
  unfold ret. rewrite Hkv, Hdeg. reflexivity.
Qed.

(** ** What [save] needs *)

Lemma omap_throw {A B} (f : A -> outcome B) (e : cxx_error) (l : list A) :
  (forall a, In a l -> (exists b, f a = Return b) \/ f a = Throw e) ->
  (exists a, In a l /\ f a = Throw e) ->
  omap f l = Throw e.
Proof.
  induction l as [|x l IH]; intros Hall (a & Hin & Ha); [contradiction|].
  cbn [omap]. destruct (Hall x (or_introl eq_refl)) as [(b & Hb) | Hx].
  - rewrite Hb. cbn [obind]. rewrite IH; [reflexivity | |].
    + intros y Hy. apply Hall. right. exact Hy.
    + destruct Hin as [-> | Hin]; [congruence|]. exists a. split; assumption.
  - rewrite Hx. reflexivity.
Qed.

Lemma length_concat_pairs {A} (g : nat -> list string) (l : list A) (h : A -> nat) :
  (forall a, length (g (h a)) = 2%nat) ->
  length (List.concat (map (fun a => g (h a)) l)) = (2 * length l)%nat.
Proof.
  intros Hg. induction l as [|a l IH]; [reflexivity|].
  cbn [map List.concat]. rewrite length_app, Hg, IH. cbn [length]. lia.
Qed.

(** X17.  [save] returns, with 5 + 2 * numVariables + rows lines, when
    the basis has a knot vector for each variable; with fewer it leaves by
    [out_of_range] from [vector::at]. *)
Theorem save_needs_its_knot_vectors (s : BSpline) :
  let nv := Z.to_nat (numVariables s) in
  ((nv <= length (getKnotVectors (basis s)))%nat ->
     exists file, save s = Return file
                  /\ length file = (5 + 2 * nv + rows (coefficients s))%nat)
  /\ ((length (getKnotVectors (basis s)) < nv)%nat ->
      save s = Throw (out_of_range "vector::at")).
Proof.
  intros nv. split.
  - intros Hlen. unfold save. fold nv.
    rewrite (omap_return _ (fun i =>
               [ (show_Z (getBasisDegree (basis s) i) ++ " "
                  ++ show_Z (size (knots_at s i)))%string;
                 String.concat ""
                   (map (fun k => (show_double MS_SAVE_DOUBLE_PRECISION k ++ " ")%string)
                      (knots_at s i)) ])).
    2: { intros i Hi. apply in_seq in Hi.
         unfold save_basis_lines, vector_at, knots_at.
         rewrite (nth_error_nth' _ [] (n := i)) by lia. reflexivity. }
    cbn [obind]. eexists. split; [reflexivity|].
    rewrite !length_app, length_map, length_seq. cbn [length].
    rewrite (length_concat_pairs
               (fun i => [ (show_Z (getBasisDegree (basis s) i) ++ " "
                            ++ show_Z (size (knots_at s i)))%string;
                           String.concat ""
                             (map (fun k => (show_double MS_SAVE_DOUBLE_PRECISION k
                                             ++ " ")%string) (knots_at s i)) ])
               (seq 0 nv) (fun i => i)) by reflexivity.
    rewrite length_seq. lia.
  - intros Hlen. unfold save. fold nv.
    rewrite (omap_throw _ (out_of_range "vector::at")); [reflexivity | |].
    + intros i Hi. unfold save_basis_lines, vector_at.
      destruct (nth_error (getKnotVectors (basis s)) i) as [kv|];
        [left; eexists; reflexivity | right; reflexivity].
    + exists (length (getKnotVectors (basis s))). split; [apply in_seq; lia|].
      unfold save_basis_lines, vector_at.
      rewrite (proj2 (nth_error_None _ _)) by lia. reflexivity.
Qed.

(** ** Empty lines *)

Lemma reaches_cons l0 w0 line l1 w1 pre l w :
  load_line l0 line w0 = (Return (l1, false), w1) ->
  reaches l1 w1 pre l w ->
  reaches l0 w0 (line :: pre) l w.
Proof.
  intros Hline Hreach.
  induction Hreach as [|pre line' l w l' w' _ IH Hline'].
  - apply (reaches_snoc l0 w0 [] line l0 w0 l1 w1); [constructor | exact Hline].
  - apply (reaches_snoc l0 w0 (line :: pre) line' l w l' w'); assumption.
Qed.

Lemma run_lines_reaches (pre : list string) :
  forall l0 w0 l w, run_lines l0 w0 pre = Some (l, w) -> reaches l0 w0 pre l w.
Proof.
  induction pre as [|line pre IH]; intros l0 w0 l w Hrun.
  - cbn [run_lines] in Hrun. injection Hrun as <- <-. constructor.
  - cbn [run_lines] in Hrun.
    destruct (load_line l0 line w0) as [[[l1 [|]]|e] w1] eqn:Hline; try discriminate.
    apply (reaches_cons l0 w0 line l1 w1); [exact Hline | apply IH, Hrun].
Qed.

(** X18.  An empty line makes [load] leave by [out_of_range], from
    [line.at(0)], in whatever state the decoder is. *)
Theorem load_rejects_empty_line
    (w0 : World) (pre post : list string) (l : load_locals) (w : World) :
  reaches load_start w0 pre l w ->
  load (pre ++ ""%string :: post) w0
  = (Throw (out_of_range "basic_string::at"), w).
Proof.
  intros Hreach. apply (load_stops_at_error w0 pre ""%string post l w).
  - exact Hreach.
  - reflexivity.
Qed.

(** ** Refusals *)

(** X19.  When [insertKnots], [refineKnotVectors] or
    [removeUnsupportedBasisFunctions] returns [false], the coefficients, the
    knot averages and the log are as before the call. *)
Theorem refusal_keeps_control_points (w : World) :
  (forall tau dim m,
      fst (insertKnots tau dim m w) = Return false ->
      same_control_points w (snd (insertKnots tau dim m w)))
  /\ (fst (refineKnotVectors w) = Return false ->
      same_control_points w (snd (refineKnotVectors w)))
  /\ (forall lb ub,
      fst (removeUnsupportedBasisFunctions lb ub w) = Return false ->
      same_control_points w (snd (removeUnsupportedBasisFunctions lb ub w))).
Proof.
  split; [|split].
  - intros tau dim m. unfold insertKnots. rewrite bind_this.
    destruct (_ >? _); [intros _; repeat split|].
    destruct (basis_insertKnots (basis (self w)) tau dim m) as [[ok A] b'].
    rewrite bind_update. destruct ok; cbn [negb]; [|intros _; repeat split].
    read_this. cbn [self with_basis coefficients].
    destruct (cols A =? cols (coefficients (self w)))%nat; [|discriminate].
    rewrite bind_assert_true, !bind_update. discriminate.
  - unfold refineKnotVectors. rewrite bind_this.
    destruct (basis_refineKnots (basis (self w))) as [[ok A] b'].
    rewrite bind_update. destruct ok; cbn [negb]; [|intros _; repeat split].
    read_this. cbn [self with_basis coefficients].
    destruct (cols A =? cols (coefficients (self w)))%nat; [|discriminate].
    rewrite bind_assert_true, !bind_update. discriminate.
  - intros lb ub. unfold removeUnsupportedBasisFunctions. rewrite bind_this.
    destruct (size lb =? numVariables (self w)); [|discriminate].
    rewrite bind_assert_true.
    destruct (size ub =? numVariables (self w)); [|discriminate].
    rewrite bind_assert_true.
    destruct (basis_reduceSupport (basis (self w)) lb ub) as [[ok A] b'].
    rewrite bind_update. destruct ok; cbn [negb]; [|intros _; repeat split].
    read_this. cbn [self with_basis coefficients].
    destruct (cols (coefficients (self w)) =? rows A)%nat; cbn [negb];
      [|intros _; repeat split].
    rewrite !bind_update. discriminate.
Qed.

(** ** Derivatives *)

Context {BD : BasisDerivatives}.

Section Blocks.

Hypothesis exact : exact_arithmetic.

Hypothesis mul_1_l : forall a, dmul d1 a = a.

Lemma add_0_r_exact a : dadd a d0 = a.
Proof. rewrite (add_comm exact). apply (add_0_l exact). Qed.

Lemma dsum_app (a b : nat) (f : nat -> double) :
  dsum (a + b) f = dadd (dsum a f) (dsum b (fun k => f (a + k)%nat)).
Proof.
  induction b as [|b IH].
  - rewrite Nat.add_0_r. symmetry. apply add_0_r_exact.
  - rewrite Nat.add_succ_r, !dsum_S, IH. symmetry. apply (add_assoc exact).
Qed.

(** The unit row [i] of the identity picks term [i] of a sum. *)
Lemma dsum_delta (n i : nat) (g : nat -> double) :
  (i < n)%nat ->
  dsum n (fun k => dmul (if (i =? k)%nat then d1 else d0) (g k)) = g i.
Proof.
  induction n as [|n IH]; intros Hi; [lia|].
  rewrite dsum_S. destruct (Nat.eq_dec i n) as [-> | Hne].
  - rewrite Nat.eqb_refl, mul_1_l.
    rewrite (dsum_ext n _ (fun _ => d0)).
    + rewrite (dsum_zero exact). apply (add_0_l exact).
    + intros k Hk. destruct (Nat.eqb_spec n k); [lia|]. apply (mul_0_l exact).
  - rewrite IH by lia. destruct (Nat.eqb_spec i n); [contradiction|].
    rewrite (mul_0_l exact). apply add_0_r_exact.
Qed.

(** In a sum over [n] blocks of length [N], the unit row [i] of the
    identity leaves block [i]. *)
Lemma dsum_block (N : nat) (c g : nat -> double) (i : nat) :
  forall n, (i < n)%nat ->
    dsum (n * N)
      (fun m => dmul (dmul (if (i =? m / N)%nat then d1 else d0) (c (m mod N)%nat)) (g m))
    = dsum N (fun k => dmul (c k) (g (i * N + k)%nat)).
Proof.
  destruct N as [|N'].
  { intros n _. rewrite Nat.mul_0_r. reflexivity. }
  set (N := S N').
  assert (Hblock : forall b k, (k < N)%nat ->
             ((b * N + k) / N = b /\ (b * N + k) mod N = k)%nat).
  { intros b k Hk. split.
    - rewrite Nat.add_comm, Nat.div_add by (unfold N; lia).
      rewrite Nat.div_small by exact Hk. reflexivity.
    - rewrite Nat.add_comm, Nat.Div0.mod_add. apply Nat.mod_small. exact Hk. }
  assert (Hzero : forall n, (n <= i)%nat ->
             dsum (n * N)
               (fun m => dmul (dmul (if (i =? m / N)%nat then d1 else d0)
                                    (c (m mod N)%nat)) (g m)) = d0).
  { intros n Hn.
    transitivity (dsum (n * N) (fun _ => d0)); [|apply (dsum_zero exact)].
    apply dsum_ext. intros m Hm.
    assert (Hdiv : (m / N < n)%nat) by (apply Nat.Div0.div_lt_upper_bound; lia).
    destruct (Nat.eqb_spec i (m / N)); [lia|].
    rewrite (mul_0_l exact). apply (mul_0_l exact). }
  induction n as [|n IH]; intros Hi; [lia|].
  rewrite Nat.mul_succ_l, dsum_app.
  destruct (Nat.eq_dec i n) as [-> | Hne].
  - rewrite Hzero by lia. rewrite (add_0_l exact).
    apply dsum_ext. intros k Hk.
    destruct (Hblock n k Hk) as (-> & ->).
    rewrite Nat.eqb_refl, mul_1_l. reflexivity.
  - rewrite IH by lia.
    assert (Hlast :
              dsum N (fun k =>
                        dmul (dmul (if (i =? (n * N + k) / N)%nat then d1 else d0)
                                   (c ((n * N + k) mod N)%nat)) (g (n * N + k)%nat))
              = d0).
    { transitivity (dsum N (fun _ => d0)); [|apply (dsum_zero exact)].
      apply dsum_ext. intros k Hk. destruct (Hblock n k Hk) as (-> & _).
      destruct (Nat.eqb_spec i n); [contradiction|].
      rewrite (mul_0_l exact). apply (mul_0_l exact). }
    rewrite Hlast. apply add_0_r_exact.
Qed.

(** X21.  In exact arithmetic, row [i] of the Hessian is the coefficient
    row times block [i] of the basis Hessian: the Kronecker product with
    the identity only selects the block. *)
Theorem evalHessian_row_is_block (s : BSpline) (x Hm : Matrix) :
  rows (coefficients s) = 1%nat ->
  evalHessian s x = Return Hm ->
  rows Hm = Z.to_nat (numVariables s)
  /\ cols Hm = cols (evalBasisHessian (basis s) x)
  /\ forall i j, (i < rows Hm)%nat ->
       coeff Hm i j
       = dsum (cols (coefficients s))
           (fun k => dmul (coeff (coefficients s) 0 k)
                          (coeff (evalBasisHessian (basis s) x)
                                 (i * cols (coefficients s) + k) j)).
Proof.
  intros Hrow. unfold evalHessian.
  destruct (negb (pointInDomain s x)); [discriminate|].
  intros Heq. injection Heq as <-.
  cbn [mat_mul kroneckerProduct identity rows cols coeff]. rewrite Hrow.
  split; [lia|]. split; [reflexivity|].
  rewrite Nat.mul_1_r. intros i j Hi.
  rewrite <- (dsum_block (cols (coefficients s)) (coeff (coefficients s) 0)
                (fun m => coeff (evalBasisHessian (basis s) x) m j) i
                (Z.to_nat (numVariables s)) Hi).
  apply dsum_ext. intros m _.
  rewrite Nat.div_1_r, Nat.mod_1_r. reflexivity.
Qed.

End Blocks.

(** ** The round trip through a file *)





Lemma ignores_matrix_emit C e : ignores_matrix C (emit e).
Proof. intros w. reflexivity. Qed.



Lemma ignores_matrix_basis C (b : BSplineBasis) :
  ignores_matrix C (update (fun s => with_basis s b)).
Proof. intros w. destruct w as [[b0 C0 K n] t]. reflexivity. Qed.










End MoreFacts.

(** * Knot insertion on the reference layer *)

Import Reference Insertion.

(** The rationals are an exact arithmetic. *)
Lemma Qc_exact : exact_arithmetic.
Proof.
  constructor; simpl; intros.
  - apply Qcplus_0_l.
  - apply Qcplus_comm.
  - apply Qcplus_assoc.
  - apply Qcmult_0_l.
  - apply Qcmult_0_r.
  - apply Qcmult_assoc.
  - apply Qcmult_plus_distr_r.
  - apply Qcmult_plus_distr_l.
Defined.

Section InsertionFacts.
Local Open Scope Qc_scope.

(** ** Order and ratios of rationals *)

Lemma qleb_le (a b : Qc) : qleb a b = true <-> a <= b.
Proof. unfold qleb, Qcle. apply Qle_bool_iff. Qed.

Lemma qltb_lt (a b : Qc) : qltb a b = true <-> a < b.
Proof.
  unfold qltb, Qclt. rewrite negb_true_iff.
  split.
  - intros Hn. apply Qnot_le_lt. intros Hle. apply Qle_bool_iff in Hle. congruence.
  - intros Hlt. destruct (Qle_bool b a) eqn:Hb; [|reflexivity].
    apply Qle_bool_iff in Hb. exfalso. apply (Qlt_not_le _ _ Hlt Hb).
Qed.

Lemma qeqb_true (a b : Qc) : qeqb a b = true <-> a = b.
Proof.
  unfold qeqb. rewrite Qeq_bool_iff. split; [apply Qc_is_canon | intros ->; reflexivity].
Qed.

Lemma qleb_false (a b : Qc) : qleb a b = false <-> b < a.
Proof.
  split.
  - intros Hn. apply Qcnot_le_lt. intros Hle. apply qleb_le in Hle. congruence.
  - intros Hlt. destruct (qleb a b) eqn:Hb; [|reflexivity].
    apply qleb_le in Hb. exfalso. apply (Qclt_not_le _ _ Hlt Hb).
Qed.

Lemma qltb_false (a b : Qc) : qltb a b = false <-> b <= a.
Proof.
  split.
  - intros Hn. apply Qcnot_lt_le. intros Hlt. apply qltb_lt in Hlt. congruence.
  - intros Hle. destruct (qltb a b) eqn:Hb; [|reflexivity].
    apply qltb_lt in Hb. exfalso. apply (Qcle_not_lt _ _ Hle Hb).
Qed.

Lemma qeqb_false (a b : Qc) : qeqb a b = false <-> a <> b.
Proof.
  split.
  - intros Hn Heq. apply qeqb_true in Heq. congruence.
  - intros Hne. destruct (qeqb a b) eqn:Hb; [|reflexivity].
    apply qeqb_true in Hb. contradiction.
Qed.

Lemma ratio_zero (num : Qc) : ratio num 0 = 0.
Proof. unfold ratio. change (q 0) with 0. rewrite (proj2 (qeqb_true 0 0) eq_refl). reflexivity. Qed.

Lemma ratio_div (num den : Qc) : den <> 0 -> ratio num den = num / den.
Proof.
  intros Hne. unfold ratio. change (q 0) with 0.
  rewrite (proj2 (qeqb_false den 0) Hne). reflexivity.
Qed.

Lemma minus_nonzero (a b : Qc) : a < b -> b - a <> 0.
Proof.
  intros Hlt Heq. apply (Qclt_not_eq _ _ Hlt).
  assert (E : b = b - a + a) by ring. rewrite E, Heq. ring.
Qed.

Lemma nondecreasing_knot (t : list Qc) :
  nondecreasing t = true ->
  forall i j, (i <= j < length t)%nat -> knot t i <= knot t j.
Proof.
  induction t as [|a t IH]; intros Hs i j Hij; [simpl in Hij; lia|].
  assert (Hhd : forall j, (j < length (a :: t))%nat -> a <= knot (a :: t) j).
  { clear i j Hij. revert a Hs IH. induction t as [|b t IHt]; intros a Hs IH j Hj.
    - simpl in Hj. assert (j = 0)%nat as -> by lia. apply Qcle_refl.
    - cbn [nondecreasing] in Hs. apply andb_prop in Hs as [Hab Hs].
      apply qleb_le in Hab.
      destruct j as [|j]; [apply Qcle_refl|].
      apply (Qcle_trans _ _ _ Hab). unfold knot. cbn [nth].
      apply (IHt b Hs).
      + intros Hs' i' j' Hij'. apply (IH Hs (S i') (S j')). simpl in *. lia.
      + simpl in *. lia. }
  destruct i as [|i].
  - apply Hhd. lia.
  - destruct j as [|j]; [lia|]. unfold knot. cbn [nth].
    apply IH; [|simpl in Hij; lia].
    destruct t as [|b t]; [reflexivity|].
    cbn [nondecreasing] in Hs. apply andb_prop in Hs as [_ Hs]. exact Hs.
Qed.

(** ** A knot vector with one more knot *)

Lemma length_insert_after (t : list Qc) (k : nat) (tau : Qc) :
  (S k <= length t)%nat -> length (insert_after t k tau) = S (length t).
Proof.
  intros Hk. unfold insert_after.
  rewrite length_app, length_firstn. cbn [length]. rewrite length_skipn. lia.
Qed.

Lemma knot_insert_after (t : list Qc) (k : nat) (tau : Qc) (i : nat) :
  (S k <= length t)%nat ->
  knot (insert_after t k tau) i
  = if (i <=? k)%nat then knot t i
    else if (i =? S k)%nat then tau else knot t (i - 1).
Proof.
  intros Hk. unfold knot, insert_after.
  assert (Hlen : length (firstn (S k) t) = S k) by (rewrite length_firstn; lia).
  destruct (Nat.leb_spec i k) as [Hle | Hgt].
  - rewrite app_nth1 by lia. rewrite nth_firstn.
    destruct (Nat.ltb_spec i (S k)); [reflexivity | lia].
  - rewrite app_nth2 by lia. rewrite Hlen.
    destruct (Nat.eqb_spec i (S k)) as [-> | Hne].
    + rewrite Nat.sub_diag. reflexivity.
    + destruct (i - S k)%nat as [|d] eqn:Hd; [lia|]. cbn [nth].
      rewrite nth_skipn. f_equal. lia.
Qed.

Lemma last_nth (t : list Qc) : last t (q 0) = knot t (length t - 1).
Proof.
  unfold knot. induction t as [|a t IH]; [reflexivity|].
  destruct t as [|b t]; [reflexivity|].
  change (last (a :: b :: t) (q 0)) with (last (b :: t) (q 0)). rewrite IH.
  cbn [length]. replace (S (S (length t)) - 1)%nat with (S (S (length t) - 1)) by lia.
  reflexivity.
Qed.

Lemma last_insert_after (t : list Qc) (k : nat) (tau : Qc) :
  (S k < length t)%nat ->
  last (insert_after t k tau) (q 0) = last t (q 0).
Proof.
  intros Hk. rewrite !last_nth, length_insert_after by lia.
  rewrite knot_insert_after by lia.
  destruct (Nat.leb_spec (S (length t) - 1) k); [lia|].
  destruct (Nat.eqb_spec (S (length t) - 1) (S k)); [lia|].
  f_equal. lia.
Qed.

Lemma find_span_some (t : list Qc) (tau : Qc) (k : nat) :
  find_span t tau = Some k ->
  (S k < length t)%nat /\ knot t k <= tau /\ tau < knot t (S k).
Proof.
  unfold find_span. intros Hf. apply find_some in Hf as [Hin Hk].
  apply in_seq in Hin. apply andb_prop in Hk as [H1 H2].
  apply qleb_le in H1. apply qltb_lt in H2. repeat split; [lia | assumption..].
Qed.

Lemma sorted_insert_after (t : list Qc) (k : nat) (tau : Qc) :
  sorted_knots t -> (S k < length t)%nat ->
  knot t k <= tau -> tau < knot t (S k) ->
  sorted_knots (insert_after t k tau).
Proof.
  intros Hs Hk Hlo Hhi i j Hij.
  rewrite length_insert_after in Hij by lia.
  rewrite !knot_insert_after by lia.
  destruct (Nat.leb_spec i k) as [Hik | Hik].
  - destruct (Nat.leb_spec j k) as [Hjk | Hjk]; [apply Hs; lia|].
    destruct (Nat.eqb_spec j (S k)) as [-> | Hne].
    + apply (Qcle_trans _ (knot t k)); [apply Hs; lia | exact Hlo].
    + apply Hs. lia.
  - destruct (Nat.leb_spec j k); [lia|].
    destruct (Nat.eqb_spec i (S k)) as [-> | Hne].
    + destruct (Nat.eqb_spec j (S k)); [apply Qcle_refl|].
      apply (Qcle_trans _ (knot t (S k))); [apply Qclt_le_weak, Hhi | apply Hs; lia].
    + destruct (Nat.eqb_spec j (S k)); [lia|]. apply Hs. lia.
Qed.

Ltac qc_order :=
  unfold Qcle, Qclt in *;
  repeat match goal with
         | H : @eq Qc ?a ?b |- _ =>
             let E := fresh in
             assert (E : (this a == this b)%Q) by (rewrite H; reflexivity);
             clear H
         end;
  lra.

Ltac qring := change (q 1) with 1; change (q 0) with 0; ring.

(** A basis function whose knots are all one value is zero. *)
Lemma cox_de_boor_degenerate (t : list Qc) (x : Qc) (d i : nat) :
  sorted_knots t -> (i + d + 1 < length t)%nat ->
  knot t i = knot t (i + d + 1) -> cox_de_boor t x d i = 0.
Proof.
  intros Hs Hlen Heq. destruct d as [|d].
  - replace (i + 0 + 1)%nat with (S i) in Heq by lia.
    cbn [cox_de_boor]. rewrite <- Heq.
    assert (H1 : qleb (knot t i) x && qltb x (knot t i) = false).
    { destruct (qleb (knot t i) x) eqn:Ha; [|reflexivity].
      apply qleb_le in Ha. apply qltb_false. exact Ha. }
    assert (H2 : qltb (knot t i) x && qeqb (knot t i) x = false).
    { destruct (qeqb (knot t i) x) eqn:Ha; [|apply andb_false_r].
      apply qeqb_true in Ha. rewrite andb_true_r. apply qltb_false.
      rewrite Ha. apply Qcle_refl. }
    rewrite H1. rewrite <- andb_assoc, H2, andb_false_r. reflexivity.
  - cbn [cox_de_boor].
    pose proof (Hs i (i + S d)%nat ltac:(lia)) as H1.
    pose proof (Hs (i + S d)%nat (i + S d + 1)%nat ltac:(lia)) as H2.
    pose proof (Hs i (S i) ltac:(lia)) as H3.
    pose proof (Hs (S i) (i + S d + 1)%nat ltac:(lia)) as H4.
    assert (E1 : knot t (i + S d) = knot t i) by (apply Qcle_antisym; qc_order).
    assert (E2 : knot t (i + S d + 1) = knot t (S i)) by (apply Qcle_antisym; qc_order).
    rewrite E1, E2.
    replace (knot t i - knot t i) with 0 by ring.
    replace (knot t (S i) - knot t (S i)) with 0 by ring.
    rewrite !ratio_zero. ring.
Qed.

Section OneKnot.
Variables (t : list Qc) (tau : Qc) (k : nat) (x : Qc).
Hypothesis Hs : sorted_knots t.
Hypothesis Hk : (S k < length t)%nat.
Hypothesis Hlo : knot t k <= tau.
Hypothesis Hhi : tau < knot t (S k).

Let t' := insert_after t k tau.

Lemma knot_before (i : nat) : (i <= k)%nat -> knot t' i = knot t i.
Proof.
  intros Hi. unfold t'. rewrite knot_insert_after by lia.
  destruct (Nat.leb_spec i k); [reflexivity | lia].
Qed.

Lemma knot_at : knot t' (S k) = tau.
Proof.
  unfold t'. rewrite knot_insert_after by lia.
  destruct (Nat.leb_spec (S k) k); [lia|]. rewrite Nat.eqb_refl. reflexivity.
Qed.

Lemma knot_behind (i : nat) : (k < i)%nat -> knot t' (S i) = knot t i.
Proof.
  intros Hi. unfold t'. rewrite knot_insert_after by lia.
  destruct (Nat.leb_spec (S i) k); [lia|].
  destruct (Nat.eqb_spec (S i) (S k)); [lia|].
  rewrite Nat.sub_succ, Nat.sub_0_r. reflexivity.
Qed.

Lemma last_same : last t' (q 0) = last t (q 0).
Proof. apply last_insert_after. exact Hk. Qed.

Lemma sorted_refined : sorted_knots t'.
Proof. apply sorted_insert_after; assumption. Qed.

Lemma length_refined : length t' = S (length t).
Proof. apply length_insert_after. lia. Qed.

Lemma last_above : knot t (S k) <= last t (q 0).
Proof. rewrite last_nth. apply Hs. lia. Qed.

Lemma boehm_degree_0 (j : nat) :
  (j + 1 < length t)%nat ->
  cox_de_boor t x 0 j
  = alpha t 0 tau k j * cox_de_boor t' x 0 j
    + (1 - alpha t 0 tau k (S j)) * cox_de_boor t' x 0 (S j).
Proof.
  intros Hj. unfold alpha. rewrite !Nat.add_0_r. change (q 1) with 1. change (q 0) with 0.
  cbn [cox_de_boor]. rewrite last_same.
  destruct (Nat.lt_trichotomy j k) as [Hlt | [-> | Hgt]].
  - destruct (Nat.leb_spec j k); [|lia]. destruct (Nat.leb_spec (S j) k); [|lia].
    rewrite knot_before, (knot_before (S j)) by lia.
    qring.
  - destruct (Nat.leb_spec k k); [|lia]. destruct (Nat.leb_spec (S k) k); [lia|].
    destruct (Nat.ltb_spec k (S k)); [|lia].
    rewrite knot_before by lia. rewrite knot_at, (knot_behind (S k)) by lia.
    pose proof last_above as Hlast.
    destruct (Qclt_le_dec x tau) as [Hx | Hx].
    + assert (E1 : qltb x tau = true) by (apply qltb_lt; exact Hx).
      assert (E2 : qltb x (knot t (S k)) = true) by (apply qltb_lt; qc_order).
      assert (E3 : qeqb tau x = false) by (apply qeqb_false; intros E; qc_order).
      assert (E4 : qeqb (knot t (S k)) x = false)
        by (apply qeqb_false; intros E; qc_order).
      assert (E5 : qleb tau x = false) by (apply qleb_false; exact Hx).
      rewrite E1, E2, E3, E4, E5. rewrite !andb_true_r, !andb_false_r, !orb_false_r.
      cbn [andb orb]. destruct (qleb (knot t k) x); qring.
    + assert (E1 : qltb x tau = false) by (apply qltb_false; exact Hx).
      assert (E5 : qleb tau x = true) by (apply qleb_le; exact Hx).
      assert (E6 : qleb (knot t k) x = true) by (apply qleb_le; qc_order).
      assert (E7 : qeqb x (last t (q 0)) && qltb (knot t k) x && qeqb tau x = false).
      { destruct (qeqb tau x) eqn:Ha; [|apply andb_false_r].
        apply qeqb_true in Ha.
        destruct (qeqb x (last t (q 0))) eqn:Hb; [|reflexivity].
        apply qeqb_true in Hb. exfalso. qc_order. }
      rewrite E1, E5, E6, E7. cbn [andb orb].
      destruct (qeqb (knot t (S k)) x) eqn:Ha.
      * apply qeqb_true in Ha.
        assert (E8 : qltb (knot t k) x = true) by (apply qltb_lt; qc_order).
        assert (E9 : qltb tau x = true) by (apply qltb_lt; qc_order).
        rewrite E8, E9. cbn [andb]. rewrite !andb_true_r.
        destruct (qltb x (knot t (S k)) || qeqb x (last t (q 0))); qring.
      * rewrite !andb_false_r, !orb_false_r.
        destruct (qltb x (knot t (S k))); qring.
  - destruct (Nat.leb_spec j k); [lia|]. destruct (Nat.leb_spec (S j) k); [lia|].
    destruct (Nat.ltb_spec k j); [|lia]. destruct (Nat.ltb_spec k (S j)); [|lia].
    rewrite (knot_behind j), (knot_behind (S j)) by lia.
    qring.
Qed.

End OneKnot.

(** ** Boehm's identity *)

Section OneKnotMore.
Variables (t : list Qc) (tau : Qc) (k : nat) (x : Qc).
Hypothesis Hs : sorted_knots t.
Hypothesis Hk : (S k < length t)%nat.
Hypothesis Hlo : knot t k <= tau.
Hypothesis Hhi : tau < knot t (S k).

Let t' := insert_after t k tau.

Lemma new_knot_before (i : nat) : (i <= k)%nat -> knot t' i = knot t i.
Proof. apply knot_before. exact Hk. Qed.

Lemma new_knot_at (i : nat) : i = S k -> knot t' i = tau.
Proof. intros ->. apply knot_at. exact Hk. Qed.

Lemma new_knot_behind (i : nat) : (k < i)%nat -> knot t' (S i) = knot t i.
Proof. apply knot_behind. exact Hk. Qed.

Ltac decide_tests :=
  repeat match goal with
         | |- context [(?a <=? ?b)%nat] => destruct (Nat.leb_spec a b); try lia
         | |- context [(?a <? ?b)%nat] => destruct (Nat.ltb_spec a b); try lia
         end.

Ltac new_knots :=
  repeat match goal with
         | |- context [knot t' ?i] =>
             first [ rewrite (new_knot_before i) by lia
                   | rewrite (new_knot_at i) by lia ]
         | |- context [knot t' (S ?i)] => rewrite (new_knot_behind i) by lia
         end.

Ltac order_facts j n :=
  let go a b := try (let H := fresh "Ho" in pose proof (Hs a b ltac:(lia)) as H) in
  go j (S j); go (S j) (S (S j)); go j k; go (S j) k; go (S (S j)) k;
  go k n; go (S k) n; go (S k) (S n); go (S k) (S (S n)); go n (S n); go (S n) (S (S n));
  go j n; go (S j) (S n); go (S (S j)) (S (S n)); go (S j) n; go (S (S j)) (S n);
  go (S (S j)) n; go n k; go (S n) k; go (S (S n)) k; go k j; go (S k) j;
  go (S k) (S j); go (S k) (S (S j)).

Ltac nonzero := apply minus_nonzero; qc_order.

Ltac ratios :=
  repeat match goal with
         | |- context [ratio ?a ?b] => rewrite (ratio_div a b) by nonzero
         end.

Ltac finish :=
  change (q 1) with 1; change (q 0) with 0;
  first [ ring | field; repeat split; nonzero ].

Lemma boehm_identity (p : nat) :
  forall j, (j + p + 1 < length t)%nat ->
    cox_de_boor t x p j
    = alpha t p tau k j * cox_de_boor t' x p j
      + (1 - alpha t p tau k (S j)) * cox_de_boor t' x p (S j).
Proof.
  induction p as [|p' IH]; intros j Hj.
  { apply boehm_degree_0; try assumption; lia. }
  cbn [cox_de_boor].
  rewrite (IH j) by lia. rewrite (IH (S j)) by lia.
  unfold alpha.
  set (n := (j + p')%nat).
  replace (j + S p')%nat with (S n) by lia.
  replace (S j + p')%nat with (S n) by lia.
  replace (S (S j) + p')%nat with (S (S n)) by lia.
  replace (S j + S p')%nat with (S (S n)) by lia.
  replace (S n + 1)%nat with (S (S n)) by lia.
  replace (S (S n) + 1)%nat with (S (S (S n))) by lia.
  assert (Hn : (j <= n)%nat) by lia.
  assert (Hlen : (S (S n) < length t)%nat) by lia.
  assert (Hnp : S n = (j + p' + 1)%nat) by lia.
  assert (Hnp' : S (S n) = (S j + p' + 1)%nat) by lia.
  clearbody n. clear IH Hj.
  pose proof (sorted_refined t tau k Hs Hk Hlo Hhi) as Hs'.
  pose proof (length_refined t tau k Hk) as Hlen'.
  fold t' in Hs', Hlen'.
  assert (HA : knot t' j = knot t' (S n) -> cox_de_boor t' x p' j = 0).
  { intros E. apply cox_de_boor_degenerate; [exact Hs' | lia |].
    rewrite <- Hnp. exact E. }
  assert (HB : knot t' (S j) = knot t' (S (S n)) -> cox_de_boor t' x p' (S j) = 0).
  { intros E. apply cox_de_boor_degenerate; [exact Hs' | lia |].
    rewrite <- Hnp'. exact E. }
  set (A := cox_de_boor t' x p' j) in *.
  set (B := cox_de_boor t' x p' (S j)) in *.
  set (C := cox_de_boor t' x p' (S (S j))).
  clearbody A B C.
  destruct (le_lt_dec (S (S n)) k) as [R1 | R1].
  { decide_tests. new_knots. finish. }
  destruct (Nat.eq_dec (S n) k) as [R2 | R2].
  { destruct (Qcle_lt_or_eq _ _ (Qcle_trans _ _ _ (Hs (S j) k ltac:(lia)) Hlo))
      as [Hd | Hd].
    - decide_tests; new_knots; order_facts j n; ratios; finish.
    - rewrite HB in * by (rewrite (new_knot_before (S j)), (new_knot_at (S (S n))) by lia;
                          exact Hd).
      decide_tests; new_knots; order_facts j n; ratios; finish. }
  destruct (lt_eq_lt_dec j k) as [[R3 | R4] | R5].
  - destruct (Nat.eq_dec n k) as [Hnk | Hnk].
    + destruct (Qcle_lt_or_eq _ _ (Qcle_trans _ _ _ (Hs j k ltac:(lia)) Hlo))
        as [Hd | Hd].
      * decide_tests; new_knots; order_facts j n; ratios; finish.
      * rewrite HA in * by (rewrite (new_knot_before j), (new_knot_at (S n)) by lia;
                            exact Hd).
        decide_tests; new_knots; order_facts j n; ratios; finish.
    + decide_tests; new_knots; order_facts j n; ratios; finish.
  - destruct (Nat.eq_dec n k) as [Hnk | Hnk].
    + destruct (Qcle_lt_or_eq _ _ (Qcle_trans _ _ _ (Hs j k ltac:(lia)) Hlo))
        as [Hd | Hd].
      * decide_tests; new_knots; order_facts j n; ratios; finish.
      * rewrite HA in * by (rewrite (new_knot_before j), (new_knot_at (S n)) by lia;
                            exact Hd).
        decide_tests; new_knots; order_facts j n; ratios; finish.
    + decide_tests; new_knots; order_facts j n; ratios; finish.
  - decide_tests. new_knots. finish.
Qed.

End OneKnotMore.

(** ** The insertion matrix of one variable *)

Lemma value1_inside (t : list Qc) (p : nat) (x : Qc) (i : nat) :
  (i < count1 (t, p))%nat -> value1 t p x i = cox_de_boor t x p i.
Proof.
  intros Hi. unfold value1, vec, eval1, vector_of_list. cbn [coeff fst snd].
  apply (@nth_map_seq Qc_double (cox_de_boor t x p)). exact Hi.
Qed.

(** A sum with two terms that do not vanish. *)
Lemma dsum_two (n : nat) (f : nat -> Qc) (j : nat) :
  (S j < n)%nat ->
  (forall i, (i < n)%nat -> i <> j -> i <> S j -> f i = 0) ->
  dsum n f = f j + f (S j).
Proof.
  intros Hj Hz.
  assert (Hlow : forall m, (m <= j)%nat -> dsum m f = 0).
  { induction m as [|m IH]; intros Hm; [reflexivity|].
    rewrite dsum_S, IH by lia. rewrite Hz by lia. cbn. ring. }
  assert (Hhigh : forall m, (S (S j) <= m)%nat -> (m <= n)%nat ->
                    dsum m f = f j + f (S j)).
  { induction m as [|m IH]; intros Hm Hn; [lia|].
    rewrite dsum_S. destruct (Nat.eq_dec m (S j)) as [-> | Hne].
    - rewrite dsum_S, Hlow by lia. cbn. ring.
    - rewrite IH by lia. rewrite (Hz m) by lia. cbn. ring. }
  apply Hhigh; lia.
Qed.

Lemma boehm_matrix_coeff (t : list Qc) (p : nat) (tau : Qc) (k i j : nat) :
  coeff (boehm_matrix t p tau k) i j
  = if (j =? i)%nat then alpha t p tau k i
    else if (S j =? i)%nat then 1 - alpha t p tau k i
    else 0.
Proof. reflexivity. Qed.

(** One insertion: the matrix of Boehm's step relates the two bases. *)
Lemma boehm_matrix_refines (t : list Qc) (p : nat) (tau : Qc) (k : nat) (x : Qc) :
  sorted_knots t -> (p + 1 < length t)%nat ->
  find_span t tau = Some k ->
  refines1 (boehm_matrix t p tau k) t (insert_after t k tau) p x.
Proof.
  intros Hs Hlen Hspan j Hj.
  destruct (find_span_some t tau k Hspan) as (Hk & Hlo & Hhi).
  cbn [boehm_matrix cols rows] in *.
  set (n := (length t - p - 1)%nat) in *.
  rewrite (dsum_two (S n) _ j).
  2:{ lia. }
  2:{ intros i Hi Hne1 Hne2. rewrite boehm_matrix_coeff.
      destruct (Nat.eqb_spec j i); [congruence|].
      destruct (Nat.eqb_spec (S j) i); [congruence|]. cbn. ring. }
  rewrite !boehm_matrix_coeff, Nat.eqb_refl.
  destruct (Nat.eqb_spec j (S j)); [lia|].
  rewrite !value1_inside
    by (unfold count1; cbn [fst snd]; rewrite ?length_insert_after; lia).
  cbn [dmul Qc_double]. rewrite Nat.eqb_refl.
  apply boehm_identity; try assumption. lia.
Qed.

Lemma rows_boehm_matrix (t : list Qc) (p : nat) (tau : Qc) (k : nat) :
  (p + 1 < length t)%nat -> (S k <= length t)%nat ->
  rows (boehm_matrix t p tau k) = count1 (insert_after t k tau, p).
Proof.
  intros Hlen Hk. unfold count1. cbn [boehm_matrix rows fst snd].
  rewrite length_insert_after by exact Hk. lia.
Qed.

(** Two refinements compose to the product of their matrices. *)
Lemma refines1_compose (A B : Matrix) (t0 t1 t2 : list Qc) (p : nat) (x : Qc) :
  rows A = cols B ->
  refines1 A t0 t1 p x -> refines1 B t1 t2 p x ->
  refines1 (mat_mul B A) t0 t2 p x.
Proof.
  intros Hsize HA HB j Hj. cbn [mat_mul cols rows coeff] in *.
  rewrite (HA j Hj).
  rewrite (@dsum_ext Qc_double (rows A) _
             (fun i => dsum (rows B)
                         (fun l => dmul (dmul (coeff B l i) (coeff A i j))
                                        (value1 t2 p x l)))).
  2:{ intros i Hi. rewrite (HB i) by lia.
      rewrite <- (dsum_scale_l Qc_exact). apply (@dsum_ext Qc_double). intros l _.
      cbn. ring. }
  rewrite (dsum_swap Qc_exact). apply (@dsum_ext Qc_double). intros l _.
  rewrite Hsize.
  apply (dsum_scale_r Qc_exact (cols B) (fun i => dmul (coeff B l i) (coeff A i j))).
Qed.

(** [m] insertions: the accumulated matrix relates the first basis to the
    last one, whose knots are in order again. *)
Lemma insert_many_refines (p : nat) (tau x : Qc) (t0 : list Qc) :
  forall (m : nat) (t : list Qc) (A A' : Matrix) (t' : list Qc),
    sorted_knots t -> (p + 1 < length t)%nat ->
    rows A = count1 (t, p) ->
    refines1 A t0 t p x ->
    insert_many m t p tau A = Some (A', t') ->
    sorted_knots t' /\ (p + 1 < length t')%nat
    /\ rows A' = count1 (t', p) /\ cols A' = cols A
    /\ hd (q 0) t' = hd (q 0) t /\ last t' (q 0) = last t (q 0)
    /\ refines1 A' t0 t' p x.
Proof.
  induction m as [|m IH]; intros t A A' t' Hs Hlen Hrows Href Hins.
  - injection Hins as <- <-. repeat split; assumption.
  - cbn [insert_many] in Hins.
    destruct (find_span t tau) as [k|] eqn:Hspan; [|discriminate].
    destruct (find_span_some t tau k Hspan) as (Hk & Hlo & Hhi).
    apply IH in Hins.
    + destruct Hins as (Hs' & Hlen' & Hrows' & Hcols' & Hhd & Hlast & Href').
      repeat split; try assumption.
      * rewrite Hhd. unfold insert_after.
        destruct t as [|a t]; [cbn in Hk; lia|]. reflexivity.
      * rewrite Hlast. apply last_insert_after. exact Hk.
    + apply sorted_insert_after; assumption.
    + rewrite length_insert_after by lia. lia.
    + cbn [mat_mul rows]. apply rows_boehm_matrix; [exact Hlen | lia].
    + apply (refines1_compose A _ t0 t _ p x).
      * rewrite Hrows. reflexivity.
      * exact Href.
      * apply boehm_matrix_refines; assumption.
Qed.

Lemma identity_refines (t : list Qc) (p : nat) (x : Qc) :
  refines1 (identity (count1 (t, p))) t t p x.
Proof.
  intros j Hj. cbn [identity rows cols coeff] in *.
  etransitivity.
  { symmetry.
    apply (@dsum_delta Qc_double Qc_exact Qcmult_1_l (count1 (t, p)) j
             (value1 t p x) Hj). }
  apply (@dsum_ext Qc_double). intros i _. rewrite Nat.eqb_sym. reflexivity.
Qed.

(** ** The tensor basis *)

Ltac exact_ring :=
  unfold vec; change (@coeff Qc_double) with entry;
  cbn [dmul dadd d0 d1 Qc_double];
  match goal with |- @eq _ ?a ?b => change (@eq Qc a b) end;
  change (Q2Qc 1) with 1; change (Q2Qc 0) with 0;
  change (q 1) with 1; change (q 0) with 0; ring.

(** *** Indices of a product space *)

Lemma div_of_mod (r b c : nat) : ((r mod (c * b)) / b = (r / b) mod c)%nat.
Proof.
  rewrite (Nat.mul_comm c b), Nat.Div0.mod_mul_r.
  destruct b as [|b']; [cbn; symmetry; apply Nat.Div0.mod_0_l|].
  rewrite (Nat.mul_comm (S b')), Nat.div_add by lia.
  rewrite Nat.div_small by (apply Nat.mod_upper_bound; lia). reflexivity.
Qed.

Lemma mod_of_mod (r b c : nat) : ((r mod (c * b)) mod b = r mod b)%nat.
Proof.
  rewrite (Nat.mul_comm c b), Nat.Div0.mod_mul_r.
  rewrite (Nat.mul_comm b), Nat.Div0.mod_add. apply Nat.Div0.mod_mod.
Qed.

Lemma div_of_div (r b c : nat) : (r / b / c = r / (c * b))%nat.
Proof. rewrite Nat.Div0.div_div, (Nat.mul_comm b c). reflexivity. Qed.

Lemma index_of_block (a N d : nat) :
  (d < N)%nat -> ((a * N + d) / N = a /\ (a * N + d) mod N = d)%nat.
Proof.
  intros Hd. split.
  - rewrite Nat.add_comm, Nat.div_add by lia.
    rewrite Nat.div_small by exact Hd. reflexivity.
  - rewrite Nat.add_comm, Nat.Div0.mod_add. apply Nat.mod_small. exact Hd.
Qed.

Lemma fold_mul_scale (l : list nat) (a : nat) :
  fold_left Nat.mul l a = (a * fold_left Nat.mul l 1)%nat.
Proof.
  revert a. induction l as [|c l IH]; intros a; cbn [fold_left]; [lia|].
  rewrite (IH (a * c)%nat), (IH (1 * c)%nat). lia.
Qed.

Lemma product_of_cons (c : nat) (l : list nat) :
  product_of (c :: l) = (c * product_of l)%nat.
Proof.
  unfold product_of. cbn [fold_left]. rewrite fold_mul_scale. lia.
Qed.

Lemma product_of_app (l1 l2 : list nat) :
  product_of (l1 ++ l2) = (product_of l1 * product_of l2)%nat.
Proof.
  induction l1 as [|c l1 IH];
    [cbn [app]; change (product_of []) with 1%nat; lia|].
  cbn [app]. rewrite !product_of_cons, IH. lia.
Qed.

(** *** Sums over a product space *)

Lemma dsum_product (a b : nat) (f : nat -> Qc) :
  dsum (a * b) f = dsum a (fun i => dsum b (fun k => f (i * b + k)%nat)).
Proof.
  induction a as [|a IH]; [reflexivity|].
  rewrite Nat.mul_succ_l, (dsum_app Qc_exact), IH, dsum_S. reflexivity.
Qed.

Lemma rows_eval1 (b1 : basis1) (x : Qc) : rows (eval1 b1 x) = count1 b1.
Proof.
  unfold eval1, vector_of_list. cbn [rows]. rewrite length_map, length_seq.
  reflexivity.
Qed.

(** *** The tensor basis, value by value *)

Lemma eval_from_coeff (x : Matrix) (b : tensor_basis) :
  forall (i : nat) (acc : Matrix) (r : nat),
    coeff (eval_from i b x acc) r 0
    = coeff acc (r / product_of (map count1 b)) 0
      * tensor_value i b x (r mod product_of (map count1 b)).
Proof.
  induction b as [|b1 rest IH]; intros i acc r.
  - cbn [eval_from map tensor_value]. change (product_of []) with 1%nat.
    rewrite Nat.div_1_r. exact_ring.
  - cbn [eval_from map tensor_value]. rewrite IH.
    cbn [kroneckerProduct coeff]. rewrite rows_eval1.
    change (cols (eval1 b1 (vec x i))) with 1%nat.
    change (0 / 1)%nat with 0%nat. change (0 mod 1)%nat with 0%nat.
    rewrite product_of_cons, div_of_mod, mod_of_mod, div_of_div.
    exact_ring.
Qed.

Lemma tensor_value_app (x : Matrix) (b1 b2 : tensor_basis) :
  forall (i r : nat),
    (r < product_of (map count1 (b1 ++ b2)))%nat ->
    tensor_value i (b1 ++ b2) x r
    = tensor_value i b1 x (r / product_of (map count1 b2))
      * tensor_value (i + length b1) b2 x (r mod product_of (map count1 b2)).
Proof.
  induction b1 as [|c b1 IH]; intros i r Hr.
  - cbn [app length tensor_value] in *. rewrite Nat.add_0_r.
    rewrite Nat.mod_small by exact Hr. exact_ring.
  - cbn [app length map tensor_value] in *.
    rewrite product_of_cons, map_app, product_of_app in Hr.
    rewrite map_app, product_of_app.
    set (P1 := product_of (map count1 b1)) in *.
    set (P2 := product_of (map count1 b2)) in *.
    assert (Hpos : (0 < P1 * P2)%nat) by nia.
    rewrite IH.
    2:{ rewrite map_app, product_of_app. fold P1 P2.
        apply Nat.mod_upper_bound. lia. }
    fold P2. rewrite div_of_mod, mod_of_mod, div_of_div.
    rewrite Nat.add_succ_r. cbn [Nat.add]. exact_ring.
Qed.

(** *** Refinement under a Kronecker product with an identity *)

Section Kronecker.
Variables (A : Matrix) (f g : nat -> Qc).
Hypothesis Hfg : forall j, (j < cols A)%nat ->
  f j = dsum (rows A) (fun k => dmul (coeff A k j) (g k)).

Lemma refines_identity_left (N : nat) (u : nat -> Qc) (j : nat) :
  (j < cols (kroneckerProduct (identity N) A))%nat ->
  u (j / cols A)%nat * f (j mod cols A)%nat
  = dsum (rows (kroneckerProduct (identity N) A))
      (fun k => dmul (coeff (kroneckerProduct (identity N) A) k j)
                     (u (k / rows A)%nat * g (k mod rows A)%nat)).
Proof.
  cbn [kroneckerProduct identity rows cols coeff]. intros Hj.
  assert (Hpos : (0 < cols A)%nat) by nia.
  assert (Hi : (j / cols A < N)%nat)
    by (apply Nat.Div0.div_lt_upper_bound; lia).
  rewrite (@dsum_ext Qc_double (N * rows A) _
             (fun m => dmul (dmul (if (j / cols A =? m / rows A)%nat then d1 else d0)
                                  (coeff A (m mod rows A)%nat (j mod cols A)%nat))
                            (u (m / rows A)%nat * g (m mod rows A)%nat)))
    by (intros k _; rewrite Nat.eqb_sym; reflexivity).
  rewrite (@dsum_block Qc_double Qc_exact Qcmult_1_l (rows A)
             (fun c => coeff A c (j mod cols A)%nat)
             (fun k => u (k / rows A)%nat * g (k mod rows A)%nat)
             (j / cols A)%nat N Hi).
  rewrite Hfg by (apply Nat.mod_upper_bound; lia).
  rewrite <- (dsum_scale_l Qc_exact). apply (@dsum_ext Qc_double).
  intros k Hk. destruct (index_of_block (j / cols A) (rows A) k Hk) as (-> & ->).
  exact_ring.
Qed.

Lemma refines_identity_right (N : nat) (v : nat -> Qc) (j : nat) :
  (j < cols (kroneckerProduct A (identity N)))%nat ->
  f (j / N)%nat * v (j mod N)%nat
  = dsum (rows (kroneckerProduct A (identity N)))
      (fun k => dmul (coeff (kroneckerProduct A (identity N)) k j)
                     (g (k / N)%nat * v (k mod N)%nat)).
Proof.
  cbn [kroneckerProduct identity rows cols coeff]. intros Hj.
  assert (Hpos : (0 < N)%nat) by nia.
  assert (Hi : (j / N < cols A)%nat)
    by (apply Nat.Div0.div_lt_upper_bound; lia).
  assert (Hd : (j mod N < N)%nat) by (apply Nat.mod_upper_bound; lia).
  rewrite dsum_product, (Hfg _ Hi).
  rewrite <- (dsum_scale_r Qc_exact). apply (@dsum_ext Qc_double).
  intros a _.
  rewrite (@dsum_ext Qc_double N _
             (fun d => @dmul Qc_double
                         (if (j mod N =? d)%nat then @d1 Qc_double else @d0 Qc_double)
                         (coeff A a (j / N)%nat * g a * v d))).
  2:{ intros d Hdd. destruct (index_of_block a N d Hdd) as (-> & ->).
      rewrite (Nat.eqb_sym d).
      destruct (j mod N =? d)%nat; exact_ring. }
  rewrite (@dsum_delta Qc_double Qc_exact Qcmult_1_l N (j mod N)%nat
             (fun d => coeff A a (j / N)%nat * g a * v d) Hd).
  exact_ring.
Qed.
End Kronecker.

(** *** The basis around one of its variables *)

Lemma nth_error_decompose {A} (b : list A) (dim : nat) (c : A) :
  nth_error b dim = Some c ->
  b = firstn dim b ++ c :: skipn (S dim) b /\ length (firstn dim b) = dim.
Proof.
  revert dim. induction b as [|a b IH]; intros [|dim] Hnth; try discriminate.
  - injection Hnth as ->. split; reflexivity.
  - cbn [nth_error] in Hnth. destruct (IH dim Hnth) as [Hb Hlen].
    cbn [firstn skipn app length]. split; [f_equal; exact Hb | f_equal; exact Hlen].
Qed.

Lemma replace_at_decompose {A} (b : list A) (dim : nat) (c c' : A) :
  nth_error b dim = Some c ->
  replace_at b dim c' = firstn dim b ++ c' :: skipn (S dim) b.
Proof.
  revert dim. induction b as [|a b IH]; intros [|dim] Hnth; try discriminate.
  - reflexivity.
  - cbn [nth_error] in Hnth. cbn [replace_at firstn skipn app].
    f_equal. apply IH. exact Hnth.
Qed.

(** Value [r] of the tensor basis, split at variable [length pre]. *)
Lemma eval_from_split (x : Matrix) (pre post : tensor_basis) (c : basis1) (r : nat) :
  (r < product_of (map count1 pre) * count1 c * product_of (map count1 post))%nat ->
  vec (eval_from 0 (pre ++ c :: post) x one) r
  = tensor_value 0 pre x (r / product_of (map count1 post) / count1 c)
    * vec (eval1 c (vec x (length pre)))
          ((r / product_of (map count1 post)) mod count1 c)
    * tensor_value (S (length pre)) post x (r mod product_of (map count1 post)).
Proof.
  intros Hr. unfold vec at 1. rewrite eval_from_coeff.
  assert (HP : product_of (map count1 (pre ++ c :: post))
               = (product_of (map count1 pre)
                  * (count1 c * product_of (map count1 post)))%nat).
  { rewrite map_app, product_of_app. cbn [map]. rewrite product_of_cons.
    reflexivity. }
  assert (Hr' : (r < product_of (map count1 (pre ++ c :: post)))%nat)
    by (rewrite HP; lia).
  rewrite (Nat.mod_small _ _ Hr'), (Nat.div_small _ _ Hr').
  rewrite tensor_value_app by exact Hr'.
  cbn [map tensor_value Nat.add]. rewrite product_of_cons.
  rewrite div_of_mod, mod_of_mod, div_of_div.
  change (coeff one 0 0) with (q 1). exact_ring.
Qed.

(** The matrix of one variable, extended to the tensor basis, relates the
    tensor bases as it relates the bases of that variable. *)
Lemma extend_refines (refine_succeeds : bool) (b : tensor_basis) (dim : nat)
    (t t' : list Qc) (p : nat) (A : Matrix) (x : Matrix) :
  nth_error b dim = Some (t, p) ->
  cols A = count1 (t, p) -> rows A = count1 (t', p) ->
  refines1 A t t' p (vec x dim) ->
  @refines_at _ (layer refine_succeeds) (extend b dim A) b
              (replace_at b dim (t', p)) x.
Proof.
  intros Hnth Hcols Hrows Href j Hj.
  rewrite (replace_at_decompose b dim (t, p) (t', p) Hnth).
  destruct (nth_error_decompose b dim (t, p) Hnth) as [Hb Hlen].
  unfold extend in *.
  set (pre := firstn dim b) in *. set (post := skipn (S dim) b) in *.
  set (Npre := product_of (map count1 pre)) in *.
  set (Npost := product_of (map count1 post)) in *.
  set (B := kroneckerProduct (identity Npre) A) in *.
  assert (HjN : (j < Npre * cols A * Npost)%nat) by exact Hj.
  cbn [basis_eval layer].
  rewrite Hb at 1. fold pre post.
  rewrite eval_from_split by (fold Npre Npost; rewrite <- Hcols; exact HjN).
  fold Npre Npost. rewrite Hlen, <- Hcols.
  assert (Hleft := refines_identity_left A (value1 t p (vec x dim))
                     (value1 t' p (vec x dim)) Href Npre (tensor_value 0 pre x)).
  fold B in Hleft.
  assert (Hright := refines_identity_right B _ _ Hleft Npost
                      (tensor_value (S dim) post x) j Hj).
  cbn beta in Hright. unfold value1 in Hright at 1.
  rewrite Hright. apply (@dsum_ext Qc_double). intros k Hk.
  f_equal.
  assert (HkN : (k < Npre * rows A * Npost)%nat) by exact Hk.
  rewrite eval_from_split by (fold Npre Npost; rewrite <- Hrows; exact HkN).
  fold Npre Npost. rewrite Hlen, <- Hrows. reflexivity.
Qed.

(** *** A successful insertion *)

Lemma insert_knots_success (b : tensor_basis) (tau : Qc) (dim : nat) (m : Z) :
  fst (fst (insert_knots b tau dim m)) = true ->
  exists t p A t',
    nth_error b dim = Some (t, p)
    /\ insert_many (Z.to_nat m) t p tau (identity (count1 (t, p))) = Some (A, t')
    /\ insert_knots b tau dim m = (true, extend b dim A, replace_at b dim (t', p)).
Proof.
  unfold insert_knots.
  destruct (nth_error b dim) as [[t p]|]; [|discriminate].
  destruct (_ || _); [discriminate|].
  destruct (insert_many _ _ _ _ _) as [[A t']|] eqn:Hins; [|discriminate].
  intros _. exists t, p, A, t'. split; [reflexivity|]. split; [exact Hins | reflexivity].
Qed.

(** Insertions leave the first and the last knot, so the support. *)
Lemma insert_many_ends (p : nat) (tau : Qc) :
  forall (m : nat) (t : list Qc) (A A' : Matrix) (t' : list Qc),
    insert_many m t p tau A = Some (A', t') ->
    hd (q 0) t' = hd (q 0) t /\ last t' (q 0) = last t (q 0) /\ cols A' = cols A.
Proof.
  induction m as [|m IH]; intros t A A' t' Hins.
  - injection Hins as <- <-. repeat split.
  - cbn [insert_many] in Hins.
    destruct (find_span t tau) as [k|] eqn:Hspan; [|discriminate].
    destruct (find_span_some t tau k Hspan) as (Hk & _ & _).
    destruct (IH _ _ _ _ Hins) as (Hhd & Hlast & Hcols).
    repeat split.
    + rewrite Hhd. unfold insert_after.
      destruct t as [|a t]; [cbn in Hk; lia|]. reflexivity.
    + rewrite Hlast. apply last_insert_after. exact Hk.
    + exact Hcols.
Qed.

Lemma support_replace_at (bound : basis1 -> Qc) (b : tensor_basis) (dim : nat)
    (c c' : basis1) :
  nth_error b dim = Some c -> bound c' = bound c ->
  map bound (replace_at b dim c') = map bound b.
Proof.
  intros Hnth Hbound.
  rewrite (replace_at_decompose b dim c c' Hnth).
  destruct (nth_error_decompose b dim c Hnth) as [Hb _].
  rewrite Hb at 3. rewrite !map_app. cbn [map]. rewrite Hbound. reflexivity.
Qed.

(** The insertion matrix of the reference basis relates the basis before
    to the basis after, at every point. *)
Lemma insert_knots_refines (refine_succeeds : bool) (b : tensor_basis)
    (tau : Qc) (dim : nat) (m : Z) (x : Matrix) :
  nondecreasing (fst (nth dim b ([], 0%nat))) = true ->
  fst (fst (insert_knots b tau dim m)) = true ->
  @refines_at _ (layer refine_succeeds)
              (snd (fst (insert_knots b tau dim m))) b
              (snd (insert_knots b tau dim m)) x
  /\ map lowerBound (snd (insert_knots b tau dim m)) = map lowerBound b
  /\ map upperBound (snd (insert_knots b tau dim m)) = map upperBound b.
Proof.
  intros Hsorted Hok.
  destruct (insert_knots_success b tau dim m Hok) as (t & p & A & t' & Hnth & Hins & ->).
  cbn [fst snd].
  rewrite (nth_error_nth b dim ([], 0%nat) Hnth) in Hsorted. cbn [fst] in Hsorted.
  destruct (insert_many_ends p tau _ _ _ _ _ Hins) as (Hhd & Hlast & Hcols).
  cbn [identity cols] in Hcols.
  split; [|split].
  - destruct (Nat.lt_ge_cases (p + 1) (length t)) as [Hlen | Hshort].
    + destruct (insert_many_refines p tau (vec x dim) t (Z.to_nat m) t
                  (identity (count1 (t, p))) A t')
        as (_ & _ & Hrows & _ & _ & _ & Href); try assumption.
      * exact (nondecreasing_knot t Hsorted).
      * reflexivity.
      * apply identity_refines.
      * apply extend_refines with (t := t) (t' := t') (p := p); assumption.
    + intros j Hj. exfalso. unfold extend in Hj.
      cbn [kroneckerProduct cols] in Hj. rewrite Hcols in Hj.
      unfold count1 in Hj. cbn [fst snd] in Hj.
      replace (length t - p - 1)%nat with 0%nat in Hj by lia.
      rewrite Nat.mul_0_r in Hj. cbn in Hj. lia.
  - apply support_replace_at with (c := (t, p)); [exact Hnth | exact Hhd].
  - apply support_replace_at with (c := (t, p)); [exact Hnth | exact Hlast].
Qed.

(** In the arithmetic of the rationals these are the formulas of the
    reference layer. *)
Lemma textbook_layer_exact (refine_succeeds : bool) :
  @Textbook.layer Reference.Qc_double Qcminus Reference.qeqb refine_succeeds
  = Reference.layer refine_succeeds.
Proof. reflexivity. Qed.

(** ** The surface after an insertion *)

(** C2.  On the reference layer, whose arithmetic is exact, a successful
    [insertKnots] into a knot vector that does not decrease replaces the
    coefficients by the old ones times the transpose of the insertion
    matrix, and the surface evaluates as before at every point: to the
    same value inside the domain, to the same exception outside. *)
Theorem insertKnots_preserves_eval
    (refine_succeeds : bool) (w : @World Qc_double (layer refine_succeeds))
    (tau : Qc) (dim : nat) (m : Z) :
  let run := @insertKnots Qc_double (layer refine_succeeds) tau dim m w in
  let b := basis (self w) in
  let A := snd (fst (insert_knots b tau dim m)) in
  let w' := snd run in
  nondecreasing (getKnotVector b dim) = true ->
  fst run = Return true ->
  coefficients (self w') = mat_mul (coefficients (self w)) (transpose A)
  /\ forall x, eval (self w') x = eval (self w) x.
Proof.
  intros run b A w' Hsorted Hok. unfold run in *. clear run.
  destruct (insertKnots_success w tau dim m Hok) as [Hcols Hw'].
  assert (Hbasis : fst (fst (insert_knots b tau dim m)) = true).
  { revert Hok. unfold insertKnots, bind, this_object, ret, update. cbn [fst snd].
    destruct (_ >? _); [discriminate|].
    change (basis_insertKnots (basis (self w)) tau dim m)
      with (insert_knots b tau dim m).
    destruct (insert_knots b tau dim m) as [[ok A0] b0]. cbn [fst snd].
    destruct ok; [reflexivity | discriminate]. }
  split; [unfold w'; rewrite Hw'; reflexivity|].
  intros x.
  destruct (insert_knots_refines refine_succeeds b tau dim m x Hsorted Hbasis)
    as (Href & Hlow & Hup).
  destruct (insideSupport b x) eqn:Hin.
  - apply (eval_after_refinement w tau dim m x Qc_exact Hok Hin).
    + unfold insideSupport.
      change (getSupportLowerBound (snd (basis_insertKnots (basis (self w)) tau dim m)))
        with (map lowerBound (snd (insert_knots b tau dim m))).
      change (getSupportUpperBound (snd (basis_insertKnots (basis (self w)) tau dim m)))
        with (map upperBound (snd (insert_knots b tau dim m))).
      rewrite Hlow, Hup. exact Hin.
    + exact Href.
  - unfold w'. rewrite Hw'. unfold eval, pointInDomain. cbn [self basis].
    unfold insideSupport in *.
    change (getSupportLowerBound (snd (basis_insertKnots (basis (self w)) tau dim m)))
      with (map lowerBound (snd (insert_knots b tau dim m))).
    change (getSupportUpperBound (snd (basis_insertKnots (basis (self w)) tau dim m)))
      with (map upperBound (snd (insert_knots b tau dim m))).
    rewrite Hlow, Hup.
    change (map lowerBound b) with (getSupportLowerBound b).
    change (map upperBound b) with (getSupportUpperBound b).
    fold b. rewrite Hin. reflexivity.
Qed.

End InsertionFacts.


(** * The statements on concrete surfaces *)

Import Reference Scenarios.
#[local] Existing Instance text.
#[local] Open Scope string_scope.

Ltac qc_equal := apply Qc_is_canon; vm_compute; reflexivity.

(** C1 on the linear surface: 7 lies outside [0, 6], and at 5/2 the value
    is 3 * 1/2 + 2 * ... = 11/4. *)
Lemma eval_domain_or_inner_product_witness :
  eval (self linear_surface) (point (q 7))
  = Throw (Exception "BSpline::eval: Evaluation at point outside domain.")
  /\ eval (self linear_surface) (point (Q2Qc (5 # 2))) = Return (Q2Qc (11 # 4)).
Proof.
  destruct (eval_domain_or_inner_product (self linear_surface) (point (q 7)))
    as [Hout _].
  destruct (eval_domain_or_inner_product (self linear_surface) (point (Q2Qc (5 # 2))))
    as [_ Hin].
  split.
  - apply Hout. exists 0%nat, (q 0), (q 6). repeat split.
  - rewrite Hin.
    + f_equal; try qc_equal.
    + intros Hout'. apply pointInDomain_false in Hout'.
      vm_compute in Hout'. discriminate.
Defined.

(** C2 on the surface in two variables: the knot 1 goes twice into the
    quadratic knots 0 0 0 3 3 3 of the second variable, and the surface
    evaluates as before everywhere. *)
Lemma insertKnots_preserves_eval_witness :
  let w' := snd (insertKnots (q 1) 1 2 grid_surface) in
  nondecreasing (getKnotVector (basis (self grid_surface)) 1) = true
  /\ fst (insertKnots (q 1) 1 2 grid_surface) = Return true
  /\ coefficients (self w')
     = mat_mul (coefficients (self grid_surface))
         (transpose (snd (fst (basis_insertKnots (basis (self grid_surface)) (q 1) 1 2))))
  /\ forall x, eval (self w') x = eval (self grid_surface) x.
Proof.
  assert (Hs : nondecreasing (getKnotVector (basis (self grid_surface)) 1) = true)
    by (vm_compute; reflexivity).
  assert (Hok : fst (insertKnots (q 1) 1 2 grid_surface) = Return true)
    by (vm_compute; reflexivity).
  split; [exact Hs|]. split; [exact Hok|].
  exact (insertKnots_preserves_eval true grid_surface (q 1) 1%nat 2 Hs Hok).
Defined.

(** C2 as stated fails in binary64: on the line from 1 at 0 to 3 at 1
    the knot 3/4 goes in, the coefficients 1 3 become 1 5/2 3 without
    rounding, and the value at 1/2, which was 2, is the binary64 number
    next below 2: the values 1/3 and 2/3 of the new basis functions at
    1/2 are no binary64 numbers. *)
Lemma binary64_insertion_changes_value :
  let insert := @insertKnots Binary64.binary64 Binary64.layer
                  Binary64.three_quarters 0 1 Binary64.line in
  let value := fun w =>
    @eval Binary64.binary64 Binary64.layer (self w) Binary64.half in
  fst insert = Return true
  /\ map (coeff (coefficients (self (snd insert))) 0) [0; 1; 2]%nat
     = [Binary64.of_Z 1; PrimFloat.div (Binary64.of_Z 5) (Binary64.of_Z 2);
        Binary64.of_Z 3]
  /\ value Binary64.line = Return (Binary64.of_Z 2)
  /\ value (snd insert) = Return (PrimFloat.next_down (Binary64.of_Z 2))
  /\ value (snd insert) <> value Binary64.line.
Proof.
  intros insert value.
  assert (H1 : value Binary64.line = Return (Binary64.of_Z 2))
    by (vm_compute; reflexivity).
  assert (H2 : value (snd insert)
               = Return (PrimFloat.next_down (Binary64.of_Z 2)))
    by (vm_compute; reflexivity).
  split; [vm_compute; reflexivity|]. split; [vm_compute; reflexivity|].
  split; [exact H1|]. split; [exact H2|].
  rewrite H1, H2. intros Heq.
  apply (f_equal (fun r => match r with
                           | Return v => PrimFloat.ltb v (Binary64.of_Z 2)
                           | Throw _ => false
                           end)) in Heq.
  vm_compute in Heq. discriminate.
Qed.

(** C3 on the linear surface: the end knot 0 has multiplicity 2, the
    degree is 1, and one more knot at 0 is refused. *)
Lemma insertKnots_rejects_excess_witness :
  insertKnots (q 0) 0 1 linear_surface = (Return false, linear_surface).
Proof.
  apply (insertKnots_rejects_excess linear_surface (q 0) 0%nat 1).
  - vm_compute. split; discriminate.
  - vm_compute. split; discriminate.
  - vm_compute. split; discriminate.
  - vm_compute. reflexivity.
  - left. vm_compute. discriminate.
Defined.

(** C10 on the linear surface, which has one variable: no lower bound. *)
Lemma reduceDomain_size_mismatch_witness :
  reduceDomain [] [q 2] true true linear_surface = (Return false, linear_surface).
Proof.
  apply reduceDomain_size_mismatch. left. vm_compute. discriminate.
Defined.

(** C4 on the surface with five control points: regularisation is not
    asked for, support reduction fails, and the object is left as support
    reduction left it. *)
Lemma reduceDomain_failure_keeps_changes_witness :
  reduceDomain [q 0] [q 2] false false overfull_surface
  = (Throw remove_error,
     snd (removeUnsupportedBasisFunctions [q 0] [q 2] overfull_surface)).
Proof.
  destruct (reduceDomain_failure_keeps_changes overfull_surface [q 0] [q 2] false false)
    as [_ Hsteps].
  - vm_compute. reflexivity.
  - vm_compute. reflexivity.
  - destruct (Hsteps [q 0] [q 2]) as (_ & Hremove & _).
    + vm_compute. reflexivity.
    + apply Hremove.
      * intros Hreg. discriminate Hreg.
      * vm_compute. reflexivity.
Defined.

(** C4 as stated fails: five control points are accepted by
    [setControlPoints]; [reduceDomain] to [0, 2] then throws, and the knot
    vector it leaves behind is no longer the one it found. *)
Lemma reduceDomain_failure_mutates :
  let r := reduceDomain [q 0] [q 2] false false overfull_surface in
  fst (setControlPoints five_columns linear_surface) = Return tt
  /\ fst r = Throw (Exception
       "BSpline::reduceDomain: Failed to remove unsupported basis functions!")
  /\ knots_of overfull_surface = [[0; 0; 2; 4; 6; 6]]%Q
  /\ knots_of (snd r) = [[0; 0; 2; 4]]%Q
  /\ basis (self (snd r)) <> basis (self overfull_surface).
Proof.
  cbv zeta. split; [vm_compute; reflexivity|].
  split; [vm_compute; reflexivity|].
  split; [vm_compute; reflexivity|].
  split; [vm_compute; reflexivity|].
  intros Hsame.
  apply (f_equal (fun b => map (fun knots => length (fst knots)) b)) in Hsame.
  vm_compute in Hsame. discriminate Hsame.
Qed.

(** The same on a layer whose refinement fails: the linear surface is
    regularised and trimmed to [0, 2], and then the exception leaves it
    with two control points. *)
Example reduceDomain_refinement_failure :
  let r := @reduceDomain _ (layer false) [q 0] [q 2] true true linear_surface_no_refine in
  fst r = Throw (Exception "BSpline::reduceDomain: Failed to refine knot vectors!")
  /\ knots_on false linear_surface_no_refine = [[0; 0; 2; 4; 6; 6]]%Q
  /\ knots_on false (snd r) = [[0; 0; 2; 2]]%Q
  /\ cols (@coefficients _ (layer false) (@self _ (layer false) (snd r))) = 2%nat.
Proof. vm_compute. repeat split. Qed.

(** C5 on a system of one equation with a dense solver that fails. *)
Lemma solver_selection_witness :
  fst (@solveControlPoints _ _ dense_fails unit_system unit_system unit_system
         linear_surface)
  = Throw solve_error.
Proof.
  destruct (@solver_selection _ _ dense_fails unit_system unit_system unit_system
              linear_surface) as (Hsmall & _ & _).
  destruct Hsmall as (_ & _ & Hfail).
  - vm_compute. reflexivity.
  - apply Hfail. vm_compute. reflexivity.
Defined.

(** C5 as stated fails: with four samples the dense solver is the only
    one tried; it fails, the solve error is raised, and the sparse solver
    would have succeeded on every system. *)
Lemma dense_failure_alone_raises :
  let r := @computeControlPoints _ _ dense_fails four_samples linear_surface in
  fst r = Throw (Exception
       "BSpline::computeControlPoints: Failed to solve for B-spline coefficients.")
  /\ trace (snd r) = [Cout "Computing B-spline control points using dense solver."]
  /\ (forall A B, fst (@SparseLU_solve _ dense_fails A B) = true).
Proof. vm_compute. repeat split. Qed.

(** C6 on the linear surface: after the knot 3 went in the shape
    invariant holds, and no check was run. *)
Lemma control_points_invariant_kept_witness :
  let w' := snd (insertKnots (q 3) 0 1 linear_surface) in
  control_points_ok (self w') /\ trace w' = trace linear_surface.
Proof.
  destruct control_points_invariant_kept as (_ & _ & _ & Hkeep).
  destruct (Hkeep linear_surface) as (Hins & _).
  - vm_compute. repeat split.
  - apply (Hins (q 3) 0%nat 1).
Defined.

(** C6 as stated fails in its last part: [insertKnots] replaces the
    control points and [checkControlPoints] is not called. *)
Lemma insertKnots_skips_check :
  let r := insertKnots (q 3) 0 1 linear_surface in
  fst r = Return true
  /\ entries (coefficients (self linear_surface)) = [[1; 3; 2; 5]]%Q
  /\ entries (coefficients (self (snd r))) = [[1; 3; 5 # 2; 2; 5]]%Q
  /\ ~ In Called_checkControlPoints (trace (snd r)).
Proof.
  cbv zeta. split; [vm_compute; reflexivity|].
  split; [vm_compute; reflexivity|].
  split; [vm_compute; reflexivity|].
  vm_compute. intros Hin. exact Hin.
Qed.

(** C8 on a degree line whose second number is missing: the degree 2 is
    read, and the reading of the length behind it fails. *)
Lemma decoding_raises_on_unreadable_number_witness :
  let l := mkLocals [] [] 0 0 0 0 0 1 in
  read_line l "2 x" = (no_numbers, Some (invalid_argument "strtol"))
  /\ load_line l "2 x" linear_surface
     = (Throw (invalid_argument "strtol"), linear_surface)
  /\ fst (load ["1"; "2 x"] linear_surface) = Throw (invalid_argument "strtol").
Proof.
  intros l.
  assert (Hsig : significant "2 x").
  { exists "2"%char, " x". split; [reflexivity | discriminate]. }
  destruct (decoding_raises_on_unreadable_number l "2 x"
              (mkWorld (with_numVariables (self linear_surface) 1) [])
              Hsig) as (Hdecode & _ & _ & _ & _ & Hload).
  split; [reflexivity|].
  split; [rewrite (proj1 (decoding_raises_on_unreadable_number l "2 x" linear_surface Hsig)); reflexivity|].
  change ["1"; "2 x"] with (["1"] ++ "2 x" :: [])%list.
  rewrite (Hload linear_surface ["1"] [] (invalid_argument "strtol")
             (mkWorld (with_numVariables (self linear_surface) 1) [])).
  - reflexivity.
  - apply (reaches_snoc load_start linear_surface [] "1" load_start linear_surface).
    + constructor.
    + reflexivity.
  - rewrite Hdecode. reflexivity.
Defined.

(** C8 as stated fails: the token 1junk is no number, and the file is
    decoded as a surface in one variable. *)
Lemma trailing_letters_accepted :
  let r := load junk_file linear_surface in
  numeral_token "1junk" = false
  /\ fst r = Return tt
  /\ numVariables (self (snd r)) = 1
  /\ knots_of (snd r) = [[0; 0; 2; 2]]%Q
  /\ entries (coefficients (self (snd r))) = [[5; 7]]%Q.
Proof. vm_compute. repeat split. Qed.

(** A line for which no number is to be read is not looked at: with the
    length 0 and with 0 columns the lines of letters are taken. *)
Example unread_lines_accepted :
  fst (load ["1"; "1 0"; "junk"; "1 0"; "more junk"] (mkWorld blank []))
  = Return tt.
Proof. vm_compute. reflexivity. Qed.

(** C9 on the data of the surface in two variables: [loadBasis] leaves
    two rows and twelve columns, and in column 7 = 1 + 4 * 1 the second
    row holds the mean (0 + 3) / 2 of the knots 1 and 2 of the quadratic
    knot vector. *)
Lemma knot_averages_computed_then_transformed_witness :
  let w := mkWorld (mkBSpline BSplineBasis_default (coefficients (self grid_surface))
                      (resized 0 0) 2) [] in
  exists K,
    loadBasis [linear_knots; quadratic_knots] [1; 2]%Z w
    = (Return tt,
       mkWorld (mkBSpline (basis (self grid_surface)) (coefficients (self grid_surface))
                  K 2)
         [Called_checkControlPoints])
    /\ Z.of_nat (rows K) = 2%Z /\ Z.of_nat (cols K) = 12%Z
    /\ coeff K 1 7 = Q2Qc (3 # 2).
Proof.
  intros w.
  destruct knot_averages_computed_then_transformed
    as (Hload & _ & _).
  - intros x. apply Qcmult_1_l.
  - intros x. apply Qcmult_1_r.
  - destruct (Hload [linear_knots; quadratic_knots] [1; 2]%Z
                (basis (self grid_surface)) w)
      as (K & Hrun & Hrows & Hcols & Hentry).
    + vm_compute. discriminate.
    + reflexivity.
    + reflexivity.
    + reflexivity.
    + intros i Hi. change (Z.to_nat _) with 2%nat in Hi.
      destruct i as [|[|i]]; [ | | exfalso; lia].
      * split; [vm_compute; discriminate | split; [vm_compute; lia | vm_compute; discriminate]].
      * split; [vm_compute; discriminate | split; [vm_compute; lia | vm_compute; discriminate]].
    + vm_compute. reflexivity.
    + exists K. split; [exact Hrun|]. split; [exact Hrows|]. split; [exact Hcols|].
      rewrite Hentry.
      * qc_equal.
      * vm_compute. lia.
      * change (numBasisFunctions _) with 12%Z in Hcols. lia.
Defined.

(** C9 as stated fails in its last part: with abscissae 1 2 3 4 set by
    the caller, inserting the knot 3 changes the knot vector and leaves
    the knot averages 1 2 5/2 3 4, where the knot vector gives 0 2 3 4 6. *)
Lemma knot_averages_not_recomputed :
  let r := insertKnots (q 3) 0 1 custom_surface in
  fst (setControlPoints custom_points linear_surface) = Return tt
  /\ fst r = Return true
  /\ knots_of custom_surface = [[0; 0; 2; 4; 6; 6]]%Q
  /\ knots_of (snd r) = [[0; 0; 2; 3; 4; 6; 6]]%Q
  /\ entries (knotaverages (self (snd r))) = [[1; 2; 5 # 2; 3; 4]]%Q
  /\ fst (computeKnotAverages (snd r)) = Return tt
  /\ entries (knotaverages (self (snd (computeKnotAverages (snd r)))))
     = [[0; 2; 3; 4; 6]]%Q.
Proof. vm_compute. repeat split. Qed.

(** Where the matrix still holds the means that [loadBasis] computed, as
    on the linear surface, the insertion leaves what a new computation
    gives. *)
Example knot_averages_agree_on_computed_means :
  let r := insertKnots (q 3) 0 1 linear_surface in
  fst r = Return true
  /\ entries (knotaverages (self linear_surface)) = [[0; 2; 4; 6]]%Q
  /\ entries (knotaverages (self (snd r))) = [[0; 2; 3; 4; 6]]%Q
  /\ entries (knotaverages (self (snd (computeKnotAverages (snd r)))))
     = [[0; 2; 3; 4; 6]]%Q.
Proof. vm_compute. repeat split. Qed.


(** With degree 1 the round trip gives the knots and the coefficients
    back. *)
Example linear_round_trip :
  let r := load linear_file (mkWorld blank []) in
  save (self linear_surface) = Return linear_file
  /\ fst r = Return tt
  /\ knots_of (snd r) = knots_of linear_surface
  /\ entries (coefficients (self (snd r))) = entries (coefficients (self linear_surface)).
Proof. vm_compute. repeat split. Qed.

(** * The further statements on concrete surfaces *)

Import MoreScenarios.

(** The written form of 42 in front of a blank is read back as 42, with
    the pointer at the blank. *)
Lemma checked_strtol_reads_written_int_witness :
  checked_strtol (show_Z 42 ++ " 7") = Return (42, " 7").
Proof.
  destruct (checked_strtol_reads_written_int 42 " 7") as (Hin & _).
  - reflexivity.
  - apply Hin. unfold INT_MIN, INT_MAX. lia.
Defined.

(** The box [-1, 7] around the support [0, 6] of the linear surface. *)
Lemma reduceDomain_covering_box_is_identity_witness :
  reduceDomain [q (-1)] [q 7] true true linear_surface = (Return true, linear_surface).
Proof.
  apply reduceDomain_covering_box_is_identity.
  - reflexivity.
  - reflexivity.
  - intros dim Hd. change (Z.to_nat _) with 1%nat in Hd.
    destruct dim as [|dim]; [|lia].
    exists (q (-1)), (q 7), (q 0), (q 6). repeat split.
Defined.

(** The interval [3, 3] is empty: the linear surface is left as it was. *)
Lemma reduceDomain_empty_target_throws_witness :
  reduceDomain [q 3] [q 3] true true linear_surface
  = (Throw empty_set_error, linear_surface).
Proof.
  apply reduceDomain_empty_target_throws.
  - reflexivity.
  - reflexivity.
  - vm_compute. lia.
  - vm_compute. lia.
  - exists 0%nat. split; [vm_compute; lia|].
    exists (q 3), (q 3), (q 0), (q 6). repeat split. left. reflexivity.
Defined.

(** The linear surface has both 0 and 6 as double knots of degree 1. *)
Lemma regularizeKnotVectors_regular_is_identity_witness :
  regularizeKnotVectors [q 0] [q 6] linear_surface = (Return true, linear_surface).
Proof.
  apply regularizeKnotVectors_regular_is_identity.
  - reflexivity.
  - reflexivity.
  - intros dim Hd. change (Z.to_nat _) with 1%nat in Hd.
    destruct dim as [|dim]; [|lia].
    exists (q 0), (q 6). repeat split.
Defined.

(** The box [1, 5] inside the support [0, 6]: the steps run, with the
    bounds 1 and 5. *)
Lemma reduceDomain_clips_to_intersection_witness :
  exists sl' su',
    nth_error sl' 0 = Some (q 1) /\ nth_error su' 0 = Some (q 5)
    /\ reduceDomain [q 1] [q 5] true false linear_surface
       = reduceDomain_steps true false (sl', su', true) linear_surface.
Proof.
  destruct (reduceDomain_clips_to_intersection linear_surface [q 1] [q 5] true false)
    as (sl' & su' & strict & Hclip & _ & Hstrict & Hrun).
  - reflexivity.
  - reflexivity.
  - vm_compute. lia.
  - vm_compute. lia.
  - intros dim Hd. change (Z.to_nat _) with 1%nat in Hd.
    destruct dim as [|dim]; [|lia].
    intros (l & u & a & b & Hl & Hu & Ha & Hb & Hor).
    vm_compute in Hl, Hu, Ha, Hb.
    injection Hl as <-. injection Hu as <-. injection Ha as <-. injection Hb as <-.
    vm_compute in Hor. destruct Hor as [Hx | [Hx | Hx]]; discriminate Hx.
  - exists sl', su'.
    destruct (Hclip 0%nat) as (l & u & a & b & Hl & Hu & Ha & Hb & Hsl & Hsu);
      [vm_compute; lia|].
    vm_compute in Hl, Hu, Ha, Hb.
    injection Hl as <-. injection Hu as <-. injection Ha as <-. injection Hb as <-.
    assert (Hs : strict = true).
    { apply Hstrict. exists 0%nat. split; [vm_compute; lia|].
      exists (q 1), (q 5), (q 0), (q 6). repeat split. left. reflexivity. }
    rewrite Hs in Hrun.
    split; [exact Hsl|]. split; [exact Hsu | exact Hrun].
Defined.

(** On the linear surface, of four basis functions, a matrix of two rows
    and five columns is taken, and the row of coefficients alone is not. *)
Lemma setControlPoints_accepts_by_row_count_witness :
  setControlPoints five_columns linear_surface
  = (Return tt, control_points_set five_columns linear_surface)
  /\ setControlPoints linear_coefficients linear_surface
     = (Throw (assert_failed "controlPoints.rows() == numVariables + 1"), linear_surface).
Proof.
  destruct (setControlPoints_accepts_by_row_count five_columns linear_surface)
    as (Hok & _); [vm_compute; discriminate|].
  destruct (setControlPoints_accepts_by_row_count linear_coefficients linear_surface)
    as (_ & Hbad); [vm_compute; discriminate|].
  split; [apply Hok; reflexivity | apply Hbad; vm_compute; discriminate].
Defined.

(** The control points of the linear surface, set again. *)
Lemma setControlPoints_of_getControlPoints_witness :
  let cp := getControlPoints (self linear_surface) in
  fst (setControlPoints cp linear_surface) = Return tt
  /\ same_matrix (coefficients (self (snd (setControlPoints cp linear_surface))))
       (coefficients (self linear_surface)).
Proof.
  destruct (setControlPoints_of_getControlPoints linear_surface) as (Hok & Hc & _).
  - vm_compute. repeat split.
  - split; [exact Hok | exact Hc].
Defined.

(** Control points of the caller on the linear surface come back as
    they were set. *)
Lemma getControlPoints_of_setControlPoints_witness :
  same_matrix
    (getControlPoints (self (snd (setControlPoints custom_points linear_surface))))
    custom_points.
Proof.
  apply (getControlPoints_of_setControlPoints custom_points linear_surface).
  - vm_compute. split; discriminate.
  - apply (run_fst (setControlPoints custom_points) linear_surface).
    vm_compute. reflexivity.
Defined.

(** The linear surface: one variable and four basis functions. *)
Lemma explicit_construction_counts_witness :
  let w' := snd (construct (BSpline_explicit linear_coefficients [linear_knots] [1])) in
  numVariables (self w') = 1
  /\ Z.of_nat (cols linear_coefficients) = numBasisFunctions (basis (self w')).
Proof.
  destruct (explicit_construction_counts linear_coefficients [linear_knots] [1]
              (snd (construct (BSpline_explicit linear_coefficients [linear_knots] [1]))))
    as (_ & _ & Hn & _ & Hc & _).
  - apply (run_fst (BSpline_explicit linear_coefficients [linear_knots] [1])
             (mkWorld blank [])).
    vm_compute. reflexivity.
  - split; [exact Hn | exact Hc].
Defined.

(** The file of the linear surface, loaded into a fresh object. *)
Lemma load_counts_witness :
  let w' := snd (load linear_file (mkWorld blank [])) in
  Z.of_nat (cols (coefficients (self w'))) = numBasisFunctions (basis (self w')).
Proof.
  destruct (load_counts linear_file (mkWorld blank [])
              (snd (load linear_file (mkWorld blank []))))
    as (_ & Hc & _).
  - apply (run_fst (load linear_file) (mkWorld blank [])). vm_compute. reflexivity.
  - exact Hc.
Defined.

Lemma reads_back_small (z : Z) :
  In z [0; 1; 2; 3; 4; 5; 6] -> reads_back MS_SAVE_DOUBLE_PRECISION (q z).
Proof.
  intros Hz. cbn [In] in Hz.
  repeat (destruct Hz as [<- | Hz];
          [split; [eexists _, _; split; reflexivity | intros rest; split; reflexivity]|]).
  contradiction.
Qed.

Lemma linear_surface_saveable : saveable (self linear_surface).
Proof.
  constructor.
  - vm_compute. split; discriminate.
  - reflexivity.
  - intros i Hi. change (Z.to_nat _) with 1%nat in Hi.
    destruct i as [|i]; [vm_compute; split; discriminate | lia].
  - intros kv [<- | []]. split; [discriminate|]. split; [vm_compute; discriminate|].
    repeat (apply Forall_cons; [apply reads_back_small; cbn [In]; tauto|]).
    apply Forall_nil.
  - reflexivity.
  - split; [vm_compute; lia | vm_compute; discriminate].
  - change (coefficient_row (coefficients (self linear_surface)) 0)
      with [q 1; q 3; q 2; q 5].
    repeat (apply Forall_cons; [apply reads_back_small; cbn [In]; tauto|]).
    apply Forall_nil.
Defined.

(** The linear surface, saved and loaded into a fresh object. *)
Lemma load_of_save_is_explicit_construction_witness :
  save (self linear_surface) = Return (saved_file (self linear_surface))
  /\ load (saved_file (self linear_surface)) (mkWorld blank [])
     = construct (BSpline_explicit (loaded_coefficients (self linear_surface))
                    [linear_knots] [1])
  /\ same_matrix (loaded_coefficients (self linear_surface)) linear_coefficients.
Proof.
  destruct (load_of_save_is_explicit_construction (self linear_surface)
              linear_surface_saveable) as (Hsame & Hsave & _ & Hload).
  split; [exact Hsave|]. split; [exact Hload | exact Hsame].
Defined.

(** The file of the linear surface without its last line. *)
Lemma load_accepts_missing_row_witness :
  load (saved_head (self linear_surface)) (mkWorld blank [])
  = loadBasis [linear_knots] [1]
      (mkWorld (mkBSpline BSplineBasis_default (resized 1 4) (resized 0 0) 1) []).
Proof.
  apply (load_accepts_missing_row (self linear_surface) (mkWorld blank [])).
  exact linear_surface_saveable.
Defined.

(** An empty line behind the line of the degree. *)
Lemma load_rejects_empty_line_witness :
  load (["# Saved BSpline"; "# Number of bases: 1"; "1"; "1 6"] ++ "" :: [])
    (mkWorld blank [])
  = (Throw (out_of_range "basic_string::at"),
     mkWorld (mkBSpline BSplineBasis_default (resized 0 0) (resized 0 0) 1) []).
Proof.
  apply (load_rejects_empty_line (mkWorld blank [])
           ["# Saved BSpline"; "# Number of bases: 1"; "1"; "1 6"] []
           (mkLocals [1] [] 0 0 0 0 6 2)).
  apply run_lines_reaches. reflexivity.
Defined.

(** ** A fit with a solver for identity systems *)

Lemma qeqb_eq (a b : Qc) : qeqb a b = true -> a = b.
Proof. unfold qeqb. intros Hq. apply Qc_is_canon, Qeq_bool_iff, Hq. Qed.


Lemma is_identity_coeff (A : Matrix) (i j : nat) :
  is_identity A = true -> (i < rows A)%nat -> (j < cols A)%nat ->
  coeff A i j = if (i =? j)%nat then q 1 else q 0.
Proof.
  unfold is_identity. intros Hid Hi Hj.
  apply andb_prop in Hid as [_ Hall].
  rewrite forallb_forall in Hall. specialize (Hall i ltac:(apply in_seq; lia)).
  rewrite forallb_forall in Hall. specialize (Hall j ltac:(apply in_seq; lia)).
  apply qeqb_eq, Hall.
Qed.

Lemma identity_solve_exact : exact_solver identity_solve.
Proof.
  intros A B X Hsolve. unfold identity_solve in Hsolve.
  injection Hsolve as Hok <-.
  apply andb_prop in Hok as [Hid Hrows]. apply Nat.eqb_eq in Hrows.
  assert (Hsq : rows A = cols A).
  { unfold is_identity in Hid. apply andb_prop in Hid as [Hsq _].
    apply Nat.eqb_eq, Hsq. }
  split; [lia|]. intros i j Hi Hj.
  cbn [mat_mul coeff].
  rewrite (dsum_ext _ _ (fun k => dmul (if (i =? k)%nat then d1 else d0) (coeff B k j))).
  - apply (dsum_delta Qc_exact (fun a => Qcmult_1_l a) (cols A) i (fun k => coeff B k j)).
    lia.
  - intros k Hk. rewrite (is_identity_coeff A i k Hid Hi Hk).
    destruct (i =? k)%nat; reflexivity.
Qed.

(** The linear fit to four samples takes the value 3 at the sample
    point 2. *)
Lemma fitted_surface_interpolates_witness :
  let w' := snd (@BSpline_samples _ fit_layer identity_solvers four_samples LINEAR
                   (@mkWorld _ fit_layer (@blank _ fit_layer) [])) in
  @eval _ fit_layer (@self _ fit_layer w') (vector_of_list [q 2]) = Return (q 3).
Proof.
  apply (fitted_surface_interpolates (H0 := fit_layer) (LS := identity_solvers)
           four_samples LINEAR (@mkWorld _ fit_layer (@blank _ fit_layer) []) _
           1%nat [q 2] (q 3)).
  - intros a b. apply Qcmult_comm.
  - exact identity_solve_exact.
  - exact identity_solve_exact.
  - apply (run_fst (@BSpline_samples _ fit_layer identity_solvers four_samples LINEAR)
             (@mkWorld _ fit_layer (@blank _ fit_layer) [])).
    vm_compute. reflexivity.
  - reflexivity.
  - vm_compute. lia.
  - reflexivity.
  - vm_compute. reflexivity.
Defined.

(** At (1, 1) the Hessian of the curved surface has the rows
    0, -1/9 and -1/9, 1/9. *)
Lemma evalHessian_row_is_block_witness :
  exists Hm,
    @evalHessian _ _ derivatives (self curved_surface)
      (@vector_of_list Qc_double [q 1; q 1])
    = Return Hm
    /\ rows Hm = 2%nat /\ cols Hm = 2%nat
    /\ coeff Hm 0 0 = q 0
    /\ coeff Hm 0 1 = Qcdiv (q (-1)) (q 9)
    /\ coeff Hm 1 0 = Qcdiv (q (-1)) (q 9)
    /\ coeff Hm 1 1 = Qcdiv (q 1) (q 9).
Proof.
  eexists. split; [reflexivity|].
  destruct (evalHessian_row_is_block (BD := derivatives) Qc_exact
              (fun a => Qcmult_1_l a) (self curved_surface)
              (@vector_of_list Qc_double [q 1; q 1]) _ eq_refl eq_refl)
    as (Hr & Hc & Hentry).
  split; [exact Hr|]. split; [exact Hc|].
  split; [|split; [|split]].
  - rewrite (Hentry 0%nat 0%nat) by (rewrite Hr; vm_compute; lia). qc_equal.
  - rewrite (Hentry 0%nat 1%nat) by (rewrite Hr; vm_compute; lia). qc_equal.
  - rewrite (Hentry 1%nat 0%nat) by (rewrite Hr; vm_compute; lia). qc_equal.
  - rewrite (Hentry 1%nat 1%nat) by (rewrite Hr; vm_compute; lia). qc_equal.
Defined.
